(** * Interactive scene choreography of the construction-stage viewer

    A shallow embedding of [src/main.js]: the camera tween, the pan and zoom
    locks, the annotation visual state (hover / select tiers and their
    per-frame smoothing), the pointer-down routing between the draggable
    marker and the annotations, and the stage loader with its re-entrancy
    guard.

    Conventions of the embedding.
    - The module-level [let] variables of [main.js] are the fields of one
      record [State]; every function of the source becomes a function on
      [State].  Functions that can raise return an [Outcome] carrying the
      state reached at the [throw].
    - JavaScript numbers are idealised as exact rationals ([Q]): no rounding,
      no NaN.  [Infinity], which the code writes into the orbit-control
      distance bound, has a constructor of its own ([Distance]).  The one
      irrational operation, the square root inside the orbit controls'
      [update()], is exact on squares of rationals and taken from below
      with an error of less than 2^-64 otherwise.
    - [performance.now()], the bounding rectangle of the viewer container and
      the results of the ray casts are inputs of the handlers.
    - An object reference held in a variable ([hoveredAnnotation]) is an index
      into [currentAnnotations], or [HoverDetached] when the referenced group
      is no longer in that array.
    - DOM styling (class lists, loader spinner, scroll position, text of the
      coordinate overlay) is not modelled; of the marker's drag plane only the
      point where the pointer ray meets it is, as an input. *)

From Stdlib Require Import QArith Qminmax Qround Lqa ZArith String Bool.
From stdpp Require Import base list.

Local Open Scope Q_scope.

(** ** Numbers *)

Module Num.

(** [a < b] and [a <= b] on JS numbers, as booleans. *)
Definition leb (a b : Q) : bool := Qle_bool a b.
Definition ltb (a b : Q) : bool := negb (Qle_bool b a).

(** [Math.min(a, b)], [Math.abs(a)]. *)
Definition min (a b : Q) : Q := if ltb b a then b else a.
Definition abs (a : Q) : Q := if ltb a 0 then - a else a.

(** [Math.sqrt(a)] for [a >= 0]: the exact root when [a] is the square of a
    rational, and otherwise the root from below with an error of less than
    2^-64 (a double keeps 53 binary places). *)
Definition sqrt (a : Q) : Q :=
  let a := Qred a in
  Qred (Z.sqrt (Qnum a * Zpos (Qden a) * 2 ^ 128) # (Qden a * 2 ^ 64)).

End Num.

(** A distance bound of the orbit controls: a number or [Infinity]. *)
Inductive Distance : Type :=
| Finite (d : Q)
| Infinity.

(** ** The three.js helpers used by [main.js] *)

Record Vector3 : Type := Vec3 { vx : Q; vy : Q; vz : Q }.

(** Component-wise equality of rational vectors. *)
Definition veq (a b : Vector3) : Prop :=
  vx a == vx b /\ vy a == vy b /\ vz a == vz b.

Definition vsub (a b : Vector3) : Vector3 :=
  Vec3 (vx a - vx b) (vy a - vy b) (vz a - vz b).

Definition vadd (a b : Vector3) : Vector3 :=
  Vec3 (vx a + vx b) (vy a + vy b) (vz a + vz b).

Definition multiplyScalar (s : Q) (a : Vector3) : Vector3 :=
  Vec3 (vx a * s) (vy a * s) (vz a * s).

Definition lengthSq (a : Vector3) : Q :=
  vx a * vx a + vy a * vy a + vz a * vz a.

Module MathUtils.

(** Modelled from the spec: [THREE.MathUtils.smoothstep], [lerp] and
    [clamp] are library functions (three.js is not under src/); the spec
    names them "smoothstep easing" and linear interpolation.  The bodies
    are the ones of three.js. *)
Definition smoothstep (x min max : Q) : Q :=
  if Num.leb x min then 0
  else if Num.leb max x then 1
  else let x := (x - min) / (max - min) in x * x * (3 - 2 * x).

Definition lerp (x y t : Q) : Q := (1 - t) * x + t * y.

Definition clamp (value min max : Q) : Q := Qmax min (Qmin max value).

End MathUtils.

(** Modelled from the spec: [Vector3.lerpVectors(v1, v2, alpha)] of three.js,
    the linear interpolation [v1 + (v2 - v1) * alpha] on each component. *)
Definition lerpVectors (v1 v2 : Vector3) (alpha : Q) : Vector3 :=
  Vec3 (vx v1 + (vx v2 - vx v1) * alpha)
       (vy v1 + (vy v2 - vy v1) * alpha)
       (vz v1 + (vz v2 - vz v1) * alpha).

(** ** Data model *)

(** What [main.js] reads of the rendering library's camera and of its orbit
    controls. *)
Record Camera : Type := { position : Vector3 }.

Inductive PolarLimit : Type :=
| HalfPi  (* Math.PI / 2 *)
| FullPi. (* Math.PI *)

Record OrbitControls : Type := {
  target : Vector3;
  minDistance : Distance;
  maxDistance : Distance;
  maxPolarAngle : PolarLimit;
  enabled : bool
}.

(** A [GaussianSplats3D.Viewer].  [camera] and [controls] are optional
    because the source null-checks them; [viewerStage] is the stage the
    viewer was constructed for, [sceneAdded] is set once [addSplatScene] has
    resolved, [running] by [start()], [disposed] by [dispose()], and
    [canvasAttached] tells whether the viewer's canvas is still a child of
    the viewer container. *)
Record Viewer : Type := {
  camera : option Camera;
  controls : option OrbitControls;
  viewerStage : nat;
  sceneAdded : bool;
  running : bool;
  disposed : bool;
  canvasAttached : bool
}.

(** One entry of a stage's annotation file. *)
Record AnnotationData : Type := {
  pos : Vector3;
  dataTitle : string;
  desc : string;
  cameraPos : option Vector3;
  cameraLookAt : option Vector3
}.

(** One entry of [stages.json]. *)
Record Stage : Type := {
  stageTitle : string;
  initialCameraPosition : Vector3;
  initialCameraLookAt : Vector3;
  panLock : bool;
  rotationLock : bool;
  minZoom : option Q;
  maxZoom : option Q;
  annotationsUrl : option string
}.

(** The [THREE.Group] of an annotation: ring and fill disc, with the fill's
    material opacity and the group's [userData]. *)
Record AnnotationGroup : Type := {
  title : string;
  description : string;
  groupPosition : Vector3;
  scale : Vector3;
  fillOpacity : Q;
  targetScale : Q;
  targetOpacity : Q
}.

(** The draggable debug marker. *)
Record Dot : Type := { dotPosition : Vector3; dotVisible : bool }.

(** The value of [hoveredAnnotation]. *)
Inductive HoverRef : Type :=
| HoverNone                (* null *)
| HoverGroup (i : nat)     (* currentAnnotations[i] *)
| HoverDetached.           (* a group of a stage that has been replaced *)

(** The camera move tween variables. *)
Record Tween : Type := {
  camMoveActive : bool;
  camMoveStart : Q;
  camMoveDuration : Q;
  camStartPos : Vector3;
  camStartTarget : Vector3;
  camTargetPos : Vector3;
  camTargetTarget : Vector3
}.

(** Where a suspended [loadStage] call will resume. *)
Inductive Pending : Type :=
| AwaitSplat (index : nat)         (* await viewer.addSplatScene(...) *)
| AwaitAnnotations (index : nat).  (* await fetch(stage.annotationsUrl) *)

Record State : Type := {
  viewer : option Viewer;
  currentAnnotations : list AnnotationGroup;
  hoveredAnnotation : HoverRef;
  constructionStages : list Stage;
  isLoading : bool;
  pending : option Pending;
  isPanLockActive : bool;
  devOverlayVisible : bool;
  tween : Tween;
  movableDot : option Dot;
  isDraggingDot : bool;
  zoomLockEnabled : bool;
  zoomMinDistance : Distance;
  zoomMaxDistance : Distance;
  (* the #annotations-menu element: None while null, Some shown otherwise *)
  annotationsMenu : option bool;
  (* the #annotations-list element: None while null, otherwise the data its
     rows were built from *)
  annotationsList : option (list AnnotationData);
  currentAnnotationsData : list AnnotationData;
  selectedAnnotationIndex : Z
}.

(** The module-level initialisers of [main.js]. *)
Definition zero3 : Vector3 := Vec3 0 0 0.

Definition initialTween : Tween :=
  {| camMoveActive := false; camMoveStart := 0; camMoveDuration := 1500;
     camStartPos := zero3; camStartTarget := zero3;
     camTargetPos := zero3; camTargetTarget := zero3 |}.

Definition initialState : State :=
  {| viewer := None; currentAnnotations := []; hoveredAnnotation := HoverNone;
     constructionStages := []; isLoading := false; pending := None;
     isPanLockActive := false; devOverlayVisible := false;
     tween := initialTween; movableDot := None; isDraggingDot := false;
     zoomLockEnabled := false;
     zoomMinDistance := Finite 2; zoomMaxDistance := Finite 50;
     annotationsMenu := None; annotationsList := None;
     currentAnnotationsData := []; selectedAnnotationIndex := (-1)%Z |}.

(** *** Assignments *)

Definition set_viewer (v : option Viewer) (s : State) : State :=
  {| viewer := v; currentAnnotations := currentAnnotations s;
     hoveredAnnotation := hoveredAnnotation s;
     constructionStages := constructionStages s; isLoading := isLoading s;
     pending := pending s; isPanLockActive := isPanLockActive s;
     devOverlayVisible := devOverlayVisible s; tween := tween s;
     movableDot := movableDot s; isDraggingDot := isDraggingDot s;
     zoomLockEnabled := zoomLockEnabled s;
     zoomMinDistance := zoomMinDistance s; zoomMaxDistance := zoomMaxDistance s;
     annotationsMenu := annotationsMenu s; annotationsList := annotationsList s;
     currentAnnotationsData := currentAnnotationsData s;
     selectedAnnotationIndex := selectedAnnotationIndex s |}.

Definition set_currentAnnotations (l : list AnnotationGroup) (s : State) : State :=
  {| viewer := viewer s; currentAnnotations := l;
     hoveredAnnotation := hoveredAnnotation s;
     constructionStages := constructionStages s; isLoading := isLoading s;
     pending := pending s; isPanLockActive := isPanLockActive s;
     devOverlayVisible := devOverlayVisible s; tween := tween s;
     movableDot := movableDot s; isDraggingDot := isDraggingDot s;
     zoomLockEnabled := zoomLockEnabled s;
     zoomMinDistance := zoomMinDistance s; zoomMaxDistance := zoomMaxDistance s;
     annotationsMenu := annotationsMenu s; annotationsList := annotationsList s;
     currentAnnotationsData := currentAnnotationsData s;
     selectedAnnotationIndex := selectedAnnotationIndex s |}.

Definition set_hoveredAnnotation (h : HoverRef) (s : State) : State :=
  {| viewer := viewer s; currentAnnotations := currentAnnotations s;
     hoveredAnnotation := h;
     constructionStages := constructionStages s; isLoading := isLoading s;
     pending := pending s; isPanLockActive := isPanLockActive s;
     devOverlayVisible := devOverlayVisible s; tween := tween s;
     movableDot := movableDot s; isDraggingDot := isDraggingDot s;
     zoomLockEnabled := zoomLockEnabled s;
     zoomMinDistance := zoomMinDistance s; zoomMaxDistance := zoomMaxDistance s;
     annotationsMenu := annotationsMenu s; annotationsList := annotationsList s;
     currentAnnotationsData := currentAnnotationsData s;
     selectedAnnotationIndex := selectedAnnotationIndex s |}.

Definition set_constructionStages (l : list Stage) (s : State) : State :=
  {| viewer := viewer s; currentAnnotations := currentAnnotations s;
     hoveredAnnotation := hoveredAnnotation s;
     constructionStages := l; isLoading := isLoading s;
     pending := pending s; isPanLockActive := isPanLockActive s;
     devOverlayVisible := devOverlayVisible s; tween := tween s;
     movableDot := movableDot s; isDraggingDot := isDraggingDot s;
     zoomLockEnabled := zoomLockEnabled s;
     zoomMinDistance := zoomMinDistance s; zoomMaxDistance := zoomMaxDistance s;
     annotationsMenu := annotationsMenu s; annotationsList := annotationsList s;
     currentAnnotationsData := currentAnnotationsData s;
     selectedAnnotationIndex := selectedAnnotationIndex s |}.

(** [isLoading] and the continuation of the suspended call change together. *)
Definition set_loading (b : bool) (p : option Pending) (s : State) : State :=
  {| viewer := viewer s; currentAnnotations := currentAnnotations s;
     hoveredAnnotation := hoveredAnnotation s;
     constructionStages := constructionStages s; isLoading := b;
     pending := p; isPanLockActive := isPanLockActive s;
     devOverlayVisible := devOverlayVisible s; tween := tween s;
     movableDot := movableDot s; isDraggingDot := isDraggingDot s;
     zoomLockEnabled := zoomLockEnabled s;
     zoomMinDistance := zoomMinDistance s; zoomMaxDistance := zoomMaxDistance s;
     annotationsMenu := annotationsMenu s; annotationsList := annotationsList s;
     currentAnnotationsData := currentAnnotationsData s;
     selectedAnnotationIndex := selectedAnnotationIndex s |}.

Definition set_isPanLockActive (b : bool) (s : State) : State :=
  {| viewer := viewer s; currentAnnotations := currentAnnotations s;
     hoveredAnnotation := hoveredAnnotation s;
     constructionStages := constructionStages s; isLoading := isLoading s;
     pending := pending s; isPanLockActive := b;
     devOverlayVisible := devOverlayVisible s; tween := tween s;
     movableDot := movableDot s; isDraggingDot := isDraggingDot s;
     zoomLockEnabled := zoomLockEnabled s;
     zoomMinDistance := zoomMinDistance s; zoomMaxDistance := zoomMaxDistance s;
     annotationsMenu := annotationsMenu s; annotationsList := annotationsList s;
     currentAnnotationsData := currentAnnotationsData s;
     selectedAnnotationIndex := selectedAnnotationIndex s |}.

Definition set_devOverlayVisible (b : bool) (s : State) : State :=
  {| viewer := viewer s; currentAnnotations := currentAnnotations s;
     hoveredAnnotation := hoveredAnnotation s;
     constructionStages := constructionStages s; isLoading := isLoading s;
     pending := pending s; isPanLockActive := isPanLockActive s;
     devOverlayVisible := b; tween := tween s;
     movableDot := movableDot s; isDraggingDot := isDraggingDot s;
     zoomLockEnabled := zoomLockEnabled s;
     zoomMinDistance := zoomMinDistance s; zoomMaxDistance := zoomMaxDistance s;
     annotationsMenu := annotationsMenu s; annotationsList := annotationsList s;
     currentAnnotationsData := currentAnnotationsData s;
     selectedAnnotationIndex := selectedAnnotationIndex s |}.

Definition set_tween (t : Tween) (s : State) : State :=
  {| viewer := viewer s; currentAnnotations := currentAnnotations s;
     hoveredAnnotation := hoveredAnnotation s;
     constructionStages := constructionStages s; isLoading := isLoading s;
     pending := pending s; isPanLockActive := isPanLockActive s;
     devOverlayVisible := devOverlayVisible s; tween := t;
     movableDot := movableDot s; isDraggingDot := isDraggingDot s;
     zoomLockEnabled := zoomLockEnabled s;
     zoomMinDistance := zoomMinDistance s; zoomMaxDistance := zoomMaxDistance s;
     annotationsMenu := annotationsMenu s; annotationsList := annotationsList s;
     currentAnnotationsData := currentAnnotationsData s;
     selectedAnnotationIndex := selectedAnnotationIndex s |}.

Definition set_movableDot (d : option Dot) (s : State) : State :=
  {| viewer := viewer s; currentAnnotations := currentAnnotations s;
     hoveredAnnotation := hoveredAnnotation s;
     constructionStages := constructionStages s; isLoading := isLoading s;
     pending := pending s; isPanLockActive := isPanLockActive s;
     devOverlayVisible := devOverlayVisible s; tween := tween s;
     movableDot := d; isDraggingDot := isDraggingDot s;
     zoomLockEnabled := zoomLockEnabled s;
     zoomMinDistance := zoomMinDistance s; zoomMaxDistance := zoomMaxDistance s;
     annotationsMenu := annotationsMenu s; annotationsList := annotationsList s;
     currentAnnotationsData := currentAnnotationsData s;
     selectedAnnotationIndex := selectedAnnotationIndex s |}.

Definition set_isDraggingDot (b : bool) (s : State) : State :=
  {| viewer := viewer s; currentAnnotations := currentAnnotations s;
     hoveredAnnotation := hoveredAnnotation s;
     constructionStages := constructionStages s; isLoading := isLoading s;
     pending := pending s; isPanLockActive := isPanLockActive s;
     devOverlayVisible := devOverlayVisible s; tween := tween s;
     movableDot := movableDot s; isDraggingDot := b;
     zoomLockEnabled := zoomLockEnabled s;
     zoomMinDistance := zoomMinDistance s; zoomMaxDistance := zoomMaxDistance s;
     annotationsMenu := annotationsMenu s; annotationsList := annotationsList s;
     currentAnnotationsData := currentAnnotationsData s;
     selectedAnnotationIndex := selectedAnnotationIndex s |}.

Definition set_zoomLock (b : bool) (lo hi : Distance) (s : State) : State :=
  {| viewer := viewer s; currentAnnotations := currentAnnotations s;
     hoveredAnnotation := hoveredAnnotation s;
     constructionStages := constructionStages s; isLoading := isLoading s;
     pending := pending s; isPanLockActive := isPanLockActive s;
     devOverlayVisible := devOverlayVisible s; tween := tween s;
     movableDot := movableDot s; isDraggingDot := isDraggingDot s;
     zoomLockEnabled := b;
     zoomMinDistance := lo; zoomMaxDistance := hi;
     annotationsMenu := annotationsMenu s; annotationsList := annotationsList s;
     currentAnnotationsData := currentAnnotationsData s;
     selectedAnnotationIndex := selectedAnnotationIndex s |}.

Definition set_annotationsMenu (m : option bool) (s : State) : State :=
  {| viewer := viewer s; currentAnnotations := currentAnnotations s;
     hoveredAnnotation := hoveredAnnotation s;
     constructionStages := constructionStages s; isLoading := isLoading s;
     pending := pending s; isPanLockActive := isPanLockActive s;
     devOverlayVisible := devOverlayVisible s; tween := tween s;
     movableDot := movableDot s; isDraggingDot := isDraggingDot s;
     zoomLockEnabled := zoomLockEnabled s;
     zoomMinDistance := zoomMinDistance s; zoomMaxDistance := zoomMaxDistance s;
     annotationsMenu := m; annotationsList := annotationsList s;
     currentAnnotationsData := currentAnnotationsData s;
     selectedAnnotationIndex := selectedAnnotationIndex s |}.

Definition set_annotationsList (l : option (list AnnotationData)) (s : State) : State :=
  {| viewer := viewer s; currentAnnotations := currentAnnotations s;
     hoveredAnnotation := hoveredAnnotation s;
     constructionStages := constructionStages s; isLoading := isLoading s;
     pending := pending s; isPanLockActive := isPanLockActive s;
     devOverlayVisible := devOverlayVisible s; tween := tween s;
     movableDot := movableDot s; isDraggingDot := isDraggingDot s;
     zoomLockEnabled := zoomLockEnabled s;
     zoomMinDistance := zoomMinDistance s; zoomMaxDistance := zoomMaxDistance s;
     annotationsMenu := annotationsMenu s; annotationsList := l;
     currentAnnotationsData := currentAnnotationsData s;
     selectedAnnotationIndex := selectedAnnotationIndex s |}.

Definition set_currentAnnotationsData (l : list AnnotationData) (s : State) : State :=
  {| viewer := viewer s; currentAnnotations := currentAnnotations s;
     hoveredAnnotation := hoveredAnnotation s;
     constructionStages := constructionStages s; isLoading := isLoading s;
     pending := pending s; isPanLockActive := isPanLockActive s;
     devOverlayVisible := devOverlayVisible s; tween := tween s;
     movableDot := movableDot s; isDraggingDot := isDraggingDot s;
     zoomLockEnabled := zoomLockEnabled s;
     zoomMinDistance := zoomMinDistance s; zoomMaxDistance := zoomMaxDistance s;
     annotationsMenu := annotationsMenu s; annotationsList := annotationsList s;
     currentAnnotationsData := l;
     selectedAnnotationIndex := selectedAnnotationIndex s |}.

Definition set_selectedAnnotationIndex (i : Z) (s : State) : State :=
  {| viewer := viewer s; currentAnnotations := currentAnnotations s;
     hoveredAnnotation := hoveredAnnotation s;
     constructionStages := constructionStages s; isLoading := isLoading s;
     pending := pending s; isPanLockActive := isPanLockActive s;
     devOverlayVisible := devOverlayVisible s; tween := tween s;
     movableDot := movableDot s; isDraggingDot := isDraggingDot s;
     zoomLockEnabled := zoomLockEnabled s;
     zoomMinDistance := zoomMinDistance s; zoomMaxDistance := zoomMaxDistance s;
     annotationsMenu := annotationsMenu s; annotationsList := annotationsList s;
     currentAnnotationsData := currentAnnotationsData s;
     selectedAnnotationIndex := i |}.

(** Assignments to the fields of the library objects. *)
Definition set_position (p : Vector3) (c : Camera) : Camera :=
  {| position := p |}.

Definition set_target (t : Vector3) (c : OrbitControls) : OrbitControls :=
  {| target := t; minDistance := minDistance c; maxDistance := maxDistance c;
     maxPolarAngle := maxPolarAngle c; enabled := enabled c |}.

Definition set_distances (lo hi : Distance) (c : OrbitControls) : OrbitControls :=
  {| target := target c; minDistance := lo; maxDistance := hi;
     maxPolarAngle := maxPolarAngle c; enabled := enabled c |}.

Definition set_maxPolarAngle (a : PolarLimit) (c : OrbitControls) : OrbitControls :=
  {| target := target c; minDistance := minDistance c;
     maxDistance := maxDistance c; maxPolarAngle := a; enabled := enabled c |}.

Definition set_enabled (b : bool) (c : OrbitControls) : OrbitControls :=
  {| target := target c; minDistance := minDistance c;
     maxDistance := maxDistance c; maxPolarAngle := maxPolarAngle c;
     enabled := b |}.

Definition set_camera (c : option Camera) (v : Viewer) : Viewer :=
  {| camera := c; controls := controls v; viewerStage := viewerStage v;
     sceneAdded := sceneAdded v; running := running v; disposed := disposed v;
     canvasAttached := canvasAttached v |}.

Definition set_controls (c : option OrbitControls) (v : Viewer) : Viewer :=
  {| camera := camera v; controls := c; viewerStage := viewerStage v;
     sceneAdded := sceneAdded v; running := running v; disposed := disposed v;
     canvasAttached := canvasAttached v |}.

Definition set_y (y : Q) (v : Vector3) : Vector3 := Vec3 (vx v) y (vz v).

Definition set_scale (s : Vector3) (a : AnnotationGroup) : AnnotationGroup :=
  {| title := title a; description := description a;
     groupPosition := groupPosition a; scale := s;
     fillOpacity := fillOpacity a; targetScale := targetScale a;
     targetOpacity := targetOpacity a |}.

Definition set_fillOpacity (o : Q) (a : AnnotationGroup) : AnnotationGroup :=
  {| title := title a; description := description a;
     groupPosition := groupPosition a; scale := scale a;
     fillOpacity := o; targetScale := targetScale a;
     targetOpacity := targetOpacity a |}.

(** [userData.targetScale = s; userData.targetOpacity = o]: the two targets
    are always assigned as a pair. *)
Definition set_targets (s o : Q) (a : AnnotationGroup) : AnnotationGroup :=
  {| title := title a; description := description a;
     groupPosition := groupPosition a; scale := scale a;
     fillOpacity := fillOpacity a; targetScale := s; targetOpacity := o |}.

Definition set_camMoveActive (b : bool) (t : Tween) : Tween :=
  {| camMoveActive := b; camMoveStart := camMoveStart t;
     camMoveDuration := camMoveDuration t; camStartPos := camStartPos t;
     camStartTarget := camStartTarget t; camTargetPos := camTargetPos t;
     camTargetTarget := camTargetTarget t |}.

(** ** Outcomes of functions that can raise *)

Inductive Outcome : Type :=
| Returned (s : State)
| Threw (s : State).

Definition final (o : Outcome) : State :=
  match o with Returned s | Threw s => s end.

Definition andThen (o : Outcome) (k : State -> Outcome) : Outcome :=
  match o with
  | Returned s => k s
  | Threw s => Threw s
  end.

Notation "o >>> k" := (andThen o k) (at level 50, left associativity).

(** JS truthiness of a string, and [x || d] on a number. *)
Definition truthy (s : string) : bool :=
  match s with
  | EmptyString => false
  | String _ _ => true
  end.

Definition orDefault (x d : Q) : Q := if Qeq_bool x 0 then d else x.

(** [a[i]] for an array [a] and an integer [i]: [undefined] out of range. *)
Definition at_index {A : Type} (l : list A) (i : Z) : option A :=
  if (i <? 0)%Z then None else l !! Z.to_nat i.

(** ** Camera choreographer *)

(** The default value of the [duration] parameter of [moveCameraTo]. *)
Definition defaultDuration : Q := 1500.

(** [moveCameraTo(positionVec, lookAtVec, duration)], called at time [now]
    ([performance.now()]). *)
Definition moveCameraTo (positionVec lookAtVec : Vector3) (duration now : Q)
    (st : State) : State :=
  match viewer st with
  | Some v =>
      match camera v, controls v with
      | Some cam, Some ctl =>
          set_tween {| camMoveActive := true;
                       camMoveStart := now;
                       camMoveDuration := duration;
                       camStartPos := position cam;
                       camStartTarget := target ctl;
                       camTargetPos := positionVec;
                       camTargetTarget := lookAtVec |} st
      | _, _ => st
      end
  | None => st
  end.

(** *** The orbit controls' [update()] *)

(** [loadStage] constructs every viewer with ['cameraUp': [0, -1, 0]]: the
    polar angle of an offset is measured from this axis. *)
Definition cameraUp : Vector3 := Vec3 0 (-1) 0.

(** Modelled from the spec: [viewer.controls.update()] belongs to the orbit
    controls of the rendering library (not under src/).  The spec describes
    the controls as enforcing a minimum and maximum camera-to-target
    distance and a polar-angle bound, and the call as pushing the pose into
    the camera and controls.  The definitions from here to [controls_update]
    follow [update()] of the three.js orbit controls with no orbit gesture
    pending: the offset from the target to the camera is taken in spherical
    coordinates about the camera's up axis, the polar angle is cut off at
    [maxPolarAngle], the radius is clamped to [minDistance, maxDistance],
    and the camera is put back at the target plus the restricted offset.
    The target itself and the limits are left alone.  The limits that
    [main.js] never writes (lower polar bound, azimuth bounds) are not
    modelled.

    [radiusAtLeast] and [radiusAtMost] are [lo <= r] and [r <= hi] for a
    radius [r >= 0] given by its square. *)
Definition radiusAtLeast (r2 : Q) (lo : Distance) : bool :=
  match lo with
  | Finite l => Num.leb l 0 || Num.leb (l * l) r2
  | Infinity => false
  end.

Definition radiusAtMost (r2 : Q) (hi : Distance) : bool :=
  match hi with
  | Finite h => Num.leb 0 h && Num.leb r2 (h * h)
  | Infinity => true
  end.

(** The outcome of [Math.max(minDistance, Math.min(maxDistance, radius))]:
    the radius is kept, or replaced by one of the two bounds. *)
Inductive Radius : Type :=
| Kept
| Moved (d : Distance).

Definition clampRadius (r2 : Q) (lo hi : Distance) : Radius :=
  let inner :=  (* Math.min(maxDistance, radius), [None] for the radius *)
    match hi with
    | Finite h => if radiusAtMost r2 hi then None else Some h
    | Infinity => None
    end in
  match lo, inner with
  | Infinity, _ => Moved Infinity
  | Finite _, None => if radiusAtLeast r2 lo then Kept else Moved lo
  | Finite l, Some h => Moved (Finite (Qmax l h))
  end.

(** Whether the polar angle of the offset is at most the limit.  With the
    up axis [cameraUp], an angle of at most a right angle means that the
    camera is not on the positive-y side of the target. *)
Definition polarWithin (limit : PolarLimit) (offset : Vector3) : bool :=
  match limit with
  | HalfPi => Num.leb (vy offset) 0
  | FullPi => true
  end.

(** The pose satisfies the limits of the controls: [update()] has nothing to
    restrict. *)
Definition withinLimits (ctl : OrbitControls) (offset : Vector3) : bool :=
  let r2 := lengthSq offset in
  radiusAtLeast r2 (minDistance ctl) && radiusAtMost r2 (maxDistance ctl)
  && polarWithin (maxPolarAngle ctl) offset.

(** The direction of the offset once its polar angle has been restricted: a
    zero offset has polar angle 0 (it points along the up axis); an offset
    beyond the right angle is laid into the plane through the target (at
    azimuth 0 when it has no horizontal part). *)
Definition restrictedDirection (limit : PolarLimit) (offset : Vector3) : Vector3 :=
  if polarWithin limit offset then
    if Qeq_bool (lengthSq offset) 0 then cameraUp else offset
  else
    if Qeq_bool (vx offset * vx offset + vz offset * vz offset) 0
    then Vec3 0 0 1
    else Vec3 (vx offset) 0 (vz offset).

(** The restricted offset, or [None] when there is nothing to restrict.  A
    lower bound of [Infinity], which only a call [setZoomLock(Infinity, _)]
    can write, sends the position to non-finite numbers: they are outside
    the number model, and the camera is then left where it is. *)
Definition restrictOffset (ctl : OrbitControls) (offset : Vector3) : option Vector3 :=
  let r2 := lengthSq offset in
  let dir := restrictedDirection (maxPolarAngle ctl) offset in
  let rescaled (radius : Q) :=
    Some (multiplyScalar (radius / Num.sqrt (lengthSq dir)) dir) in
  match clampRadius r2 (minDistance ctl) (maxDistance ctl) with
  | Kept =>
      if polarWithin (maxPolarAngle ctl) offset then None
      else rescaled (Num.sqrt r2)
  | Moved (Finite d) => rescaled d
  | Moved Infinity => None
  end.

(** Modelled from the spec: [viewer.controls.update()], as described above:
    the camera is moved to the target plus the restricted offset when the
    limits have something to restrict, and nothing else is written. *)
Definition controls_update (v : Viewer) : Viewer :=
  match camera v, controls v with
  | Some cam, Some ctl =>
      match restrictOffset ctl (vsub (position cam) (target ctl)) with
      | Some offset =>
          set_camera (Some (set_position (vadd (target ctl) offset) cam)) v
      | None => v
      end
  | _, _ => v
  end.

(** The "smooth camera move handling" block of [animate].  The quotient is
    the one of JavaScript for a non-zero [camMoveDuration]; every call of
    [moveCameraTo] in [main.js] leaves the duration at its default. *)
Definition stepCameraMove (now : Q) (st : State) : State :=
  if camMoveActive (tween st) then
    match viewer st with
    | Some v =>
        match camera v, controls v with
        | Some cam, Some ctl =>
            let tw := tween st in
            let t := Num.min 1 ((now - camMoveStart tw) / camMoveDuration tw) in
            let easedT := MathUtils.smoothstep t 0 1 in
            let cam' :=
              set_position (lerpVectors (camStartPos tw) (camTargetPos tw) easedT) cam in
            let ctl' :=
              set_target (lerpVectors (camStartTarget tw) (camTargetTarget tw) easedT) ctl in
            let v' := controls_update (set_controls (Some ctl') (set_camera (Some cam') v)) in
            let st' := set_viewer (Some v') st in
            if Num.leb 1 t then set_tween (set_camMoveActive false tw) st' else st'
        | _, _ => st
        end
    | None => st
    end
  else st.

(** ** Orbit constraints *)

(** The "definitive pan lock logic" block of [animate]. *)
Definition stepPanLock (st : State) : State :=
  if isPanLockActive st then
    match viewer st with
    | Some v =>
        match controls v, camera v with
        | Some ctl, Some cam =>
            if Num.ltb 0 (vy (target ctl)) then
              let deltaY := vy (target ctl) in
              let cam' := set_position (set_y (vy (position cam) - deltaY) (position cam)) cam in
              let ctl' := set_target (set_y (vy (target ctl) - deltaY) (target ctl)) ctl in
              set_viewer (Some (set_controls (Some ctl') (set_camera (Some cam') v))) st
            else st
        | _, _ => st
        end
    | None => st
    end
  else st.

(** [window.setZoomLock(minDist, maxDist)] and [window.clearZoomLock()]. *)
Definition setZoomLock (minDist maxDist : Distance) (st : State) : State :=
  let st := set_zoomLock true minDist maxDist st in
  match viewer st with
  | Some v =>
      match controls v with
      | Some ctl =>
          set_viewer (Some (set_controls (Some (set_distances minDist maxDist ctl)) v)) st
      | None => st
      end
  | None => st
  end.

Definition clearZoomLock (st : State) : State :=
  let st := set_zoomLock false (zoomMinDistance st) (zoomMaxDistance st) st in
  match viewer st with
  | Some v =>
      match controls v with
      | Some ctl =>
          set_viewer (Some (set_controls (Some (set_distances (Finite 0) Infinity ctl)) v)) st
      | None => st
      end
  | None => st
  end.

(** ** Annotation visual state *)

(** The per-annotation body of the [forEach] of [animate] (the copy of the
    camera quaternion is not modelled). *)
Definition animateAnnotation (annotation : AnnotationGroup) : AnnotationGroup :=
  let currentScale := vx (scale annotation) in
  let targetScale := orDefault (targetScale annotation) 1.0 in
  let annotation :=
    if Num.ltb 0.001 (Num.abs (currentScale - targetScale)) then
      let newScale := MathUtils.lerp currentScale targetScale 0.1 in
      set_scale (Vec3 newScale newScale newScale) annotation
    else annotation in
  let currentOpacity := fillOpacity annotation in
  let targetOpacity := orDefault (targetOpacity annotation) 0.01 in
  if Num.ltb 0.001 (Num.abs (currentOpacity - targetOpacity)) then
    let newOpacity := MathUtils.lerp currentOpacity targetOpacity 0.1 in
    set_fillOpacity newOpacity annotation
  else annotation.

Definition stepAnnotations (st : State) : State :=
  match viewer st with
  | Some v =>
      match camera v with
      | Some _ => set_currentAnnotations (animateAnnotation <$> currentAnnotations st) st
      | None => st
      end
  | None => st
  end.

(** One call of [animate] at time [now]: camera move, pan lock, annotations,
    in this order. *)
Definition animate (now : Q) (st : State) : State :=
  stepAnnotations (stepPanLock (stepCameraMove now st)).

(** *** Pointer events *)

(** [viewerContainer.getBoundingClientRect()]. *)
Record Rect : Type := {
  rectLeft : Q; rectTop : Q; rectRight : Q; rectBottom : Q;
  rectWidth : Q; rectHeight : Q
}.

(** A pointer event together with what the handlers read of the page when it
    is dispatched: the container rectangle, whether the event target lies
    inside the stages menu, and the results of the ray casts made from the
    pointer through the camera ([rayHitsDot]: the ray meets the marker's
    sphere; [rayAnnotation]: the index in [currentAnnotations] of the group
    owning the first mesh hit; [rayOnDragPlane]: the point where the ray
    meets the drag plane, if it does).  The ray casts are purely geometric:
    they do not consult [visible]. *)
Record PointerEvent : Type := {
  clientX : Q;
  clientY : Q;
  rect : Rect;
  targetInMobileMenu : bool;
  rayHitsDot : bool;
  rayAnnotation : option nat;
  rayOnDragPlane : option Vector3
}.

(** [intersects.length > 0 ? intersects[0].object.parent : null]; a hit can
    only name a group of [currentAnnotations]. *)
Definition intersectedGroup (ev : PointerEvent) (st : State) : option nat :=
  match rayAnnotation ev with
  | Some i => if decide (i < length (currentAnnotations st))%nat then Some i else None
  | None => None
  end.

(** [hoveredAnnotation === intersectedGroup]. *)
Definition sameGroup (h : HoverRef) (g : option nat) : bool :=
  match h, g with
  | HoverNone, None => true
  | HoverGroup i, Some j => bool_decide (i = j)
  | _, _ => false
  end.

(** Writing both targets of the group at index [i]. *)
Definition write_targets (i : nat) (s o : Q) (st : State) : State :=
  set_currentAnnotations (alter (set_targets s o) i (currentAnnotations st)) st.

(** Writes through the reference held in [hoveredAnnotation]; a write to a
    detached group does not reach the current scene. *)
Definition write_hovered (f : AnnotationGroup -> AnnotationGroup) (st : State) : State :=
  match hoveredAnnotation st with
  | HoverGroup i => set_currentAnnotations (alter f i (currentAnnotations st)) st
  | _ => st
  end.

Definition outsideRect (ev : PointerEvent) : bool :=
  Num.ltb (clientX ev) (rectLeft (rect ev))
  || Num.ltb (rectRight (rect ev)) (clientX ev)
  || Num.ltb (clientY ev) (rectTop (rect ev))
  || Num.ltb (rectBottom (rect ev)) (clientY ev).

(** [onAnnotationHover(event)]. *)
Definition onAnnotationHover (ev : PointerEvent) (st : State) : State :=
  if outsideRect ev then
    match hoveredAnnotation st with
    | HoverNone => st
    | _ =>
        let st := write_hovered (fun a => set_fillOpacity 0.01 (set_scale (Vec3 1 1 1) a)) st in
        set_hoveredAnnotation HoverNone st
    end
  else
    match viewer st with
    | Some v =>
        match camera v with
        | Some _ =>
            let intersected := intersectedGroup ev st in
            (* Handle un-hovering *)
            let st :=
              match hoveredAnnotation st with
              | HoverNone => st
              | h =>
                  if negb (sameGroup h intersected) then
                    set_hoveredAnnotation HoverNone
                      (write_hovered (set_targets 1.0 0.01) st)
                  else st
              end in
            (* Handle new hover *)
            match intersected with
            | Some i =>
                if negb (sameGroup (hoveredAnnotation st) intersected) then
                  write_targets i 1.5 0.8 (set_hoveredAnnotation (HoverGroup i) st)
                else st
            | None => st
            end
        | None => st
        end
    | None => st
    end.

(** *** The annotations menu *)

(** [populateAnnotationsMenu(annotations)]: the data is stored, and the rows
    of the list are rebuilt from it when the list element exists. *)
Definition populateAnnotationsMenu (annotations : list AnnotationData)
    (st : State) : State :=
  let st := set_currentAnnotationsData annotations st in
  match annotationsList st with
  | None => st
  | Some _ => set_annotationsList (Some annotations) st
  end.

Definition resetAllTargets (st : State) : State :=
  set_currentAnnotations (set_targets 1.0 0.01 <$> currentAnnotations st) st.

(** [toggleAnnotationsMenu(show)].  The accesses to [annotationsMenu.classList]
    and [annotationsList.querySelectorAll] raise a TypeError while the
    element is null. *)
Definition toggleAnnotationsMenu (show : bool) (st : State) : Outcome :=
  match annotationsMenu st with
  | None => Threw st
  | Some _ =>
      if show then
        let st := set_annotationsMenu (Some true) st in
        match annotationsList st with
        | Some [] =>
            (* no row, or only the "No annotations" placeholder *)
            if decide (0 < length (currentAnnotationsData st))%nat
            then Returned (populateAnnotationsMenu (currentAnnotationsData st) st)
            else Returned st
        | _ => Returned st
        end
      else
        let st := set_annotationsMenu (Some false) st in
        let st := resetAllTargets st in
        match annotationsList st with
        | None => Threw st
        | Some _ => Returned (set_selectedAnnotationIndex (-1)%Z st)
        end
  end.

(** [highlightAnnotation(index, showModal)] called at time [now].  Inside the
    function the parameter [showModal] shadows the function of that name, so
    the call [showModal(...)] of the last branch applies a boolean and
    raises; every caller passes [false]. *)
Definition highlightAnnotation (index : Z) (showModal : bool) (now : Q)
    (st : State) : Outcome :=
  let st := set_selectedAnnotationIndex index st in
  let st := resetAllTargets st in
  match annotationsList st with
  | None => Threw st
  | Some _ =>
      match at_index (currentAnnotations st) index with
      | Some _ =>
          let st := write_targets (Z.to_nat index) 2.0 1.0 st in
          let data := at_index (currentAnnotationsData st) index in
          let st :=
            match data with
            | Some d =>
                match cameraPos d, cameraLookAt d with
                | Some p, Some l => moveCameraTo p l defaultDuration now st
                | _, _ => st
                end
            | None => st
            end in
          if showModal && bool_decide (is_Some data) then Threw st
          else Returned st
      | None => Returned st
      end
  end.

(** The three listeners of the menu row built for index [index]; [rows] is
    the array the row closes over. *)
Definition onRowMouseEnter (index : nat) (st : State) : State :=
  match currentAnnotations st !! index with
  | Some _ => write_targets index 1.5 0.8 st
  | None => st
  end.

Definition onRowMouseLeave (index : nat) (st : State) : State :=
  if negb (bool_decide (Z.of_nat index = selectedAnnotationIndex st)) then
    match currentAnnotations st !! index with
    | Some _ => write_targets index 1.0 0.01 st
    | None => st
    end
  else st.

Definition onRowClick (rows : list AnnotationData) (index : nat) (now : Q)
    (st : State) : Outcome :=
  highlightAnnotation (Z.of_nat index) false now st >>> fun st =>
  match rows !! index with
  | Some d =>
      match cameraPos d, cameraLookAt d with
      | Some p, Some l => Returned (moveCameraTo p l defaultDuration now st)
      | _, _ => Returned st
      end
  | None => Returned st
  end.

(** [initializeAnnotationsMenu()]; [menuEl] and [listEl] tell whether the two
    elements are found in the document.  The retry of the source is a later
    call of this function. *)
Definition initializeAnnotationsMenu (menuEl listEl : bool) (st : State) : State :=
  let st :=
    set_annotationsMenu
      (if menuEl then Some (default false (annotationsMenu st)) else None) st in
  set_annotationsList
    (if listEl then Some (default [] (annotationsList st)) else None) st.

(** ** Pointer target router *)

(** What a listener leaves behind: the state, and whether it called
    [stopImmediatePropagation()]. *)
Record Handled : Type := { after : State; stopped : bool }.

Definition pass (st : State) : Handled := {| after := st; stopped := false |}.
Definition claim (st : State) : Handled := {| after := st; stopped := true |}.

(** [viewer.controls.enabled = b] under the guard [if (viewer.controls)]. *)
Definition setControlsEnabled (b : bool) (st : State) : State :=
  match viewer st with
  | Some v =>
      match controls v with
      | Some ctl => set_viewer (Some (set_controls (Some (set_enabled b ctl)) v)) st
      | None => st
      end
  | None => st
  end.

Definition inButtonArea (ev : PointerEvent) : bool :=
  let clickX := clientX ev - rectLeft (rect ev) in
  let clickY := clientY ev - rectTop (rect ev) in
  Num.ltb (rectWidth (rect ev) - 150) clickX && Num.ltb clickY 80.

Definition dotVisibleNow (st : State) : bool :=
  match movableDot st with
  | Some d => dotVisible d
  | None => false
  end.

(** [onAnnotationPointerDown(event)] at time [now].  A listener that raises
    has not reached its [stopImmediatePropagation()]. *)
Definition onAnnotationPointerDown (ev : PointerEvent) (now : Q) (st : State) : Handled :=
  match viewer st with
  | Some v =>
      match camera v with
      | Some _ =>
          if targetInMobileMenu ev then pass st
          else if inButtonArea ev then pass st
          else if dotVisibleNow st && rayHitsDot ev then pass st
          else
            match intersectedGroup ev st with
            | Some index =>
                match currentAnnotations st !! index with
                | Some group =>
                    if truthy (title group) then
                      let st := setControlsEnabled false st in
                      match toggleAnnotationsMenu true st
                            >>> highlightAnnotation (Z.of_nat index) false now with
                      | Returned st => claim st
                      | Threw st => pass st
                      end
                    else pass st
                | None => pass st
                end
            | None => pass st
            end
      | None => pass st
      end
  | None => pass st
  end.

(** [onDotPointerDown(event)]. *)
Definition onDotPointerDown (ev : PointerEvent) (st : State) : Handled :=
  match viewer st with
  | Some v =>
      match camera v, movableDot st with
      | Some _, Some _ =>
          if rayHitsDot ev then
            claim (setControlsEnabled false (set_isDraggingDot true st))
          else pass st
      | _, _ => pass st
      end
  | None => pass st
  end.

(** [onDotPointerMove(event)]. *)
Definition onDotPointerMove (ev : PointerEvent) (st : State) : State :=
  if isDraggingDot st then
    match viewer st with
    | Some v =>
        match camera v, movableDot st with
        | Some _, Some d =>
            match rayOnDragPlane ev with
            | Some dragPoint =>
                set_movableDot (Some {| dotPosition := dragPoint;
                                        dotVisible := dotVisible d |}) st
            | None => st
            end
        | _, _ => st
        end
    | None => st
    end
  else st.

(** [updateDotPosition()], with the three numbers read from the inputs. *)
Definition updateDotPosition (x y z : Q) (st : State) : State :=
  match movableDot st with
  | Some d =>
      set_movableDot (Some {| dotPosition := Vec3 x y z;
                              dotVisible := dotVisible d |}) st
  | None => st
  end.

(** A pointer-move on the viewer container: [onDotPointerMove] listens in the
    capture phase and runs first; the hover handler is wrapped in
    [throttle(..., 16)] and runs only when [hoverRuns]. *)
Definition pointerMove (ev : PointerEvent) (hoverRuns : bool) (st : State) : State :=
  let st := onDotPointerMove ev st in
  if hoverRuns then onAnnotationHover ev st else st.

(** A pointer-down on the viewer container: [init] registers
    [onAnnotationPointerDown] first and [onDotPointerDown] second, both in
    the capture phase, so they run in this order unless the first one stops
    the propagation. *)
Definition pointerDown (ev : PointerEvent) (now : Q) (st : State) : State :=
  let h := onAnnotationPointerDown ev now st in
  if stopped h then after h else after (onDotPointerDown ev (after h)).

(** The pointer-up listener of [init]. *)
Definition pointerUp (st : State) : State :=
  set_isDraggingDot false (setControlsEnabled true st).

(** The click listener of the dev button. *)
Definition onDevButtonClick (st : State) : State :=
  let st := set_devOverlayVisible (negb (devOverlayVisible st)) st in
  match movableDot st with
  | Some d =>
      set_movableDot (Some {| dotPosition := dotPosition d;
                              dotVisible := devOverlayVisible st |}) st
  | None => st
  end.

(** [createMovableDot()]. *)
Definition createMovableDot (st : State) : State :=
  set_movableDot (Some {| dotPosition := zero3;
                          dotVisible := devOverlayVisible st |}) st.

(** ** Stage loading *)

(** [viewer.dispose()] followed by the removal of the old canvas. *)
Definition disposeViewer (v : Viewer) : Viewer :=
  {| camera := camera v; controls := controls v; viewerStage := viewerStage v;
     sceneAdded := sceneAdded v; running := running v; disposed := true;
     canvasAttached := false |}.

(** Modelled from the spec: [new GaussianSplats3D.Viewer({...})] is the
    rendering library (not under src/); it "exposes a camera" and "an
    orbit-controls object", here at the stage's initial pose and with the
    defaults of three.js orbit controls (distance range 0..Infinity, polar
    angle up to PI, enabled). *)
Definition newViewer (index : nat) (stage : Stage) : Viewer :=
  {| camera := Some {| position := initialCameraPosition stage |};
     controls := Some {| target := initialCameraLookAt stage;
                         minDistance := Finite 0; maxDistance := Infinity;
                         maxPolarAngle := FullPi; enabled := true |};
     viewerStage := index; sceneAdded := false; running := false;
     disposed := false; canvasAttached := true |}.

Definition startViewer (v : Viewer) : Viewer :=
  {| camera := camera v; controls := controls v; viewerStage := viewerStage v;
     sceneAdded := true; running := true; disposed := disposed v;
     canvasAttached := canvasAttached v |}.

(** The stage shown in the viewer container, if any. *)
Definition displayedStage (st : State) : option nat :=
  match viewer st with
  | Some v =>
      if sceneAdded v && running v && canvasAttached v && negb (disposed v)
      then Some (viewerStage v) else None
  | None => None
  end.

(** The [catch] and [finally] blocks of [loadStage]. *)
Definition loadStage_fail (st : State) : State := set_loading false None st.

(** The end of the [try] block of [loadStage] after [addAnnotations] has
    returned, then [finally]. *)
Definition loadStage_finish (st : State) : State :=
  set_loading false None (createMovableDot st).

(** The group [addAnnotations] creates for one entry. *)
Definition newGroup (annoData : AnnotationData) : AnnotationGroup :=
  {| title := dataTitle annoData;
     description := desc annoData;
     groupPosition := pos annoData;
     scale := Vec3 1 1 1;
     fillOpacity := 0.01;
     targetScale := 1.0;
     targetOpacity := 0.01 |}.

(** [currentAnnotations = []]: a group still referenced by
    [hoveredAnnotation] is detached from the array. *)
Definition clearAnnotations (st : State) : State :=
  let st := set_currentAnnotations [] st in
  match hoveredAnnotation st with
  | HoverGroup _ => set_hoveredAnnotation HoverDetached st
  | _ => st
  end.

Definition hasAnnotationsUrl (stage : Stage) : bool :=
  match annotationsUrl stage with
  | Some u => truthy u
  | None => false
  end.

(** [loadStage(index)] up to its first [await]. *)
Definition loadStage (index : nat) (st : State) : State :=
  if isLoading st then st
  else
    let st := set_loading true None st in
    let st :=
      match viewer st with
      | Some v => set_viewer (Some (disposeViewer v)) st
      | None => st
      end in
    match constructionStages st !! index with
    | Some stage =>
        set_loading true (Some (AwaitSplat index))
          (set_viewer (Some (newViewer index stage)) st)
    | None => loadStage_fail st (* reading a property of undefined raises *)
    end.

(** The zoom block of [loadStage]. *)
Definition applyStageZoom (stage : Stage) (st : State) (ctl : OrbitControls)
    : OrbitControls :=
  match minZoom stage, maxZoom stage with
  | Some lo, Some hi => set_distances (Finite lo) (Finite hi) ctl
  | _, _ =>
      if zoomLockEnabled st
      then set_distances (zoomMinDistance st) (zoomMaxDistance st) ctl
      else ctl
  end.

(** [loadStage] resumed when [viewer.addSplatScene] settles ([ok]: it
    resolved), up to the [await fetch] of [addAnnotations]. *)
Definition loadStage_splatSettled (ok : bool) (st : State) : State :=
  match pending st with
  | Some (AwaitSplat index) =>
      if ok then
        match constructionStages st !! index, viewer st with
        | Some stage, Some v =>
            let v := startViewer v in
            let st := set_isPanLockActive (panLock stage) (set_viewer (Some v) st) in
            match controls v with
            | Some ctl =>
                let ctl := set_maxPolarAngle
                             (if rotationLock stage then HalfPi else FullPi) ctl in
                let ctl := applyStageZoom stage st ctl in
                let st := set_viewer (Some (set_controls (Some ctl) v)) st in
                (* addAnnotations(index) *)
                let st := clearAnnotations st in
                if hasAnnotationsUrl stage
                then set_loading true (Some (AwaitAnnotations index)) st
                else loadStage_finish st
            | None => loadStage_fail st
            end
        | _, _ => loadStage_fail st
        end
      else loadStage_fail st
  | _ => st
  end.

(** [addAnnotations] resumed when the fetch of the annotation file settles
    ([None]: it failed), and the rest of [loadStage]. *)
Definition loadStage_annotationsSettled (result : option (list AnnotationData))
    (st : State) : State :=
  match pending st with
  | Some (AwaitAnnotations _) =>
      match result with
      | Some stageAnnotations =>
          let st := set_currentAnnotations (newGroup <$> stageAnnotations) st in
          loadStage_finish (populateAnnotationsMenu stageAnnotations st)
      | None => loadStage_finish st
      end
  | _ => st
  end.

(** [init()] once [stages.json] has been read. *)
Definition init (stages : list Stage) (menuEl listEl : bool) (st : State) : State :=
  loadStage 0 (initializeAnnotationsMenu menuEl listEl
                 (set_constructionStages stages st)).

(** ** The viewer as a transition system *)

Inductive Input : Type :=
| Frame (now : Q)
| PointerMove (ev : PointerEvent) (hoverRuns : bool)
| PointerDown (ev : PointerEvent) (now : Q)
| PointerUp
| MenuButtonClick
| MenuClose
| RowMouseEnter (index : nat)
| RowMouseLeave (index : nat)
| RowClick (index : nat) (now : Q)
| SetZoomLock (minDist maxDist : Distance)
| ClearZoomLock
| DevButtonClick
| DotInput (x y z : Q)
| RetryMenuInit (menuEl listEl : bool)
| LoadStage (index : nat)
| SplatSettled (ok : bool)
| AnnotationsSettled (result : option (list AnnotationData)).

(** [initializeAnnotationsMenu] registers the listeners of the menu button,
    of the close button and of the document only once it has found both
    elements, and does not retry after that. *)
Definition menuReady (st : State) : bool :=
  bool_decide (is_Some (annotationsMenu st))
  && bool_decide (is_Some (annotationsList st)).

(** A menu row for [index] exists only if the list was built from data that
    has this entry. *)
Definition rowExists (index : nat) (st : State) : bool :=
  match annotationsList st with
  | Some rows => bool_decide (index < length rows)%nat
  | None => false
  end.

Definition step (i : Input) (st : State) : State :=
  match i with
  | Frame now => animate now st
  | PointerMove ev hoverRuns => pointerMove ev hoverRuns st
  | PointerDown ev now => pointerDown ev now st
  | PointerUp => pointerUp st
  | MenuButtonClick =>
      if menuReady st then final (toggleAnnotationsMenu true st) else st
  | MenuClose =>
      if menuReady st then final (toggleAnnotationsMenu false st) else st
  | RowMouseEnter index =>
      if rowExists index st then onRowMouseEnter index st else st
  | RowMouseLeave index =>
      if rowExists index st then onRowMouseLeave index st else st
  | RowClick index now =>
      if rowExists index st
      then final (onRowClick (default [] (annotationsList st)) index now st)
      else st
  | SetZoomLock lo hi => setZoomLock lo hi st
  | ClearZoomLock => clearZoomLock st
  | DevButtonClick => onDevButtonClick st
  | DotInput x y z => updateDotPosition x y z st
  | RetryMenuInit menuEl listEl =>
      if menuReady st then st else initializeAnnotationsMenu menuEl listEl st
  | LoadStage index => loadStage index st
  | SplatSettled ok => loadStage_splatSettled ok st
  | AnnotationsSettled result => loadStage_annotationsSettled result st
  end.

Definition run (inputs : list Input) (st : State) : State :=
  foldl (fun s i => step i s) st inputs.

(** The states the page can be in.  Listeners and [animate] already run
    while [init] awaits [stages.json]; [init] then stores the stage list
    (once) and starts the first load. *)
Inductive reachable : State -> Prop :=
| reach_start : reachable initialState
| reach_init stages menuEl listEl st :
    reachable st -> constructionStages st = [] ->
    reachable (init stages menuEl listEl st)
| reach_step i st :
    reachable st -> reachable (step i st).

(** ** Vocabulary of the specification *)

(** Position and look-at of the current pose. *)
Definition cameraPosition (st : State) : option Vector3 :=
  v ← viewer st; c ← camera v; Some (position c).

Definition orbitTarget (st : State) : option Vector3 :=
  v ← viewer st; c ← controls v; Some (target c).

(** The tween step in the words of the specification: [t] is the elapsed
    fraction clamped to [0, 1], the pose is the interpolation at the eased
    [t], and the tween ends when [t] reaches 1. *)
Definition tweenFraction (now : Q) (tw : Tween) : Q :=
  MathUtils.clamp ((now - camMoveStart tw) / camMoveDuration tw) 0 1.

Definition tweenPosition (now : Q) (tw : Tween) : Vector3 :=
  lerpVectors (camStartPos tw) (camTargetPos tw)
    (MathUtils.smoothstep (tweenFraction now tw) 0 1).

Definition tweenTarget (now : Q) (tw : Tween) : Vector3 :=
  lerpVectors (camStartTarget tw) (camTargetTarget tw)
    (MathUtils.smoothstep (tweenFraction now tw) 0 1).

(** The three tiers of the annotation visual state. *)
Definition idleTier : Q * Q := (1.0, 0.01).
Definition hoveredTier : Q * Q := (1.5, 0.8).
Definition selectedTier : Q * Q := (2.0, 1.0).

Definition targets (a : AnnotationGroup) : Q * Q :=
  (targetScale a, targetOpacity a).

Definition isTier (p : Q * Q) : Prop :=
  p = idleTier \/ p = hoveredTier \/ p = selectedTier.

(** The targets of the annotation at index [i], if there is one. *)
Definition targetsAt (i : nat) (st : State) : option (Q * Q) :=
  targets <$> currentAnnotations st !! i.

Definition allTiers (l : list AnnotationGroup) : Prop :=
  Forall (fun a => isTier (targets a)) l.

Definition atMostOneSelected (l : list AnnotationGroup) : Prop :=
  forall i j a b,
    l !! i = Some a -> l !! j = Some b ->
    targets a = selectedTier -> targets b = selectedTier -> i = j.

(** The zoom range the specification resolves for a stage: the stage's own
    range, else the process-wide fallback, else unrestricted. *)
Definition effectiveZoom (stage : Stage) (st : State) : Distance * Distance :=
  match minZoom stage, maxZoom stage with
  | Some lo, Some hi => (Finite lo, Finite hi)
  | _, _ =>
      if zoomLockEnabled st then (zoomMinDistance st, zoomMaxDistance st)
      else (Finite 0, Infinity)
  end.

Definition zoomBounds (st : State) : option (Distance * Distance) :=
  v ← viewer st; c ← controls v; Some (minDistance c, maxDistance c).

Definition stageHasZoomRange (stage : Stage) : Prop :=
  is_Some (minZoom stage) /\ is_Some (maxZoom stage).

(** The controls of the viewer once the scene of an accepted load is in. *)
Definition loadedControls (stage : Stage) (st : State) : OrbitControls :=
  applyStageZoom stage st
    {| target := initialCameraLookAt stage;
       minDistance := Finite 0; maxDistance := Infinity;
       maxPolarAngle := if rotationLock stage then HalfPi else FullPi;
       enabled := true |}.

(** The stage the current viewer was built for. *)
Definition activeStage (st : State) : option Stage :=
  v ← viewer st; constructionStages st !! viewerStage v.

(** ** A sample site

    Two stages; the first has a zoom range, the pan lock and an annotation
    file with two entries (the first one is the scenario of the
    specification: an annotation at (1,0,0) seen from (0,0,5)). *)
Module Sample.

Definition stage0 : Stage :=
  {| stageTitle := "Foundation"%string;
     initialCameraPosition := Vec3 0 (-2) 8;
     initialCameraLookAt := Vec3 0 0 0;
     panLock := true; rotationLock := true;
     minZoom := Some 5; maxZoom := Some 20;
     annotationsUrl := Some "annotations/stage0.json"%string |}.

Definition stage1 : Stage :=
  {| stageTitle := "Framing"%string;
     initialCameraPosition := Vec3 3 (-1) 6;
     initialCameraLookAt := Vec3 0 0 0;
     panLock := false; rotationLock := false;
     minZoom := None; maxZoom := None;
     annotationsUrl := None |}.

Definition anno0 : AnnotationData :=
  {| pos := Vec3 1 0 0; dataTitle := "Column"%string; desc := "North column"%string;
     cameraPos := Some (Vec3 0 0 5); cameraLookAt := Some (Vec3 1 0 0) |}.

Definition anno1 : AnnotationData :=
  {| pos := Vec3 0 0 0; dataTitle := "Slab"%string; desc := "Ground slab"%string;
     cameraPos := None; cameraLookAt := None |}.

Definition stages : list Stage := [stage0; stage1].

(** The page after [init] and the complete load of stage 0. *)
Definition loaded : State :=
  Eval vm_compute in
    run [SplatSettled true; AnnotationsSettled (Some [anno0; anno1])]
        (init stages true true initialState).

(** A camera move to annotation 0 requested at time 1000. *)
Definition flying : State :=
  Eval vm_compute in moveCameraTo (Vec3 0 0 5) (Vec3 1 0 0) 1500 1000 loaded.

(** The pose after a camera move that ends below the ground plane; the
    rotation lock of stage 0 has brought the camera to the level of the
    orbit target. *)
Definition underGround : State :=
  Eval vm_compute in
    stepCameraMove 2500
      (moveCameraTo (Vec3 0 4 5) (Vec3 1 2 0) 1500 1000 loaded).

(** Stage 0 with an annotation whose camera pose is closer to its look-at
    point than the stage's minimum zoom distance, and a click on its menu
    row at time 1000. *)
Definition annoNear : AnnotationData :=
  {| pos := Vec3 1 0 0; dataTitle := "Joint"%string; desc := "Column joint"%string;
     cameraPos := Some (Vec3 1 0 2); cameraLookAt := Some (Vec3 1 0 0) |}.

Definition closeUp : State :=
  Eval vm_compute in
    run [SplatSettled true; AnnotationsSettled (Some [annoNear]);
         MenuButtonClick; RowClick 0 1000]
        (init stages true true initialState).

(** A rectangle of 800 x 600 and a pointer event in its middle. *)
Definition box : Rect :=
  {| rectLeft := 0; rectTop := 0; rectRight := 800; rectBottom := 600;
     rectWidth := 800; rectHeight := 600 |}.

Definition pointerAt (x y : Q) (dot : bool) (anno : option nat) : PointerEvent :=
  {| clientX := x; clientY := y; rect := box; targetInMobileMenu := false;
     rayHitsDot := dot; rayAnnotation := anno; rayOnDragPlane := None |}.

(** Annotation 0 has been selected from its menu row. *)
Definition selected0 : State :=
  Eval vm_compute in step (RowClick 0 1000) loaded.

(** The pointer rests on annotation 0 and one frame has passed. *)
Definition hovering0 : State :=
  Eval vm_compute in
    run [PointerMove (pointerAt 400 300 false (Some 0%nat)) true; Frame 1016]
        loaded.

End Sample.

(** ** Statements of the specification that the code does not meet *)

(** "Once [t] reaches 1 the tween is inactive and position and look-at equal
    exactly the requested end values." *)
Definition tween_reaches_end_pose : Prop :=
  forall (st : State) (now : Q),
    reachable st ->
    is_Some (cameraPosition st) -> is_Some (orbitTarget st) ->
    camMoveActive (tween st) = true ->
    0 < camMoveDuration (tween st) ->
    camMoveStart (tween st) + camMoveDuration (tween st) <= now ->
    exists p l,
      cameraPosition (stepCameraMove now st) = Some p
      /\ orbitTarget (stepCameraMove now st) = Some l
      /\ veq p (camTargetPos (tween st))
      /\ veq l (camTargetTarget (tween st)).

(** "Hover never demotes a selected annotation": whatever the pointer does,
    the targets of the selected annotation stay at the selected tier. *)
Definition hover_never_demotes_selected : Prop :=
  forall (st : State) (ev : PointerEvent) (i : nat),
    reachable st ->
    selectedAnnotationIndex st = Z.of_nat i ->
    targetsAt i st = Some selectedTier ->
    targetsAt i (onAnnotationHover ev st) = Some selectedTier.

(** "A runtime toggle of the global fallback leaves the bounds unchanged when
    the active stage defines its own zoom range." *)
Definition zoom_toggle_respects_stage : Prop :=
  forall (st : State) (stage : Stage) (lo hi : Distance),
    reachable st ->
    activeStage st = Some stage -> stageHasZoomRange stage ->
    zoomBounds (setZoomLock lo hi st) = zoomBounds st.

(** "The previous scene stays visible until the new stage is ready and is
    replaced only on success." *)
Definition load_keeps_previous_scene : Prop :=
  forall (st : State) (index : nat),
    reachable st -> isLoading st = false -> is_Some (displayedStage st) ->
    displayedStage (loadStage index st) = displayedStage st
    /\ displayedStage (loadStage_splatSettled false (loadStage index st))
       = displayedStage st.

(** ** The throttle wrapper

    [throttle(func, limit)] keeps a flag [inThrottle] in its closure: a call
    made while the flag is clear runs [func], sets the flag and schedules the
    timeout that clears it; a call made while the flag is set is dropped. *)
Section Throttle.

Context {A T : Type}.
Variable func : A -> T -> T.

Record Throttled : Type := {
  inThrottle : bool;
  pendingTimeouts : nat;
  inner : T
}.

Inductive ThrottleEvent : Type :=
| Call (args : A)
| TimeoutFires.

Definition throttled (ev : ThrottleEvent) (t : Throttled) : Throttled :=
  match ev with
  | Call args =>
      if inThrottle t then t
      else {| inThrottle := true;
              pendingTimeouts := S (pendingTimeouts t);
              inner := func args (inner t) |}
  | TimeoutFires =>
      match pendingTimeouts t with
      | O => t
      | S n => {| inThrottle := false; pendingTimeouts := n; inner := inner t |}
      end
  end.

Definition throttledRun (evs : list ThrottleEvent) (t : Throttled) : Throttled :=
  foldl (fun t ev => throttled ev t) t evs.

(** The wrapper as [throttle] returns it. *)
Definition freshThrottle (s : T) : Throttled :=
  {| inThrottle := false; pendingTimeouts := 0; inner := s |}.

End Throttle.

(** ** The theme switch *)

(** What [initializeThemeSwitch] and its listeners read and write: the mode,
    the [dark-mode] class of the body, the media query
    [(prefers-color-scheme: dark)], the [theme-mode] entry of the local
    storage and the [hidden] class of the theme menu. *)
Record Theme : Type := {
  currentMode : string;
  darkModeClass : bool;
  prefersDarkMatches : bool;
  storedThemeMode : option string;
  themeMenuHidden : bool
}.

(** [applyTheme(mode)]. *)
Definition applyTheme (mode : string) (t : Theme) : Theme :=
  {| currentMode := currentMode t;
     darkModeClass :=
       if String.eqb mode "auto" then prefersDarkMatches t
       else if String.eqb mode "dark" then true
       else false;
     prefersDarkMatches := prefersDarkMatches t;
     storedThemeMode := storedThemeMode t;
     themeMenuHidden := themeMenuHidden t |}.

(** [localStorage.getItem('theme-mode') || 'auto']. *)
Definition loadedMode (stored : option string) : string :=
  match stored with
  | Some m => if truthy m then m else "auto"%string
  | None => "auto"%string
  end.

(** [initializeThemeSwitch()] on a page whose button and menu exist; the
    arguments are the page as it is found. *)
Definition initializeThemeSwitch (page : Theme) : Theme :=
  let mode := loadedMode (storedThemeMode page) in
  applyTheme mode
    {| currentMode := mode;
       darkModeClass := darkModeClass page;
       prefersDarkMatches := prefersDarkMatches page;
       storedThemeMode := storedThemeMode page;
       themeMenuHidden := themeMenuHidden page |}.

Inductive ThemeEvent : Type :=
| ThemeButtonClick
| ThemeDocumentClick
| ThemeOptionClick (mode : string)       (* opt.dataset.mode *)
| SystemThemeChange (matches : bool).    (* prefersDark 'change' *)

Definition themeStep (ev : ThemeEvent) (t : Theme) : Theme :=
  match ev with
  | ThemeButtonClick =>
      {| currentMode := currentMode t; darkModeClass := darkModeClass t;
         prefersDarkMatches := prefersDarkMatches t;
         storedThemeMode := storedThemeMode t;
         themeMenuHidden := negb (themeMenuHidden t) |}
  | ThemeDocumentClick =>
      {| currentMode := currentMode t; darkModeClass := darkModeClass t;
         prefersDarkMatches := prefersDarkMatches t;
         storedThemeMode := storedThemeMode t;
         themeMenuHidden := true |}
  | ThemeOptionClick mode =>
      let t := applyTheme mode
                 {| currentMode := mode; darkModeClass := darkModeClass t;
                    prefersDarkMatches := prefersDarkMatches t;
                    storedThemeMode := Some mode;
                    themeMenuHidden := themeMenuHidden t |} in
      {| currentMode := currentMode t; darkModeClass := darkModeClass t;
         prefersDarkMatches := prefersDarkMatches t;
         storedThemeMode := storedThemeMode t;
         themeMenuHidden := true |}
  | SystemThemeChange matches =>
      let t := {| currentMode := currentMode t; darkModeClass := darkModeClass t;
                  prefersDarkMatches := matches;
                  storedThemeMode := storedThemeMode t;
                  themeMenuHidden := themeMenuHidden t |} in
      if String.eqb (currentMode t) "auto" then applyTheme "auto" t else t
  end.

Definition themeRun (evs : list ThemeEvent) (t : Theme) : Theme :=
  foldl (fun t ev => themeStep ev t) t evs.

(** ** Further vocabulary *)

(** [x] lies between [a] and [b], whichever is the larger. *)
Definition between (a b x : Q) : Prop :=
  (a <= x /\ x <= b) \/ (b <= x /\ x <= a).

Definition vbetween (a b p : Vector3) : Prop :=
  between (vx a) (vx b) (vx p)
  /\ between (vy a) (vy b) (vy p)
  /\ between (vz a) (vz b) (vz p).

(** The distance of the shown scale and opacity of an annotation from their
    targets. *)
Definition scaleResidual (a : AnnotationGroup) : Q :=
  Num.abs (vx (scale a) - targetScale a).

Definition opacityResidual (a : AnnotationGroup) : Q :=
  Num.abs (fillOpacity a - targetOpacity a).

(** [n] consecutive frames on one annotation. *)
Definition frames (n : nat) (a : AnnotationGroup) : AnnotationGroup :=
  Nat.iter n animateAnnotation a.

(** 0.9 to the power [n]. *)
Fixpoint decay (n : nat) : Q :=
  match n with
  | O => 1
  | S n => 0.9 * decay n
  end.

(** The marker is shown exactly when the dev overlay is. *)
Definition dotSynced (st : State) : Prop :=
  match movableDot st with
  | Some d => dotVisible d = devOverlayVisible st
  | None => True
  end.

(** The pose the viewer shows. *)
Definition pose (st : State) : option (Vector3 * Vector3) :=
  v ← viewer st; c ← camera v; k ← controls v; Some (position c, target k).

(** Whether the orbit controls respond to the pointer. *)
Definition orbitEnabled (st : State) : option bool :=
  v ← viewer st; c ← controls v; Some (enabled c).

(** * Properties *)

(** ** Numbers *)

Module NumFacts.

Lemma leb_spec a b : reflect (a <= b) (Num.leb a b).
Proof.
  unfold Num.leb. destruct (Qle_bool a b) eqn:E; constructor.
  - by apply Qle_bool_iff.
  - intros H. apply Qle_bool_iff in H. congruence.
Qed.

Lemma ltb_spec a b : reflect (a < b) (Num.ltb a b).
Proof.
  unfold Num.ltb. destruct (leb_spec b a) as [H|H]; unfold Num.leb in *.
  - destruct (Qle_bool b a) eqn:E; simpl; constructor; [lra|].
    apply Qle_bool_iff in H. congruence.
  - destruct (Qle_bool b a) eqn:E; simpl; constructor; [|lra].
    apply Qle_bool_iff in E. contradiction.
Qed.

End NumFacts.

Ltac num_cases :=
  repeat match goal with
  | |- context [Num.leb ?a ?b] => destruct (NumFacts.leb_spec a b)
  | |- context [Num.ltb ?a ?b] => destruct (NumFacts.ltb_spec a b)
  | H : context [Num.leb ?a ?b] |- _ => destruct (NumFacts.leb_spec a b)
  | H : context [Num.ltb ?a ?b] |- _ => destruct (NumFacts.ltb_spec a b)
  end.

(** ** Reachable states *)

Lemma reachable_run inputs st : reachable st -> reachable (run inputs st).
Proof.
  revert st. induction inputs as [|i inputs IH]; intros st H; [done|].
  simpl. apply IH. by constructor.
Qed.

Lemma sample_closeUp_reachable : reachable Sample.closeUp.
Proof.
  exact (reachable_run
           [SplatSettled true; AnnotationsSettled (Some [Sample.annoNear]);
            MenuButtonClick; RowClick 0 1000] _
           (reach_init Sample.stages true true initialState
              reach_start eq_refl)).
Qed.

(** ** The orbit controls' update *)

(** The square root of the number model is exact on squares. *)
Lemma sqrt_square (q : Q) : 0 <= q -> Num.sqrt (q * q) == q.
Proof.
  intros Hq.
  pose proof (Qred_correct q) as Hr.
  pose proof (gcd_Qred q) as Hg.
  destruct (Qred q) as [a b] eqn:E. simpl in Hg.
  assert (Ha : (0 <= a)%Z).
  { rewrite <- Hr in Hq. unfold Qle in Hq. simpl in Hq. lia. }
  assert (Hsq : Qred (q * q) = (a * a) # (b * b)).
  { rewrite (Qred_complete (q * q) ((a * a) # (b * b))).
    - apply Qcanon.Qred_identity. simpl. rewrite Pos2Z.inj_mul.
      apply Z.coprime_mul_l; apply Z.coprime_mul_r; exact Hg.
    - rewrite <- Hr. reflexivity. }
  unfold Num.sqrt. cbv zeta. rewrite Hsq.
  cbn [Qnum Qden].
  replace (a * a * Z.pos (b * b) * 2 ^ 128)%Z
    with ((a * Z.pos b * 2 ^ 64) * (a * Z.pos b * 2 ^ 64))%Z
    by (rewrite Pos2Z.inj_mul; change (2 ^ 128)%Z with (2 ^ 64 * 2 ^ 64)%Z;
        generalize (2 ^ 64)%Z; intros; lia).
  rewrite Z.sqrt_square
    by (apply Z.mul_nonneg_nonneg;
        [apply Z.mul_nonneg_nonneg; [exact Ha | done] | by vm_compute]).
  rewrite Qred_correct, <- Hr.
  unfold Qeq. cbn [Qnum Qden]. rewrite !Pos2Z.inj_mul.
  change (Z.pos (2 ^ 64)) with (2 ^ 64)%Z.
  generalize (2 ^ 64)%Z; intros; lia.
Qed.

Lemma within_restrictOffset ctl offset :
  withinLimits ctl offset = true -> restrictOffset ctl offset = None.
Proof.
  unfold withinLimits, restrictOffset, clampRadius. cbv zeta.
  intros H. apply andb_prop in H as [H Hpolar]. apply andb_prop in H as [Hlo Hhi].
  rewrite Hpolar.
  destruct (minDistance ctl) as [l|]; [|discriminate Hlo].
  destruct (maxDistance ctl) as [h|]; by rewrite ?Hhi, Hlo.
Qed.

Lemma outside_restrictOffset ctl offset :
  withinLimits ctl offset = false -> minDistance ctl <> Infinity ->
  is_Some (restrictOffset ctl offset).
Proof.
  unfold withinLimits, restrictOffset, clampRadius. cbv zeta.
  intros H Hlo. revert H.
  destruct (minDistance ctl) as [l|]; [|done].
  destruct (polarWithin _ _);
    destruct (maxDistance ctl) as [h|];
    try destruct (radiusAtMost _ (Finite h));
    destruct (radiusAtLeast _ _); simpl; try done; intros _; by eexists.
Qed.

Lemma controls_update_within v cam ctl :
  camera v = Some cam -> controls v = Some ctl ->
  withinLimits ctl (vsub (position cam) (target ctl)) = true ->
  controls_update v = v.
Proof.
  intros Hcam Hctl H. unfold controls_update.
  by rewrite Hcam, Hctl, (within_restrictOffset _ _ H).
Qed.

(** [update()] writes the camera position and nothing else. *)
Lemma controls_update_shape v :
  controls_update v = v
  \/ exists cam p,
       camera v = Some cam
       /\ controls_update v = set_camera (Some (set_position p cam)) v.
Proof.
  unfold controls_update.
  destruct (camera v) as [cam|]; [|by left].
  destruct (controls v) as [ctl|]; [|by left].
  destruct (restrictOffset _ _) as [o|]; [|by left].
  right. by eexists _, _.
Qed.

Lemma controls_update_controls v : controls (controls_update v) = controls v.
Proof. by destruct (controls_update_shape v) as [->|(? & ? & _ & ->)]. Qed.

(** [update()] does not tell apart two representations of the same
    rational pose. *)
Lemma lengthSq_veq a b : veq a b -> lengthSq a == lengthSq b.
Proof. intros (Hx & Hy & Hz). unfold lengthSq. by rewrite Hx, Hy, Hz. Qed.

Lemma sqrt_Qeq a b : a == b -> Num.sqrt a = Num.sqrt b.
Proof. intros H. unfold Num.sqrt. by rewrite (Qred_complete a b H). Qed.

Lemma polarWithin_veq limit a b :
  veq a b -> polarWithin limit a = polarWithin limit b.
Proof.
  intros (_ & Hy & _). unfold polarWithin, Num.leb.
  destruct limit; [by rewrite Hy | done].
Qed.

Lemma clampRadius_Qeq r2 r2' lo hi :
  r2 == r2' -> clampRadius r2 lo hi = clampRadius r2' lo hi.
Proof.
  intros H. unfold clampRadius.
  assert (E1 : radiusAtLeast r2 lo = radiusAtLeast r2' lo)
    by (unfold radiusAtLeast, Num.leb; destruct lo; by rewrite ?H).
  assert (E2 : radiusAtMost r2 hi = radiusAtMost r2' hi)
    by (unfold radiusAtMost, Num.leb; destruct hi; by rewrite ?H).
  by rewrite E1, E2.
Qed.

Lemma withinLimits_veq ctl a b :
  veq a b -> withinLimits ctl a = withinLimits ctl b.
Proof.
  intros H. unfold withinLimits. cbv zeta.
  rewrite (polarWithin_veq _ a b H). pose proof (lengthSq_veq a b H) as E.
  assert (E1 : radiusAtLeast (lengthSq a) (minDistance ctl)
               = radiusAtLeast (lengthSq b) (minDistance ctl))
    by (unfold radiusAtLeast, Num.leb; destruct (minDistance ctl); by rewrite ?E).
  assert (E2 : radiusAtMost (lengthSq a) (maxDistance ctl)
               = radiusAtMost (lengthSq b) (maxDistance ctl))
    by (unfold radiusAtMost, Num.leb; destruct (maxDistance ctl); by rewrite ?E).
  by rewrite E1, E2.
Qed.

Lemma restrictedDirection_veq limit a b :
  veq a b -> veq (restrictedDirection limit a) (restrictedDirection limit b).
Proof.
  intros H. unfold restrictedDirection.
  rewrite (polarWithin_veq _ a b H).
  assert (E1 : Qeq_bool (lengthSq a) 0 = Qeq_bool (lengthSq b) 0)
    by (by rewrite (lengthSq_veq a b H)).
  assert (E2 : Qeq_bool (vx a * vx a + vz a * vz a) 0
               = Qeq_bool (vx b * vx b + vz b * vz b) 0).
  { destruct H as (Hx & _ & Hz). by rewrite Hx, Hz. }
  rewrite E1, E2. destruct H as (Hx & Hy & Hz).
  repeat case_match; repeat split; simpl; done.
Qed.

Lemma multiplyScalar_veq k k' a b :
  k == k' -> veq a b -> veq (multiplyScalar k a) (multiplyScalar k' b).
Proof.
  intros Hk (Hx & Hy & Hz). unfold multiplyScalar.
  repeat split; simpl; by rewrite Hk, ?Hx, ?Hy, ?Hz.
Qed.

Lemma restrictOffset_veq ctl a b :
  veq a b ->
  match restrictOffset ctl a, restrictOffset ctl b with
  | Some o, Some o' => veq o o'
  | None, None => True
  | _, _ => False
  end.
Proof.
  intros H. unfold restrictOffset. cbv zeta.
  rewrite (clampRadius_Qeq _ _ _ _ (lengthSq_veq a b H)).
  rewrite (polarWithin_veq _ a b H).
  pose proof (restrictedDirection_veq (maxPolarAngle ctl) a b H) as Hd.
  pose proof (sqrt_Qeq _ _ (lengthSq_veq _ _ Hd)) as Hs.
  pose proof (sqrt_Qeq _ _ (lengthSq_veq a b H)) as Hr.
  destruct (clampRadius _ _ _) as [|[d|]]; [| |done].
  - destruct (polarWithin _ b); [done|].
    apply multiplyScalar_veq; [|done]. by rewrite Hs, Hr.
  - apply multiplyScalar_veq; [|done]. by rewrite Hs.
Qed.

Lemma vsub_veq a a' b b' : veq a a' -> veq b b' -> veq (vsub a b) (vsub a' b').
Proof.
  intros (Hx & Hy & Hz) (Hx' & Hy' & Hz'). unfold vsub.
  repeat split; simpl; by rewrite ?Hx, ?Hy, ?Hz, ?Hx', ?Hy', ?Hz'.
Qed.

Lemma vadd_veq a a' b b' : veq a a' -> veq b b' -> veq (vadd a b) (vadd a' b').
Proof.
  intros (Hx & Hy & Hz) (Hx' & Hy' & Hz'). unfold vadd.
  repeat split; simpl; by rewrite ?Hx, ?Hy, ?Hz, ?Hx', ?Hy', ?Hz'.
Qed.

(** ** Camera tween *)

Section CameraTween.

Lemma min_one_eq_clamp (x : Q) :
  MathUtils.smoothstep (Num.min 1 x) 0 1
  = MathUtils.smoothstep (MathUtils.clamp x 0 1) 0 1.
Proof.
  unfold MathUtils.clamp, Num.min, Qmax, Qmin, GenericMinMax.gmax,
    GenericMinMax.gmin.
  destruct (NumFacts.ltb_spec x 1) as [Hlt|Hge].
  - destruct (1 ?= x) eqn:C1.
    + apply Qeq_alt in C1. lra.
    + apply Qlt_alt in C1. lra.
    + destruct (0 ?= x) eqn:C0; try reflexivity.
      * apply Qeq_alt in C0. unfold MathUtils.smoothstep.
        num_cases; try reflexivity; lra.
      * apply Qgt_alt in C0. unfold MathUtils.smoothstep.
        num_cases; try reflexivity; lra.
  - destruct (1 ?= x) eqn:C1; try reflexivity.
    apply Qgt_alt in C1. lra.
Qed.

Lemma min_one_reaches_one (x : Q) :
  Num.leb 1 (Num.min 1 x) = Num.leb 1 (MathUtils.clamp x 0 1).
Proof.
  unfold MathUtils.clamp, Num.min, Qmax, Qmin, GenericMinMax.gmax,
    GenericMinMax.gmin.
  destruct (NumFacts.ltb_spec x 1) as [Hlt|Hge].
  - destruct (1 ?= x) eqn:C1.
    + apply Qeq_alt in C1. lra.
    + apply Qlt_alt in C1. lra.
    + destruct (0 ?= x) eqn:C0; try reflexivity.
      * num_cases; try reflexivity; lra.
      * num_cases; try reflexivity; lra.
  - destruct (1 ?= x) eqn:C1; try reflexivity.
    apply Qgt_alt in C1. lra.
Qed.

Lemma clamp_reaches_one (x : Q) : 1 <= x -> MathUtils.clamp x 0 1 = 1.
Proof.
  intros Hx.
  unfold MathUtils.clamp, Qmax, Qmin, GenericMinMax.gmax, GenericMinMax.gmin.
  destruct (1 ?= x) eqn:C1; try reflexivity.
  apply Qgt_alt in C1. lra.
Qed.

Lemma clamp_below_one (x : Q) : x < 1 -> MathUtils.clamp x 0 1 < 1.
Proof.
  intros Hx.
  unfold MathUtils.clamp, Qmax, Qmin, GenericMinMax.gmax, GenericMinMax.gmin.
  destruct (1 ?= x) eqn:C1.
  - apply Qeq_alt in C1. lra.
  - apply Qlt_alt in C1. lra.
  - destruct (0 ?= x) eqn:C0; lra.
Qed.

Lemma lerpVectors_end (a b : Vector3) : veq (lerpVectors a b 1) b.
Proof. unfold veq, lerpVectors; simpl. repeat split; ring. Qed.

Lemma lerpVectors_start (a b : Vector3) : veq (lerpVectors a b 0) a.
Proof. unfold veq, lerpVectors; simpl. repeat split; ring. Qed.

Lemma elapsed_fraction (now start duration : Q) :
  0 < duration ->
  (start + duration <= now <-> 1 <= (now - start) / duration).
Proof.
  intros Hd. split; intros H.
  - apply Qle_shift_div_l; [done | lra].
  - assert (E : now - start == (now - start) / duration * duration)
      by (field; lra).
    assert (1 * duration <= (now - start) / duration * duration)
      by (apply Qmult_le_compat_r; lra).
    lra.
Qed.

Lemma not_started_fraction (now start duration : Q) :
  0 < duration -> now <= start -> (now - start) / duration <= 0.
Proof.
  intros Hd Hn.
  assert (0 <= (start - now) / duration)
    by (apply Qle_shift_div_l; [done | lra]).
  assert ((now - start) / duration == - ((start - now) / duration))
    by (field; lra).
  lra.
Qed.

End CameraTween.

(** C1, as stated, fails: stage 0 of the sample keeps the camera between 5
    and 20 from the orbit target, and the camera pose of the annotation of
    [Sample.closeUp] is 2 away from its look-at point.  When the tween has
    run its duration the orbit target is the requested look-at, the tween is
    inactive, and the camera rests at (1, 0, 5), not at the requested
    (1, 0, 2). *)
Lemma tween_end_pose_clamped : ~ tween_reaches_end_pose.
Proof.
  intros Hclaim.
  destruct (Hclaim Sample.closeUp 2500 sample_closeUp_reachable)
    as (p & l & Hp & _ & Hpos & _).
  - by eexists.
  - by eexists.
  - reflexivity.
  - reflexivity.
  - vm_compute. discriminate.
  - vm_compute in Hp. injection Hp as <-.
    destruct Hpos as (_ & _ & Hz). vm_compute in Hz. discriminate.
Qed.

Example tween_on_close_up :
  let st' := stepCameraMove 2500 Sample.closeUp in
  camMoveActive (tween st') = false
  /\ (exists p, cameraPosition st' = Some p /\ veq p (Vec3 1 0 5))
  /\ (exists l, orbitTarget st' = Some l /\ veq l (Vec3 1 0 0)).
Proof.
  split; [reflexivity|]. split; eexists; (split; [reflexivity|]);
    vm_compute; repeat split; congruence.
Qed.

(** C1, amended.  While a tween is active (and the viewer has a camera and
    controls), one per-frame step computes the elapsed fraction [t] clamped
    to [0,1], eases it with smoothstep, interpolates camera position and
    orbit target by that same eased parameter between the start pose and the
    end pose, hands them to the orbit controls' [update()], and clears
    [camMoveActive] exactly when [t] has reached 1.  The orbit target is
    always the interpolated one.  The camera position is the interpolated
    one whenever the interpolated pose satisfies the distance bounds and the
    polar limit of the controls; otherwise (the minimum distance being a
    number) it is the target plus the offset as the controls restrict it.
    Once the duration has elapsed the interpolated pose is the requested end
    pose, which the camera therefore takes whenever the end pose satisfies
    the limits, and at the start time it is the start pose.  The start pose
    of a tween is the pose captured by [moveCameraTo], its end pose the
    requested one. *)
Theorem camera_tween_step (now : Q) (st : State)
    (v : Viewer) (cam : Camera) (ctl : OrbitControls) :
  viewer st = Some v -> camera v = Some cam -> controls v = Some ctl ->
  camMoveActive (tween st) = true ->
  0 < camMoveDuration (tween st) ->
  let tw := tween st in
  let st' := stepCameraMove now st in
  let offset := vsub (tweenPosition now tw) (tweenTarget now tw) in
  (orbitTarget st' = Some (tweenTarget now tw)
   /\ camMoveActive (tween st') = negb (Num.leb 1 (tweenFraction now tw))
   /\ (withinLimits ctl offset = true ->
       cameraPosition st' = Some (tweenPosition now tw))
   /\ (withinLimits ctl offset = false -> minDistance ctl <> Infinity ->
       exists restricted,
         restrictOffset ctl offset = Some restricted
         /\ cameraPosition st'
            = Some (vadd (tweenTarget now tw) restricted)))
  /\ (camMoveStart tw + camMoveDuration tw <= now ->
      tweenFraction now tw = 1
      /\ camMoveActive (tween st') = false
      /\ veq (tweenPosition now tw) (camTargetPos tw)
      /\ veq (tweenTarget now tw) (camTargetTarget tw)
      /\ (withinLimits ctl (vsub (camTargetPos tw) (camTargetTarget tw))
          = true ->
          cameraPosition st' = Some (tweenPosition now tw)))
  /\ (now < camMoveStart tw + camMoveDuration tw ->
      camMoveActive (tween st') = true)
  /\ (now <= camMoveStart tw ->
      veq (tweenPosition now tw) (camStartPos tw)
      /\ veq (tweenTarget now tw) (camStartTarget tw))
  /\ (forall positionVec lookAtVec duration t0,
        tween (moveCameraTo positionVec lookAtVec duration t0 st)
        = {| camMoveActive := true; camMoveStart := t0;
             camMoveDuration := duration;
             camStartPos := position cam; camStartTarget := target ctl;
             camTargetPos := positionVec; camTargetTarget := lookAtVec |}).
Proof.
  intros Hv Hcam Hctl Hact Hdur tw st' offset.
  assert (Hstep :
    orbitTarget st' = Some (tweenTarget now tw)
    /\ camMoveActive (tween st') = negb (Num.leb 1 (tweenFraction now tw))
    /\ (withinLimits ctl offset = true ->
        cameraPosition st' = Some (tweenPosition now tw))
    /\ (withinLimits ctl offset = false -> minDistance ctl <> Infinity ->
        exists restricted,
          restrictOffset ctl offset = Some restricted
          /\ cameraPosition st'
             = Some (vadd (tweenTarget now tw) restricted))).
  { subst st' offset. unfold stepCameraMove. rewrite Hact, Hv, Hcam, Hctl.
    fold tw. cbv zeta.
    unfold tweenPosition, tweenTarget, tweenFraction.
    rewrite <- min_one_eq_clamp, <- min_one_reaches_one.
    set (e := MathUtils.smoothstep _ 0 1).
    set (w := set_controls _ _).
    assert (Hw : forall s, orbitTarget (set_viewer (Some (controls_update w)) s)
                 = Some (lerpVectors (camStartTarget tw) (camTargetTarget tw) e)).
    { intros s. unfold orbitTarget. simpl.
      by rewrite controls_update_controls. }
    assert (Hin : forall s,
      withinLimits ctl
        (vsub (lerpVectors (camStartPos tw) (camTargetPos tw) e)
              (lerpVectors (camStartTarget tw) (camTargetTarget tw) e)) = true ->
      cameraPosition (set_viewer (Some (controls_update w)) s)
      = Some (lerpVectors (camStartPos tw) (camTargetPos tw) e)).
    { intros s H. unfold cameraPosition. simpl.
      by rewrite (controls_update_within w _ _ eq_refl eq_refl H). }
    assert (Hout : forall s restricted,
      restrictOffset ctl
        (vsub (lerpVectors (camStartPos tw) (camTargetPos tw) e)
              (lerpVectors (camStartTarget tw) (camTargetTarget tw) e))
      = Some restricted ->
      cameraPosition (set_viewer (Some (controls_update w)) s)
      = Some (vadd (lerpVectors (camStartTarget tw) (camTargetTarget tw) e)
                   restricted)).
    { intros s r H. unfold cameraPosition, controls_update. simpl.
      change (restrictOffset (set_target _ ctl)) with (restrictOffset ctl).
      by rewrite H. }
    assert (Hout' : forall s,
      withinLimits ctl
        (vsub (lerpVectors (camStartPos tw) (camTargetPos tw) e)
              (lerpVectors (camStartTarget tw) (camTargetTarget tw) e)) = false ->
      minDistance ctl <> Infinity ->
      exists restricted,
        restrictOffset ctl
          (vsub (lerpVectors (camStartPos tw) (camTargetPos tw) e)
                (lerpVectors (camStartTarget tw) (camTargetTarget tw) e))
        = Some restricted
        /\ cameraPosition (set_viewer (Some (controls_update w)) s)
           = Some (vadd (lerpVectors (camStartTarget tw) (camTargetTarget tw) e)
                        restricted)).
    { intros s H Hlo.
      destruct (outside_restrictOffset _ _ H Hlo) as [r Hr].
      exists r. split; [done | by apply Hout]. }
    destruct (Num.leb 1 _); simpl.
    - split; [apply (Hw (set_tween _ st))|]. split; [done|].
      split; [apply (Hin (set_tween _ st)) | apply (Hout' (set_tween _ st))].
    - split; [apply Hw|]. split; [by rewrite Hact|].
      split; [apply Hin | apply Hout']. }
  split; [done|]. destruct Hstep as (Ht & Ha & Hin & _).
  split; [|split; [|split]].
  - intros Hel. apply elapsed_fraction in Hel; [|done].
    assert (Hf : tweenFraction now tw = 1)
      by (unfold tweenFraction; by apply clamp_reaches_one).
    assert (Hpos : veq (tweenPosition now tw) (camTargetPos tw)).
    { unfold tweenPosition. rewrite Hf.
      change (MathUtils.smoothstep 1 0 1) with 1. apply lerpVectors_end. }
    assert (Htgt : veq (tweenTarget now tw) (camTargetTarget tw)).
    { unfold tweenTarget. rewrite Hf.
      change (MathUtils.smoothstep 1 0 1) with 1. apply lerpVectors_end. }
    split; [done|]. split; [by rewrite Ha, Hf|].
    split; [done|]. split; [done|].
    intros Hend. apply Hin. subst offset.
    by rewrite (withinLimits_veq ctl _ _ (vsub_veq _ _ _ _ Hpos Htgt)).
  - intros Hel. rewrite Ha.
    assert (Hr : (now - camMoveStart tw) / camMoveDuration tw < 1).
    { destruct (Qlt_le_dec ((now - camMoveStart tw) / camMoveDuration tw) 1)
        as [|Hge]; [done|].
      apply elapsed_fraction in Hge; [lra|done]. }
    apply clamp_below_one in Hr. fold (tweenFraction now tw) in Hr.
    destruct (NumFacts.leb_spec 1 (tweenFraction now tw)); [lra|done].
  - intros Hel.
    assert (Hr : (now - camMoveStart tw) / camMoveDuration tw <= 0)
      by (by apply not_started_fraction).
    assert (He : MathUtils.smoothstep (tweenFraction now tw) 0 1 = 0).
    { unfold tweenFraction, MathUtils.clamp, Qmax, Qmin,
        GenericMinMax.gmax, GenericMinMax.gmin.
      destruct (1 ?= _) eqn:C1.
      - apply Qeq_alt in C1. lra.
      - apply Qlt_alt in C1. lra.
      - destruct (0 ?= _) eqn:C0; try reflexivity.
        apply Qlt_alt in C0. lra. }
    unfold tweenPosition, tweenTarget. rewrite He.
    split; apply lerpVectors_start.
  - intros. unfold moveCameraTo. by rewrite Hv, Hcam, Hctl.
Qed.

Lemma camera_tween_step_witness :
  let st := Sample.flying in
  camMoveActive (tween (stepCameraMove 2500 st)) = false
  /\ cameraPosition (stepCameraMove 2500 st) = Some (tweenPosition 2500 (tween st))
  /\ orbitTarget (stepCameraMove 2500 st) = Some (tweenTarget 2500 (tween st))
  /\ veq (tweenPosition 2500 (tween st)) (Vec3 0 0 5)
  /\ veq (tweenTarget 2500 (tween st)) (Vec3 1 0 0).
Proof.
  intros st.
  edestruct (camera_tween_step 2500 st) as ((Ht & _ & Hp & _) & Hend & _);
    [reflexivity | reflexivity | reflexivity | reflexivity | reflexivity |].
  destruct Hend as (_ & Ha & Hpos & Htgt & _).
  - vm_compute. discriminate.
  - split; [exact Ha|]. split; [apply Hp; reflexivity|].
    split; [exact Ht|]. split; [exact Hpos | exact Htgt].
Defined.

(** ** Pan lock *)

(** C2. With the pan lock enabled (and a viewer with camera and controls):
    when the orbit target's y is greater than 0, one pass of the pan lock
    sets the target's y to 0 and lowers the camera's y by the target's
    original y, changes no other coordinate, and so leaves the
    camera-to-target offset unchanged; when the target's y is not greater
    than 0, the pass changes nothing. *)
Theorem pan_lock_pass (st : State)
    (v : Viewer) (cam : Camera) (ctl : OrbitControls) :
  isPanLockActive st = true ->
  viewer st = Some v -> camera v = Some cam -> controls v = Some ctl ->
  let st' := stepPanLock st in
  (0 < vy (target ctl) ->
     exists p' t',
       cameraPosition st' = Some p' /\ orbitTarget st' = Some t'
       /\ vy t' == 0
       /\ vy p' == vy (position cam) - vy (target ctl)
       /\ vx t' = vx (target ctl) /\ vz t' = vz (target ctl)
       /\ vx p' = vx (position cam) /\ vz p' = vz (position cam)
       /\ veq (vsub p' t') (vsub (position cam) (target ctl)))
  /\ (~ 0 < vy (target ctl) -> st' = st).
Proof.
  intros Hpan Hv Hcam Hctl st'. subst st'.
  unfold stepPanLock. rewrite Hpan, Hv, Hctl, Hcam.
  destruct (NumFacts.ltb_spec 0 (vy (target ctl))) as [Hy|Hy]; split;
    try done.
  intros _.
  exists (set_y (vy (position cam) - vy (target ctl)) (position cam)),
         (set_y (vy (target ctl) - vy (target ctl)) (target ctl)).
  unfold cameraPosition, orbitTarget, veq, vsub; simpl.
  repeat split; try reflexivity; ring.
Qed.

Lemma pan_lock_pass_witness :
  let st := Sample.underGround in
  exists p' t',
    cameraPosition (stepPanLock st) = Some p'
    /\ orbitTarget (stepPanLock st) = Some t'
    /\ vy t' == 0 /\ vy p' == 2 - 2.
Proof.
  intros st.
  edestruct (pan_lock_pass st) as (Hclamp & _);
    [reflexivity | reflexivity | reflexivity | reflexivity |].
  destruct Hclamp as (p' & t' & Hp & Ht & Hty & Hpy & _).
  - vm_compute. reflexivity.
  - exists p', t'. split; [exact Hp|]. split; [exact Ht|].
    split; [exact Hty|]. apply (Qeq_trans _ _ _ Hpy). vm_compute. reflexivity.
Defined.

(** ** Invariants of the annotation array *)

(** Unfolds the assignments under the projections of [State]. *)
Ltac state_simpl :=
  cbn [viewer currentAnnotations hoveredAnnotation constructionStages
       isLoading pending isPanLockActive devOverlayVisible tween movableDot
       isDraggingDot zoomLockEnabled zoomMinDistance zoomMaxDistance
       annotationsMenu annotationsList currentAnnotationsData
       selectedAnnotationIndex
       set_viewer set_currentAnnotations set_hoveredAnnotation
       set_constructionStages set_loading set_isPanLockActive
       set_devOverlayVisible set_tween set_movableDot set_isDraggingDot
       set_zoomLock set_annotationsMenu set_annotationsList
       set_currentAnnotationsData set_selectedAnnotationIndex
       final after stopped pass claim andThen] in *.

Lemma targets_animateAnnotation a : targets (animateAnnotation a) = targets a.
Proof. unfold animateAnnotation. by repeat case_match. Qed.

Lemma targets_snap s o a :
  targets (set_fillOpacity o (set_scale s a)) = targets a.
Proof. done. Qed.

Section AnnotationInvariant.

(** A property of the annotation array that the elementary writes of the
    source maintain. *)
Variable P : list AnnotationGroup -> Prop.
Hypothesis P_nil : P [].
Hypothesis P_new : forall data, P (newGroup <$> data).
Hypothesis P_keep_one : forall f i l,
  (forall a, targets (f a) = targets a) -> P l -> P (alter f i l).
Hypothesis P_keep_all : forall f l,
  (forall a, targets (f a) = targets a) -> P l -> P (f <$> l).
Hypothesis P_idle_all : forall l, P l -> P (set_targets 1.0 0.01 <$> l).
Hypothesis P_idle_one : forall i l, P l -> P (alter (set_targets 1.0 0.01) i l).
Hypothesis P_hover_one : forall i l, P l -> P (alter (set_targets 1.5 0.8) i l).
Hypothesis P_select : forall i l,
  P l -> P (alter (set_targets 2.0 1.0) i (set_targets 1.0 0.01 <$> l)).

Local Hint Resolve P_nil P_new P_idle_all P_idle_one P_hover_one P_select : core.

Let I (st : State) : Prop := P (currentAnnotations st).

Ltac inv_crush :=
  repeat first
    [ progress state_simpl
    | case_match
    | done ];
  eauto.

Lemma inv_moveCameraTo p l d now st :
  currentAnnotations (moveCameraTo p l d now st) = currentAnnotations st.
Proof. unfold moveCameraTo. by repeat case_match. Qed.

Lemma inv_setControlsEnabled b st :
  currentAnnotations (setControlsEnabled b st) = currentAnnotations st.
Proof. unfold setControlsEnabled. by repeat case_match. Qed.

Lemma inv_animate now st : I st -> I (animate now st).
Proof.
  unfold I, animate, stepAnnotations, stepPanLock, stepCameraMove,
    controls_update.
  intros H. inv_crush;
    try (apply P_keep_all; [apply targets_animateAnnotation | done]).
Qed.

Lemma inv_onAnnotationHover ev st : I st -> I (onAnnotationHover ev st).
Proof.
  unfold I, onAnnotationHover, write_hovered, write_targets.
  intros H. inv_crush;
    try (apply P_keep_one; [apply targets_snap | done]).
Qed.

Lemma inv_populateAnnotationsMenu d st :
  currentAnnotations (populateAnnotationsMenu d st) = currentAnnotations st.
Proof. unfold populateAnnotationsMenu. by repeat case_match. Qed.

Lemma inv_toggleAnnotationsMenu show st :
  I st -> I (final (toggleAnnotationsMenu show st)).
Proof.
  unfold I, toggleAnnotationsMenu, resetAllTargets. intros H.
  inv_crush; rewrite ?inv_populateAnnotationsMenu; inv_crush.
Qed.

Lemma inv_highlightAnnotation index showModal now st :
  I st -> I (final (highlightAnnotation index showModal now st)).
Proof.
  unfold I, highlightAnnotation, resetAllTargets, write_targets. intros H.
  inv_crush; rewrite ?inv_moveCameraTo; inv_crush.
Qed.

Lemma inv_onRowMouseEnter i st : I st -> I (onRowMouseEnter i st).
Proof. unfold I, onRowMouseEnter, write_targets. intros H. inv_crush. Qed.

Lemma inv_onRowMouseLeave i st : I st -> I (onRowMouseLeave i st).
Proof. unfold I, onRowMouseLeave, write_targets. intros H. inv_crush. Qed.

Lemma inv_onRowClick rows i now st :
  I st -> I (final (onRowClick rows i now st)).
Proof.
  intros H. unfold onRowClick.
  pose proof (inv_highlightAnnotation (Z.of_nat i) false now st H) as Hh.
  destruct (highlightAnnotation _ _ _ _); simpl in *; [|done].
  unfold I in *. inv_crush; rewrite ?inv_moveCameraTo; inv_crush.
Qed.

Lemma inv_pointerDown ev now st : I st -> I (pointerDown ev now st).
Proof.
  intros H.
  assert (Ha : I (after (onAnnotationPointerDown ev now st))).
  { unfold onAnnotationPointerDown. repeat case_match; try done.
    all: match goal with
         | E : toggleAnnotationsMenu true ?s >>> ?k = _ |- _ =>
             let Ht := fresh in
             assert (Ht : I (final (toggleAnnotationsMenu true s)))
               by (apply inv_toggleAnnotationsMenu; unfold I;
                   by rewrite inv_setControlsEnabled);
             destruct (toggleAnnotationsMenu true s) as [s1|s1];
             simpl in E, Ht
         end.
    all: try (match goal with
         | E : highlightAnnotation ?i ?m ?n ?s = _, Ht : I ?s |- _ =>
             pose proof (inv_highlightAnnotation i m n s Ht) as Hh;
             rewrite E in Hh
         end).
    all: simpl in *; try done; congruence. }
  unfold pointerDown. case_match; [done|].
  unfold onDotPointerDown. unfold I in *.
  inv_crush; rewrite ?inv_setControlsEnabled; inv_crush.
Qed.

Lemma inv_loadStage index st : I st -> I (loadStage index st).
Proof.
  unfold I, loadStage, loadStage_fail. intros H. inv_crush.
Qed.

Lemma inv_loadStage_splatSettled ok st :
  I st -> I (loadStage_splatSettled ok st).
Proof.
  unfold I, loadStage_splatSettled, loadStage_fail, loadStage_finish,
    clearAnnotations, createMovableDot.
  intros H. inv_crush.
Qed.

Lemma inv_loadStage_annotationsSettled r st :
  I st -> I (loadStage_annotationsSettled r st).
Proof.
  unfold I, loadStage_annotationsSettled, loadStage_finish, createMovableDot.
  intros H. inv_crush; rewrite ?inv_populateAnnotationsMenu; inv_crush.
Qed.

Lemma inv_step i st : I st -> I (step i st).
Proof.
  intros H. destruct i; simpl.
  - by apply inv_animate.
  - unfold pointerMove. case_match; [apply inv_onAnnotationHover|];
      unfold onDotPointerMove, I in *; inv_crush.
  - by apply inv_pointerDown.
  - unfold pointerUp, I. state_simpl. by rewrite inv_setControlsEnabled.
  - case_match; [by apply inv_toggleAnnotationsMenu | done].
  - case_match; [by apply inv_toggleAnnotationsMenu | done].
  - case_match; [by apply inv_onRowMouseEnter | done].
  - case_match; [by apply inv_onRowMouseLeave | done].
  - case_match; [by apply inv_onRowClick | done].
  - unfold setZoomLock, I. inv_crush.
  - unfold clearZoomLock, I. inv_crush.
  - unfold onDevButtonClick, I. inv_crush.
  - unfold updateDotPosition, I. inv_crush.
  - by case_match.
  - by apply inv_loadStage.
  - by apply inv_loadStage_splatSettled.
  - by apply inv_loadStage_annotationsSettled.
Qed.

Lemma inv_reachable st : reachable st -> I st.
Proof.
  induction 1 as [|stages menuEl listEl st _ IH _|i st _ IH].
  - apply P_nil.
  - unfold init. apply inv_loadStage. exact IH.
  - by apply inv_step.
Qed.

End AnnotationInvariant.

(** *** The three tiers *)

Lemma allTiers_nil : allTiers [].
Proof. constructor. Qed.

Lemma allTiers_new data : allTiers (newGroup <$> data).
Proof.
  unfold allTiers. rewrite Forall_fmap. apply Forall_true.
  intros d. by left.
Qed.

Lemma allTiers_keep_one f i l :
  (forall a, targets (f a) = targets a) -> allTiers l -> allTiers (alter f i l).
Proof.
  intros Hf Hl. apply Forall_alter; [done|].
  intros a _ Ha. by rewrite Hf.
Qed.

Lemma allTiers_keep_all f l :
  (forall a, targets (f a) = targets a) -> allTiers l -> allTiers (f <$> l).
Proof.
  intros Hf Hl. unfold allTiers. rewrite Forall_fmap.
  eapply Forall_impl; [exact Hl|]. intros a Ha. simpl. by rewrite Hf.
Qed.

Lemma allTiers_write_all s o l :
  isTier (s, o) -> allTiers (set_targets s o <$> l).
Proof.
  intros Ht. unfold allTiers. rewrite Forall_fmap. by apply Forall_true.
Qed.

Lemma allTiers_write_one s o i l :
  isTier (s, o) -> allTiers l -> allTiers (alter (set_targets s o) i l).
Proof. intros Ht Hl. apply Forall_alter; [done|]. by intros. Qed.

Lemma idle_isTier : isTier (1.0, 0.01).
Proof. by left. Qed.

Lemma hovered_isTier : isTier (1.5, 0.8).
Proof. right; by left. Qed.

Lemma selected_isTier : isTier (2.0, 1.0).
Proof. right; by right. Qed.

Lemma allTiers_reachable st : reachable st -> allTiers (currentAnnotations st).
Proof.
  apply (inv_reachable allTiers).
  - apply allTiers_nil.
  - apply allTiers_new.
  - apply allTiers_keep_one.
  - apply allTiers_keep_all.
  - intros l _. apply allTiers_write_all, idle_isTier.
  - intros i l. apply allTiers_write_one, idle_isTier.
  - intros i l. apply allTiers_write_one, hovered_isTier.
  - intros i l _. apply allTiers_write_one; [apply selected_isTier|].
    apply allTiers_write_all, idle_isTier.
Qed.

(** C3. In every state the page can reach, the targets of every annotation
    of the current stage are one of the three tiers: (1.0, 0.01) idle,
    (1.5, 0.8) hovered or (2.0, 1.0) selected.  Every operation of the page
    (creation on stage load, pointer hover entry and exit, selection, menu
    row hover, menu close, the per-frame step) is an input of the transition
    system, so no operation writes any other target value. *)
Theorem targets_always_tiers (st : State) :
  reachable st ->
  forall i a, currentAnnotations st !! i = Some a ->
    targets a = (1.0, 0.01) \/ targets a = (1.5, 0.8) \/ targets a = (2.0, 1.0).
Proof.
  intros Hr i a Hi.
  pose proof (allTiers_reachable st Hr) as Hall.
  unfold allTiers in Hall. rewrite Forall_lookup in Hall.
  exact (Hall i a Hi).
Qed.

Lemma sample_loaded_reachable : reachable Sample.loaded.
Proof.
  exact (reachable_run
           [SplatSettled true;
            AnnotationsSettled (Some [Sample.anno0; Sample.anno1])] _
           (reach_init Sample.stages true true initialState
              reach_start eq_refl)).
Qed.

Lemma targets_always_tiers_witness :
  let st := step (RowMouseEnter 1)
              (step (RowClick 0 1000) Sample.loaded) in
  targetsAt 0 st = Some (2.0, 1.0) /\ targetsAt 1 st = Some (1.5, 0.8)
  /\ forall i a, currentAnnotations st !! i = Some a ->
       targets a = (1.0, 0.01) \/ targets a = (1.5, 0.8) \/ targets a = (2.0, 1.0).
Proof.
  intros st. split; [reflexivity|]. split; [reflexivity|].
  apply (targets_always_tiers st).
  apply reach_step, reach_step.
  exact (reachable_run
           [SplatSettled true;
            AnnotationsSettled (Some [Sample.anno0; Sample.anno1])] _
           (reach_init Sample.stages true true initialState
              reach_start eq_refl)).
Defined.

(** *** Selection *)

Lemma at_index_nat {A : Type} (l : list A) (i : nat) :
  at_index l (Z.of_nat i) = l !! i.
Proof.
  unfold at_index. destruct (Z.ltb_spec (Z.of_nat i) 0); [lia|].
  by rewrite Nat2Z.id.
Qed.

Lemma atMostOne_nil : atMostOneSelected [].
Proof. intros i j a b Hi. by rewrite lookup_nil in Hi. Qed.

Lemma atMostOne_none l :
  (forall i a, l !! i = Some a -> targets a <> selectedTier) ->
  atMostOneSelected l.
Proof. intros Hn i j a b Hi _ Ha. by destruct (Hn i a Hi). Qed.

Lemma atMostOne_new data : atMostOneSelected (newGroup <$> data).
Proof.
  apply atMostOne_none. intros i a Hi.
  rewrite list_lookup_fmap in Hi.
  destruct (data !! i); simplify_eq/=. discriminate.
Qed.

Lemma lookup_alter_keeps_targets f k (l : list AnnotationGroup) i a :
  (forall a, targets (f a) = targets a) ->
  alter f k l !! i = Some a ->
  exists a0, l !! i = Some a0 /\ targets a0 = targets a.
Proof.
  intros Hf Hi. destruct (decide (k = i)) as [->|Hne].
  - rewrite list_lookup_alter_eq in Hi.
    destruct (l !! i) as [a0|]; simplify_eq/=. eauto.
  - rewrite list_lookup_alter_ne in Hi by done. eauto.
Qed.

Lemma atMostOne_keep_one f k l :
  (forall a, targets (f a) = targets a) ->
  atMostOneSelected l -> atMostOneSelected (alter f k l).
Proof.
  intros Hf Hl i j a b Hi Hj Ha Hb.
  apply (lookup_alter_keeps_targets f k l i a Hf) in Hi as (a0 & Hi & Ea).
  apply (lookup_alter_keeps_targets f k l j b Hf) in Hj as (b0 & Hj & Eb).
  apply (Hl i j a0 b0); congruence.
Qed.

Lemma atMostOne_keep_all f l :
  (forall a, targets (f a) = targets a) ->
  atMostOneSelected l -> atMostOneSelected (f <$> l).
Proof.
  intros Hf Hl i j a b Hi Hj Ha Hb.
  rewrite list_lookup_fmap in Hi, Hj.
  destruct (l !! i) as [a0|] eqn:Ei, (l !! j) as [b0|] eqn:Ej; simplify_eq/=.
  apply (Hl i j a0 b0); try done; by rewrite <- Hf.
Qed.

Lemma atMostOne_write_all s o l :
  (s, o) <> selectedTier -> atMostOneSelected (set_targets s o <$> l).
Proof.
  intros Hso. apply atMostOne_none. intros i a Hi.
  rewrite list_lookup_fmap in Hi. destruct (l !! i); by simplify_eq/=.
Qed.

Lemma atMostOne_write_one s o k l :
  (s, o) <> selectedTier ->
  atMostOneSelected l -> atMostOneSelected (alter (set_targets s o) k l).
Proof.
  intros Hso Hl i j a b Hi Hj Ha Hb.
  assert (Hik : k <> i).
  { intros ->. rewrite list_lookup_alter_eq in Hi.
    destruct (l !! i); by simplify_eq/=. }
  assert (Hjk : k <> j).
  { intros ->. rewrite list_lookup_alter_eq in Hj.
    destruct (l !! j); by simplify_eq/=. }
  rewrite list_lookup_alter_ne in Hi, Hj by done.
  by apply (Hl i j a b).
Qed.

(** The array [highlightAnnotation] leaves behind: everything idle, then the
    chosen group selected. *)
Lemma lookup_selected k (l : list AnnotationGroup) i a :
  alter (set_targets 2.0 1.0) k (set_targets 1.0 0.01 <$> l) !! i = Some a ->
  targets a = if decide (i = k) then selectedTier else idleTier.
Proof.
  intros Hi. case_decide as Hik.
  - subst i. rewrite list_lookup_alter_eq, list_lookup_fmap in Hi.
    destruct (l !! k); by simplify_eq/=.
  - rewrite list_lookup_alter_ne, list_lookup_fmap in Hi by done.
    destruct (l !! i); by simplify_eq/=.
Qed.

Lemma atMostOne_select k l :
  atMostOneSelected (alter (set_targets 2.0 1.0) k (set_targets 1.0 0.01 <$> l)).
Proof.
  intros i j a b Hi Hj Ha Hb.
  apply lookup_selected in Hi, Hj.
  unfold idleTier, selectedTier in *.
  repeat case_decide; simplify_eq/=; try done; congruence.
Qed.

Lemma atMostOne_reachable st :
  reachable st -> atMostOneSelected (currentAnnotations st).
Proof.
  apply (inv_reachable atMostOneSelected).
  - apply atMostOne_nil.
  - apply atMostOne_new.
  - apply atMostOne_keep_one.
  - apply atMostOne_keep_all.
  - intros l _. by apply atMostOne_write_all.
  - intros i l. by apply atMostOne_write_one.
  - intros i l. by apply atMostOne_write_one.
  - intros i l _. apply atMostOne_select.
Qed.

(** What [highlightAnnotation] does for an index that has an annotation. *)
Lemma highlight_in_range (A : nat) (now : Q) (st : State) :
  is_Some (annotationsList st) ->
  (A < length (currentAnnotations st))%nat ->
  exists st',
    highlightAnnotation (Z.of_nat A) false now st = Returned st'
    /\ currentAnnotations st'
       = alter (set_targets 2.0 1.0) A
           (set_targets 1.0 0.01 <$> currentAnnotations st)
    /\ selectedAnnotationIndex st' = Z.of_nat A
    /\ annotationsList st' = annotationsList st.
Proof.
  intros [rows Hrows] HA.
  unfold highlightAnnotation, resetAllTargets, write_targets.
  state_simpl. rewrite Hrows, !at_index_nat, Nat2Z.id.
  rewrite list_lookup_fmap.
  destruct (lookup_lt_is_Some_2 _ _ HA) as [a Ha]. rewrite Ha. simpl.
  eexists. split; [reflexivity|].
  repeat case_match; unfold moveCameraTo; repeat case_match; done.
Qed.

(** C5. Selecting annotation A and then annotation B (both indices of the
    current stage, with the menu list element present) makes both calls
    return, records B as the selected index and leaves B, and only B, at the
    selected tier (2.0, 1.0): every other annotation, A included when it is
    not B, is back at the idle tier (1.0, 0.01).  In every state the page
    can reach, and after each of the two calls, at most one annotation is at
    the selected tier. *)
Theorem select_then_select (st : State) (A B : nat) (t1 t2 : Q) :
  reachable st ->
  is_Some (annotationsList st) ->
  (A < length (currentAnnotations st))%nat ->
  (B < length (currentAnnotations st))%nat ->
  exists st1 st2,
    highlightAnnotation (Z.of_nat A) false t1 st = Returned st1
    /\ highlightAnnotation (Z.of_nat B) false t2 st1 = Returned st2
    /\ selectedAnnotationIndex st2 = Z.of_nat B
    /\ targetsAt B st2 = Some (2.0, 1.0)
    /\ (A <> B -> targetsAt A st2 = Some (1.0, 0.01))
    /\ (forall i, targetsAt i st2 = Some (2.0, 1.0) <-> i = B)
    /\ (forall i, (i < length (currentAnnotations st))%nat -> i <> B ->
          targetsAt i st2 = Some (1.0, 0.01))
    /\ atMostOneSelected (currentAnnotations st)
    /\ atMostOneSelected (currentAnnotations st1)
    /\ atMostOneSelected (currentAnnotations st2).
Proof.
  intros Hr Hlist HA HB.
  destruct (highlight_in_range A t1 st Hlist HA) as (st1 & E1 & L1 & _ & M1).
  assert (Hlen1 : length (currentAnnotations st1) = length (currentAnnotations st))
    by (by rewrite L1, length_alter, length_fmap).
  destruct (highlight_in_range B t2 st1) as (st2 & E2 & L2 & S2 & _);
    [by rewrite M1 | by rewrite Hlen1 |].
  assert (Hlen2 : length (currentAnnotations st2) = length (currentAnnotations st))
    by (by rewrite L2, length_alter, length_fmap).
  assert (Hat : forall i, (i < length (currentAnnotations st))%nat ->
            targetsAt i st2 = Some (if decide (i = B) then selectedTier else idleTier)).
  { intros i Hi. unfold targetsAt.
    destruct (lookup_lt_is_Some_2 (currentAnnotations st2) i) as [a Ha];
      [by rewrite Hlen2|].
    rewrite Ha. simpl. f_equal. rewrite L2 in Ha. by apply lookup_selected in Ha. }
  exists st1, st2. repeat split; try done.
  - rewrite Hat by done. by rewrite decide_True.
  - intros Hne. rewrite Hat by done. by rewrite decide_False.
  - intros Hi. unfold targetsAt in Hi.
    destruct (currentAnnotations st2 !! i) as [a|] eqn:Ha; [|done].
    rewrite L2 in Ha. apply lookup_selected in Ha.
    case_decide; [done|]. simplify_eq/=. rewrite Ha in Hi. discriminate.
  - intros ->. rewrite Hat by done. by rewrite decide_True.
  - intros i Hi Hne. rewrite Hat by done. by rewrite decide_False.
  - by apply atMostOne_reachable.
  - rewrite L1. apply atMostOne_select.
  - rewrite L2. apply atMostOne_select.
Qed.

Lemma select_then_select_witness :
  exists st1 st2,
    highlightAnnotation 0 false 1000 Sample.loaded = Returned st1
    /\ highlightAnnotation 1 false 2000 st1 = Returned st2
    /\ selectedAnnotationIndex st2 = 1%Z
    /\ targetsAt 1 st2 = Some (2.0, 1.0)
    /\ targetsAt 0 st2 = Some (1.0, 0.01).
Proof.
  destruct (select_then_select Sample.loaded 0 1 1000 2000)
    as (st1 & st2 & E1 & E2 & S & TB & TA & _).
  - exact (reachable_run
             [SplatSettled true;
              AnnotationsSettled (Some [Sample.anno0; Sample.anno1])] _
             (reach_init Sample.stages true true initialState
                reach_start eq_refl)).
  - vm_compute. eexists. reflexivity.
  - vm_compute. lia.
  - vm_compute. lia.
  - exists st1, st2. split; [exact E1|]. split; [exact E2|].
    split; [exact S|]. split; [exact TB|]. apply TA. lia.
Defined.

(** C10. Called with an index that has no annotation in the current stage
    (and with the menu list element present), the selection operation
    returns without raising, leaves the camera tween untouched, records the
    index as the selected index, and resets the targets of every annotation
    to the idle tier (1.0, 0.01). *)
Theorem highlight_out_of_range (index : Z) (now : Q) (st : State) :
  is_Some (annotationsList st) ->
  at_index (currentAnnotations st) index = None ->
  exists st',
    highlightAnnotation index false now st = Returned st'
    /\ tween st' = tween st
    /\ selectedAnnotationIndex st' = index
    /\ length (currentAnnotations st') = length (currentAnnotations st)
    /\ (forall i, (i < length (currentAnnotations st))%nat ->
          targetsAt i st' = Some (1.0, 0.01))
    /\ st' = resetAllTargets (set_selectedAnnotationIndex index st).
Proof.
  intros [rows Hrows] Hnone.
  assert (Hnone' :
    at_index (set_targets 1.0 0.01 <$> currentAnnotations st) index = None).
  { unfold at_index in *. case_match; [done|].
    rewrite list_lookup_fmap, Hnone. done. }
  unfold highlightAnnotation, resetAllTargets. state_simpl.
  rewrite Hrows, Hnone'.
  eexists. split; [reflexivity|]. state_simpl.
  repeat split; try done.
  - by rewrite length_fmap.
  - intros i Hi. unfold targetsAt. state_simpl.
    rewrite list_lookup_fmap.
    destruct (lookup_lt_is_Some_2 _ _ Hi) as [a Ha]. by rewrite Ha.
Qed.

Lemma highlight_out_of_range_witness :
  exists st',
    highlightAnnotation 7 false 1000 Sample.loaded = Returned st'
    /\ tween st' = tween Sample.loaded
    /\ selectedAnnotationIndex st' = 7%Z
    /\ targetsAt 0 st' = Some (1.0, 0.01)
    /\ targetsAt 1 st' = Some (1.0, 0.01).
Proof.
  destruct (highlight_out_of_range 7 1000 Sample.loaded)
    as (st' & E & T & S & _ & Hidle & _).
  - vm_compute. eexists. reflexivity.
  - reflexivity.
  - exists st'. split; [exact E|]. split; [exact T|]. split; [exact S|].
    split; apply Hidle; vm_compute; lia.
Defined.

(** ** Hover against selection *)

(** C6, as stated, fails: with annotation 0 selected, moving the pointer onto
    it lowers its targets to the hovered tier. *)
Lemma hover_demotes_selected : ~ hover_never_demotes_selected.
Proof.
  intros Hclaim.
  specialize (Hclaim Sample.selected0
                (Sample.pointerAt 400 300 false (Some 0%nat)) 0%nat).
  assert (Hr : reachable Sample.selected0).
  { change (reachable (step (RowClick 0 1000) Sample.loaded)).
    apply reach_step, sample_loaded_reachable. }
  specialize (Hclaim Hr eq_refl eq_refl).
  vm_compute in Hclaim. discriminate.
Qed.

(** The same run, step by step: selected, then hovered on the canvas, then
    left for empty space. *)
Example hover_then_leave_selected :
  let over := Sample.pointerAt 400 300 false (Some 0%nat) in
  let away := Sample.pointerAt 100 100 false None in
  let st1 := onAnnotationHover over Sample.selected0 in
  let st2 := onAnnotationHover away st1 in
  targetsAt 0 Sample.selected0 = Some (2.0, 1.0)
  /\ targetsAt 0 st1 = Some (1.5, 0.8)
  /\ targetsAt 0 st2 = Some (1.0, 0.01)
  /\ selectedAnnotationIndex st2 = 0%Z.
Proof. vm_compute. done. Qed.

Lemma selectedIndex_onAnnotationHover ev st :
  selectedAnnotationIndex (onAnnotationHover ev st) = selectedAnnotationIndex st.
Proof.
  unfold onAnnotationHover, write_hovered, write_targets.
  repeat case_match; done.
Qed.

(** C6, amended.  Pointer hover entry is not a no-op on a selected
    annotation: when the pointer enters an annotation on the canvas (one that
    is not the tracked hovered annotation) or enters its row in the menu, the
    targets of that annotation become the hovered tier (1.5, 0.8) whether or
    not it is selected, and the selected index does not change.  A pointer
    move that stays on the tracked hovered annotation changes nothing; a
    pointer move outside the viewport changes no target; and leaving the
    menu row of the selected annotation changes nothing. *)
Theorem hover_retargets_selected (st : State) (i : nat) :
  (i < length (currentAnnotations st))%nat ->
  (forall ev v cam,
     viewer st = Some v -> camera v = Some cam ->
     outsideRect ev = false -> intersectedGroup ev st = Some i ->
     (hoveredAnnotation st <> HoverGroup i ->
        targetsAt i (onAnnotationHover ev st) = Some (1.5, 0.8)
        /\ hoveredAnnotation (onAnnotationHover ev st) = HoverGroup i)
     /\ (hoveredAnnotation st = HoverGroup i -> onAnnotationHover ev st = st))
  /\ (forall ev,
        selectedAnnotationIndex (onAnnotationHover ev st)
        = selectedAnnotationIndex st)
  /\ (forall ev j,
        outsideRect ev = true ->
        targetsAt j (onAnnotationHover ev st) = targetsAt j st)
  /\ targetsAt i (onRowMouseEnter i st) = Some (1.5, 0.8)
  /\ selectedAnnotationIndex (onRowMouseEnter i st) = selectedAnnotationIndex st
  /\ (selectedAnnotationIndex st = Z.of_nat i -> onRowMouseLeave i st = st).
Proof.
  intros Hi.
  destruct (lookup_lt_is_Some_2 _ _ Hi) as [a Ha].
  split; [|split; [|split; [|split; [|split]]]].
  - intros ev v cam Hv Hcam Hout Hhit. split.
    + intros Hne. unfold onAnnotationHover.
      rewrite Hout, Hv, Hcam, Hhit.
      destruct (hoveredAnnotation st) as [|j|] eqn:Hh; simpl.
      * rewrite Hh. simpl. unfold targetsAt, write_targets. state_simpl.
        by rewrite list_lookup_alter_eq, Ha.
      * assert (j <> i) by congruence.
        rewrite bool_decide_false by done. simpl.
        unfold targetsAt, write_targets, write_hovered. state_simpl.
        rewrite Hh. state_simpl.
        rewrite list_lookup_alter_eq, list_lookup_alter_ne, Ha by done. done.
      * unfold targetsAt, write_targets, write_hovered. state_simpl.
        rewrite Hh. state_simpl. by rewrite list_lookup_alter_eq, Ha.
    + intros Hh. unfold onAnnotationHover.
      rewrite Hout, Hv, Hcam, Hhit, Hh. simpl.
      rewrite bool_decide_true by done. simpl. rewrite Hh. simpl.
      by rewrite bool_decide_true.
  - intros ev. apply selectedIndex_onAnnotationHover.
  - intros ev j Hout. unfold onAnnotationHover, write_hovered, targetsAt.
    rewrite Hout.
    destruct (hoveredAnnotation st) as [|k|] eqn:Hh; state_simpl; try done.
    destruct (decide (k = j)) as [->|Hne].
    + rewrite list_lookup_alter_eq. by destruct (currentAnnotations st !! j).
    + by rewrite list_lookup_alter_ne.
  - unfold onRowMouseEnter, targetsAt, write_targets. rewrite Ha. state_simpl.
    by rewrite list_lookup_alter_eq, Ha.
  - unfold onRowMouseEnter, write_targets. by rewrite Ha.
  - intros Hsel. unfold onRowMouseLeave.
    by rewrite bool_decide_true.
Qed.

Lemma hover_retargets_selected_witness :
  let ev := Sample.pointerAt 400 300 false (Some 0%nat) in
  targetsAt 0 Sample.selected0 = Some (2.0, 1.0)
  /\ targetsAt 0 (onAnnotationHover ev Sample.selected0) = Some (1.5, 0.8)
  /\ onRowMouseLeave 0 Sample.selected0 = Sample.selected0.
Proof.
  intros ev.
  destruct (hover_retargets_selected Sample.selected0 0%nat)
    as (Henter & _ & _ & _ & _ & Hleave).
  - vm_compute. lia.
  - split; [reflexivity|]. split.
    + edestruct (Henter ev) as (Hnew & _);
        [reflexivity | reflexivity | reflexivity | reflexivity |].
      apply Hnew. discriminate.
    + apply Hleave. reflexivity.
Defined.

(** ** Stage loading, step by step *)

Lemma loadStage_accepted (st : State) (index : nat) (stage : Stage) :
  isLoading st = false ->
  constructionStages st !! index = Some stage ->
  loadStage index st
  = set_loading true (Some (AwaitSplat index))
      (set_viewer (Some (newViewer index stage)) st).
Proof.
  intros Hload Hstage. unfold loadStage. rewrite Hload.
  destruct (viewer st) as [v0|] eqn:Hv0; state_simpl; rewrite ?Hv0;
    state_simpl; by rewrite Hstage.
Qed.

Lemma loadStage_then_scene (st : State) (index : nat) (stage : Stage) :
  isLoading st = false ->
  constructionStages st !! index = Some stage ->
  viewer (loadStage_splatSettled true (loadStage index st))
  = Some {| camera := Some {| position := initialCameraPosition stage |};
            controls := Some (loadedControls stage st);
            viewerStage := index; sceneAdded := true; running := true;
            disposed := false; canvasAttached := true |}.
Proof.
  intros Hload Hstage. rewrite (loadStage_accepted st index stage) by done.
  unfold loadStage_splatSettled. state_simpl. rewrite Hstage.
  cbn [newViewer startViewer controls camera].
  unfold loadedControls, applyStageZoom, clearAnnotations, loadStage_finish,
    createMovableDot.
  state_simpl.
  destruct (minZoom stage), (maxZoom stage), (zoomLockEnabled st),
    (hasAnnotationsUrl stage), (hoveredAnnotation st); reflexivity.
Qed.

(** ** Zoom lock *)

(** C7, as stated, fails: stage 0 of the sample defines the range 5..20, and
    [setZoomLock(1, 100)] rewrites the bounds of the controls all the same. *)
Lemma zoom_toggle_overrides_stage : ~ zoom_toggle_respects_stage.
Proof.
  intros Hclaim.
  specialize (Hclaim Sample.loaded Sample.stage0 (Finite 1) (Finite 100)
                sample_loaded_reachable eq_refl).
  assert (Hrange : stageHasZoomRange Sample.stage0) by (split; by eexists).
  specialize (Hclaim Hrange).
  vm_compute in Hclaim. discriminate.
Qed.

Example zoom_toggle_on_sample :
  zoomBounds Sample.loaded = Some (Finite 5, Finite 20)
  /\ zoomBounds (setZoomLock (Finite 1) (Finite 100) Sample.loaded)
     = Some (Finite 1, Finite 100)
  /\ zoomBounds (clearZoomLock Sample.loaded) = Some (Finite 0, Infinity).
Proof. vm_compute. done. Qed.

(** C7, amended.  [setZoomLock(min, max)] records the process-wide fallback
    and, whenever a viewer with controls exists, writes that range into the
    distance bounds of the controls, whether or not the active stage has a
    zoom range of its own; [clearZoomLock()] likewise resets the bounds to
    (0, Infinity).  The stage's own range comes into play on stage load
    only: once the scene of a freshly started load is in, the bounds are the
    stage's range if it defines both ends, else the fallback if one is
    enabled, else the unrestricted (0, Infinity). *)
Theorem zoom_lock_resolution (st : State) :
  (forall lo hi v ctl,
     viewer st = Some v -> controls v = Some ctl ->
     zoomBounds (setZoomLock lo hi st) = Some (lo, hi))
  /\ (forall lo hi,
        zoomLockEnabled (setZoomLock lo hi st) = true
        /\ zoomMinDistance (setZoomLock lo hi st) = lo
        /\ zoomMaxDistance (setZoomLock lo hi st) = hi)
  /\ (forall v ctl,
        viewer st = Some v -> controls v = Some ctl ->
        zoomBounds (clearZoomLock st) = Some (Finite 0, Infinity)
        /\ zoomLockEnabled (clearZoomLock st) = false)
  /\ (forall index stage,
        isLoading st = false ->
        constructionStages st !! index = Some stage ->
        zoomBounds (loadStage_splatSettled true (loadStage index st))
        = Some (effectiveZoom stage st)).
Proof.
  split; [|split; [|split]].
  - intros lo hi v ctl Hv Hctl. unfold setZoomLock, zoomBounds.
    state_simpl. by rewrite Hv, Hctl.
  - intros lo hi. unfold setZoomLock. by repeat case_match.
  - intros v ctl Hv Hctl. unfold clearZoomLock, zoomBounds.
    state_simpl. by rewrite Hv, Hctl.
  - intros index stage Hload Hstage.
    unfold zoomBounds. rewrite (loadStage_then_scene st index stage) by done.
    simpl. unfold loadedControls, applyStageZoom, effectiveZoom.
    by destruct (minZoom stage), (maxZoom stage), (zoomLockEnabled st).
Qed.

Lemma zoom_lock_resolution_witness :
  zoomBounds (setZoomLock (Finite 1) (Finite 100) Sample.loaded)
  = Some (Finite 1, Finite 100)
  /\ zoomBounds (loadStage_splatSettled true
                   (loadStage 1 (setZoomLock (Finite 1) (Finite 100) Sample.loaded)))
     = Some (Finite 1, Finite 100)
  /\ zoomBounds (loadStage_splatSettled true (loadStage 0 Sample.loaded))
     = Some (Finite 5, Finite 20)
  /\ zoomBounds (loadStage_splatSettled true (loadStage 1 Sample.loaded))
     = Some (Finite 0, Infinity).
Proof.
  split; [|split; [|split]].
  - eapply (proj1 (zoom_lock_resolution Sample.loaded)); reflexivity.
  - apply (proj2 (proj2 (proj2 (zoom_lock_resolution
             (setZoomLock (Finite 1) (Finite 100) Sample.loaded))))
             1%nat Sample.stage1); reflexivity.
  - apply (proj2 (proj2 (proj2 (zoom_lock_resolution Sample.loaded)))
             0%nat Sample.stage0); reflexivity.
  - apply (proj2 (proj2 (proj2 (zoom_lock_resolution Sample.loaded)))
             1%nat Sample.stage1); reflexivity.
Defined.

(** ** Stage loading *)

(** C8, as stated, fails: starting the load of stage 1 while stage 0 is shown
    removes the scene of stage 0 at once. *)
Lemma load_removes_previous_scene : ~ load_keeps_previous_scene.
Proof.
  intros Hclaim.
  destruct (Hclaim Sample.loaded 1%nat sample_loaded_reachable eq_refl)
    as [Hflight _]; [by eexists|].
  vm_compute in Hflight. discriminate.
Qed.

Example load_on_sample :
  displayedStage Sample.loaded = Some 0%nat
  /\ displayedStage (loadStage 1 Sample.loaded) = None
  /\ isLoading (loadStage 1 Sample.loaded) = true
  /\ displayedStage (loadStage_splatSettled false (loadStage 1 Sample.loaded)) = None
  /\ displayedStage (loadStage_splatSettled true (loadStage 1 Sample.loaded))
     = Some 1%nat.
Proof. vm_compute. done. Qed.

(** C8, amended.  While a load is in flight a further [loadStage] call is
    rejected with no state change (nothing is queued).  A call that is
    accepted disposes of the previous viewer and removes its canvas before
    the new scene is fetched, so no scene is shown while the load is in
    flight; the previous scene is not restored when the load fails, and the
    new stage is shown once its scene has been added. *)
Theorem load_guard_and_replacement (st : State) (index : nat) :
  (isLoading st = true -> loadStage index st = st)
  /\ (isLoading st = false ->
      displayedStage (loadStage index st) = None
      /\ forall stage,
           constructionStages st !! index = Some stage ->
           isLoading (loadStage index st) = true
           /\ pending (loadStage index st) = Some (AwaitSplat index)
           /\ displayedStage (loadStage_splatSettled false (loadStage index st)) = None
           /\ isLoading (loadStage_splatSettled false (loadStage index st)) = false
           /\ displayedStage (loadStage_splatSettled true (loadStage index st))
              = Some index).
Proof.
  split.
  - intros Hload. unfold loadStage. by rewrite Hload.
  - intros Hload. split.
    + unfold loadStage. rewrite Hload.
      unfold displayedStage, loadStage_fail.
      destruct (viewer st) as [v0|] eqn:Hv0; state_simpl; rewrite ?Hv0;
        state_simpl; destruct (constructionStages st !! index);
        state_simpl; rewrite ?Hv0; simpl; try done.
      by rewrite !andb_false_r.
    + intros stage Hstage.
      split; [|split; [|split; [|split]]].
      * by rewrite (loadStage_accepted st index stage).
      * by rewrite (loadStage_accepted st index stage).
      * rewrite (loadStage_accepted st index stage) by done.
        unfold loadStage_splatSettled. done.
      * rewrite (loadStage_accepted st index stage) by done.
        unfold loadStage_splatSettled. done.
      * unfold displayedStage.
        by rewrite (loadStage_then_scene st index stage).
Qed.

Lemma load_guard_and_replacement_witness :
  loadStage 0 (loadStage 1 Sample.loaded) = loadStage 1 Sample.loaded
  /\ displayedStage (loadStage 1 Sample.loaded) = None.
Proof.
  split.
  - apply (proj1 (load_guard_and_replacement (loadStage 1 Sample.loaded) 0)).
    reflexivity.
  - apply (proj2 (load_guard_and_replacement Sample.loaded 1)). reflexivity.
Defined.

(** ** Marker against annotations *)

(** A visible marker under the pointer claims the pointer-down: the drag
    begins, the orbit controls are disabled, and nothing else changes (no
    annotation is selected), whether or not an annotation is hit as well. *)
Lemma visible_marker_claims (ev : PointerEvent) (now : Q) (st : State)
    (v : Viewer) (cam : Camera) (d : Dot) :
  viewer st = Some v -> camera v = Some cam ->
  movableDot st = Some d -> dotVisible d = true ->
  rayHitsDot ev = true ->
  pointerDown ev now st = setControlsEnabled false (set_isDraggingDot true st).
Proof.
  intros Hv Hcam Hdot Hvis Hhit.
  assert (Ha : onAnnotationPointerDown ev now st = pass st).
  { unfold onAnnotationPointerDown, dotVisibleNow.
    rewrite Hv, Hcam, Hdot, Hvis, Hhit. simpl. by repeat case_match. }
  unfold pointerDown. rewrite Ha. simpl.
  unfold onDotPointerDown. by rewrite Hv, Hcam, Hdot, Hhit.
Qed.

(** A hidden marker under the pointer starts a drag as well, unless an
    annotation takes the event first. *)
Lemma hidden_marker_still_drags (ev : PointerEvent) (now : Q) (st : State)
    (v : Viewer) (cam : Camera) (d : Dot) :
  viewer st = Some v -> camera v = Some cam ->
  movableDot st = Some d -> dotVisible d = false ->
  rayHitsDot ev = true -> intersectedGroup ev st = None ->
  pointerDown ev now st = setControlsEnabled false (set_isDraggingDot true st).
Proof.
  intros Hv Hcam Hdot Hvis Hhit Hnone.
  assert (Ha : onAnnotationPointerDown ev now st = pass st).
  { unfold onAnnotationPointerDown, dotVisibleNow.
    rewrite Hv, Hcam, Hdot, Hvis, Hnone. simpl. by repeat case_match. }
  unfold pointerDown. rewrite Ha. simpl.
  unfold onDotPointerDown. by rewrite Hv, Hcam, Hdot, Hhit.
Qed.

(** C9, at the failing input.  After the load of stage 0 the marker exists
    and is hidden (the dev overlay is off).  A pointer-down whose ray meets
    the marker and no annotation begins a drag and disables the orbit
    controls, although the marker is not visible. *)
Theorem invisible_marker_starts_drag :
  let ev := Sample.pointerAt 400 300 true None in
  let st' := pointerDown ev 1000 Sample.loaded in
  dotVisibleNow Sample.loaded = false
  /\ isDraggingDot Sample.loaded = false
  /\ stopped (onDotPointerDown ev Sample.loaded) = true
  /\ isDraggingDot st' = true
  /\ (v ← viewer st'; c ← controls v; Some (enabled c)) = Some false.
Proof. vm_compute. done. Qed.

(** With the marker shown, the same pointer-down over the marker and over
    annotation 0 starts the drag and selects nothing. *)
Example visible_marker_wins :
  let ev := Sample.pointerAt 400 300 true (Some 0%nat) in
  let st := onDevButtonClick Sample.loaded in
  let st' := pointerDown ev 1000 st in
  dotVisibleNow st = true
  /\ isDraggingDot st' = true
  /\ selectedAnnotationIndex st' = (-1)%Z
  /\ currentAnnotations st' = currentAnnotations st.
Proof. vm_compute. done. Qed.

(** ** Smoothing of the annotation visual state *)

Lemma lerp_tenth (cur tgt : Q) :
  MathUtils.lerp cur tgt 0.1 == cur + (tgt - cur) * 0.1.
Proof. unfold MathUtils.lerp. ring. Qed.

Lemma orDefault_tier (x d : Q) :
  x = 1.0 \/ x = 1.5 \/ x = 2.0 \/ x = 0.01 \/ x = 0.8 -> orDefault x d = x.
Proof. intros [->|[->|[->|[->| ->]]]]; reflexivity. Qed.

(** What one frame does to an annotation whose targets are a tier: a value
    farther than 0.001 from its target moves by a tenth of the remaining
    distance, a value within 0.001 stays, and in both cases the new value
    lies between the old value and the target. *)
Lemma frame_smooths (a : AnnotationGroup) :
  isTier (targets a) ->
  let a' := animateAnnotation a in
  let cs := vx (scale a) in let ts := targetScale a in
  let co := fillOpacity a in let to := targetOpacity a in
  targets a' = targets a
  /\ (0.001 < Num.abs (cs - ts) ->
        vx (scale a') == cs + (ts - cs) * 0.1
        /\ vy (scale a') = vx (scale a') /\ vz (scale a') = vx (scale a'))
  /\ (Num.abs (cs - ts) <= 0.001 -> scale a' = scale a)
  /\ (0.001 < Num.abs (co - to) -> fillOpacity a' == co + (to - co) * 0.1)
  /\ (Num.abs (co - to) <= 0.001 -> fillOpacity a' = co)
  /\ (cs <= ts -> cs <= vx (scale a') <= ts)
  /\ (ts <= cs -> ts <= vx (scale a') <= cs)
  /\ (co <= to -> co <= fillOpacity a' <= to)
  /\ (to <= co -> to <= fillOpacity a' <= co).
Proof.
  intros Htier. cbv zeta.
  assert (Hs : orDefault (targetScale a) 1.0 = targetScale a).
  { apply orDefault_tier. unfold targets, idleTier, hoveredTier, selectedTier in Htier.
    destruct Htier as [H|[H|H]]; injection H as -> _; auto. }
  assert (Ho : orDefault (targetOpacity a) 0.01 = targetOpacity a).
  { apply orDefault_tier. unfold targets, idleTier, hoveredTier, selectedTier in Htier.
    destruct Htier as [H|[H|H]]; injection H as _ ->; auto 6. }
  split; [apply targets_animateAnnotation|].
  unfold animateAnnotation. rewrite Hs.
  destruct (NumFacts.ltb_spec 0.001 (Num.abs (vx (scale a) - targetScale a)))
    as [Hfar|Hnear]; cbn [fillOpacity set_scale targetOpacity scale vx vy vz];
    rewrite Ho;
    destruct (NumFacts.ltb_spec 0.001 (Num.abs (fillOpacity a - targetOpacity a)))
      as [Hfar'|Hnear'];
    cbn [fillOpacity set_scale set_fillOpacity targetOpacity scale vx vy vz];
    pose proof (lerp_tenth (vx (scale a)) (targetScale a)) as Ls;
    pose proof (lerp_tenth (fillOpacity a) (targetOpacity a)) as Lo;
    repeat split; intros; try done; try lra.
Qed.

(** The branch of [onAnnotationHover] for a pointer outside the container
    writes the current scale and opacity of the tracked hovered annotation
    directly and leaves its targets as they are. *)
Lemma leaving_viewport_writes_current (ev : PointerEvent) (st : State)
    (i : nat) (a : AnnotationGroup) :
  outsideRect ev = true ->
  hoveredAnnotation st = HoverGroup i ->
  currentAnnotations st !! i = Some a ->
  currentAnnotations (onAnnotationHover ev st) !! i
    = Some (set_fillOpacity 0.01 (set_scale (Vec3 1 1 1) a))
  /\ hoveredAnnotation (onAnnotationHover ev st) = HoverNone.
Proof.
  intros Hout Hh Ha. unfold onAnnotationHover, write_hovered.
  rewrite Hout, Hh. state_simpl.
  by rewrite list_lookup_alter_eq, Ha.
Qed.

(** C4, at the failing input.  Annotation 0 is hovered and one frame has
    moved it a tenth of the way to the hovered tier (scale 1.05, opacity
    0.089).  A pointer-move outside the container then sets its scale to 1
    and its opacity to 0.01 at once, not by a smoothing step, while its
    targets stay at the hovered tier and no annotation is tracked as hovered
    any more; the next frame moves it toward the hovered tier again. *)
Theorem leaving_viewport_snaps :
  let outside := Sample.pointerAt 900 300 false None in
  let st := Sample.hovering0 in
  let st' := onAnnotationHover outside st in
  exists a a' a'',
    currentAnnotations st !! 0%nat = Some a
    /\ currentAnnotations st' !! 0%nat = Some a'
    /\ currentAnnotations (animate 1032 st') !! 0%nat = Some a''
    /\ outsideRect outside = true
    /\ hoveredAnnotation st = HoverGroup 0
    /\ targets a = (1.5, 0.8)
    /\ vx (scale a) == 1.05 /\ fillOpacity a == 0.089
    /\ scale a' = Vec3 1 1 1 /\ fillOpacity a' = 0.01
    /\ ~ vx (scale a') == vx (scale (animateAnnotation a))
    /\ targets a' = (1.5, 0.8)
    /\ hoveredAnnotation st' = HoverNone
    /\ vx (scale a'') == 1.05 /\ fillOpacity a'' == 0.089.
Proof.
  cbv zeta. do 3 eexists.
  split; [reflexivity|]. split; [reflexivity|]. split; [reflexivity|].
  vm_compute. repeat split; try done; discriminate.
Qed.

(** * Further properties of the code *)

(** ** Camera tween: continuity and range *)

Lemma smoothstep_unit_range (t : Q) :
  0 <= MathUtils.smoothstep t 0 1 /\ MathUtils.smoothstep t 0 1 <= 1.
Proof.
  unfold MathUtils.smoothstep.
  destruct (NumFacts.leb_spec t 0); [lra|].
  destruct (NumFacts.leb_spec 1 t); [lra|].
  cbv zeta.
  assert (E : (t - 0) / (1 - 0) == t) by (field).
  rewrite E.
  assert (H0 : 0 <= t * t) by (apply Qmult_le_0_compat; lra).
  assert (H1 : 0 <= t * t * (3 - 2 * t))
    by (apply Qmult_le_0_compat; [done | lra]).
  assert (H2 : 0 <= (1 - t) * (1 - t)) by (apply Qmult_le_0_compat; lra).
  assert (H3 : 0 <= (1 - t) * (1 - t) * (1 + 2 * t))
    by (apply Qmult_le_0_compat; [done | lra]).
  assert (E3 : 1 - t * t * (3 - 2 * t) == (1 - t) * (1 - t) * (1 + 2 * t))
    by ring.
  split; [done | lra].
Qed.

Lemma lerp_between (a b e : Q) :
  0 <= e -> e <= 1 -> between a b (a + (b - a) * e).
Proof.
  intros H0 H1. unfold between.
  assert (E : a + (b - a) * e == b - (b - a) * (1 - e)) by ring.
  destruct (Qlt_le_dec b a) as [Hlt|Hle]; [right|left].
  - assert (0 <= (a - b) * e) by (apply Qmult_le_0_compat; lra).
    assert (0 <= (a - b) * (1 - e)) by (apply Qmult_le_0_compat; lra).
    assert ((a - b) * e == - ((b - a) * e)) by ring.
    assert ((a - b) * (1 - e) == - ((b - a) * (1 - e))) by ring.
    split; lra.
  - assert (0 <= (b - a) * e) by (apply Qmult_le_0_compat; lra).
    assert (0 <= (b - a) * (1 - e)) by (apply Qmult_le_0_compat; lra).
    split; lra.
Qed.

Lemma lerpVectors_between (a b : Vector3) (e : Q) :
  0 <= e -> e <= 1 -> vbetween a b (lerpVectors a b e).
Proof.
  intros H0 H1. unfold vbetween, lerpVectors; simpl.
  repeat split; by apply lerp_between.
Qed.

Lemma pose_stepCameraMove (now : Q) (st : State) v cam ctl :
  viewer st = Some v -> camera v = Some cam -> controls v = Some ctl ->
  camMoveActive (tween st) = true ->
  let p := tweenPosition now (tween st) in
  let l := tweenTarget now (tween st) in
  pose (stepCameraMove now st)
  = Some (match restrictOffset ctl (vsub p l) with
          | Some o => vadd l o
          | None => p
          end, l).
Proof.
  intros Hv Hcam Hctl Hact. unfold stepCameraMove.
  rewrite Hact, Hv, Hcam, Hctl. cbv zeta.
  unfold tweenPosition, tweenTarget, tweenFraction.
  rewrite <- min_one_eq_clamp.
  set (e := MathUtils.smoothstep _ 0 1).
  assert (H : forall s w,
    w = set_controls (Some (set_target
          (lerpVectors (camStartTarget (tween st)) (camTargetTarget (tween st)) e) ctl))
          (set_camera (Some (set_position
          (lerpVectors (camStartPos (tween st)) (camTargetPos (tween st)) e) cam)) v) ->
    viewer s = Some (controls_update w) ->
    pose s
    = Some (match restrictOffset ctl
                    (vsub (lerpVectors (camStartPos (tween st)) (camTargetPos (tween st)) e)
                          (lerpVectors (camStartTarget (tween st)) (camTargetTarget (tween st)) e))
            with
            | Some o => vadd (lerpVectors (camStartTarget (tween st)) (camTargetTarget (tween st)) e) o
            | None => lerpVectors (camStartPos (tween st)) (camTargetPos (tween st)) e
            end,
            lerpVectors (camStartTarget (tween st)) (camTargetTarget (tween st)) e)).
  { intros s w -> Hs. unfold pose. rewrite Hs. unfold controls_update. simpl.
    change (restrictOffset (set_target ?t ctl)) with (restrictOffset ctl).
    by destruct (restrictOffset ctl _). }
  destruct (Num.leb 1 _); by eapply H.
Qed.

(** X1. A camera move never overshoots where the orbit controls let it
    pass: at every frame of an active tween each coordinate of the orbit
    target lies between its value at the start of the tween and its
    requested end value, and so does each coordinate of the camera position
    whenever the interpolated pose satisfies the distance bounds and the
    polar limit of the controls. *)
Theorem tween_stays_between (now : Q) (st : State)
    (v : Viewer) (cam : Camera) (ctl : OrbitControls) :
  viewer st = Some v -> camera v = Some cam -> controls v = Some ctl ->
  camMoveActive (tween st) = true ->
  0 < camMoveDuration (tween st) ->
  let tw := tween st in
  exists p l,
    pose (stepCameraMove now st) = Some (p, l)
    /\ vbetween (camStartTarget tw) (camTargetTarget tw) l
    /\ (withinLimits ctl (vsub (tweenPosition now tw) (tweenTarget now tw))
        = true ->
        vbetween (camStartPos tw) (camTargetPos tw) p).
Proof.
  intros Hv Hcam Hctl Hact _ tw.
  eexists _, _. split; [by eapply pose_stepCameraMove|].
  split; [apply lerpVectors_between; apply smoothstep_unit_range|].
  intros Hin. fold tw. rewrite (within_restrictOffset _ _ Hin).
  apply lerpVectors_between; apply smoothstep_unit_range.
Qed.

Lemma tween_stays_between_witness :
  exists p l,
    pose (stepCameraMove 1700 Sample.flying) = Some (p, l)
    /\ vbetween (Vec3 0 (-2) 8) (Vec3 0 0 5) p
    /\ vbetween (Vec3 0 0 0) (Vec3 1 0 0) l.
Proof.
  edestruct (tween_stays_between 1700 Sample.flying) as (p & l & Hp & Hl & Hb);
    [reflexivity | reflexivity | reflexivity | reflexivity | reflexivity |].
  exists p, l. split; [exact Hp|]. split; [apply Hb; reflexivity | exact Hl].
Defined.

(** X2. A camera move starts where the camera is: the frame that runs at the
    instant of [moveCameraTo] writes the current camera position and orbit
    target back before it calls [update()], whatever tween was in flight
    before.  The orbit target is unchanged; the camera position is unchanged
    when the current pose satisfies the limits of the controls, and is
    otherwise the one [update()] makes of the current pose.  The tween stays
    active, and the pose a superseded tween was heading for is dropped. *)
Theorem tween_starts_at_current_pose (positionVec lookAtVec : Vector3)
    (duration now : Q) (st : State)
    (v : Viewer) (cam : Camera) (ctl : OrbitControls) :
  viewer st = Some v -> camera v = Some cam -> controls v = Some ctl ->
  0 < duration ->
  let st1 := moveCameraTo positionVec lookAtVec duration now st in
  let offset := vsub (position cam) (target ctl) in
  exists p l,
    pose (stepCameraMove now st1) = Some (p, l)
    /\ veq l (target ctl)
    /\ (withinLimits ctl offset = true -> veq p (position cam))
    /\ (forall restricted,
          restrictOffset ctl offset = Some restricted ->
          veq p (vadd (target ctl) restricted))
    /\ camMoveActive (tween (stepCameraMove now st1)) = true
    /\ camTargetPos (tween st1) = positionVec
    /\ camTargetTarget (tween st1) = lookAtVec.
Proof.
  intros Hv Hcam Hctl Hd st1 offset.
  assert (Htw : tween st1
    = {| camMoveActive := true; camMoveStart := now;
         camMoveDuration := duration;
         camStartPos := position cam; camStartTarget := target ctl;
         camTargetPos := positionVec; camTargetTarget := lookAtVec |}).
  { subst st1. unfold moveCameraTo. by rewrite Hv, Hcam, Hctl. }
  assert (Hv1 : viewer st1 = Some v).
  { subst st1. unfold moveCameraTo. by rewrite Hv, Hcam, Hctl. }
  assert (Hraw : (now - now) / duration <= 0)
    by (apply not_started_fraction; [done | lra]).
  assert (Ht : Num.min 1 ((now - now) / duration) = (now - now) / duration).
  { unfold Num.min. destruct (NumFacts.ltb_spec ((now - now) / duration) 1); [done|lra]. }
  assert (He : MathUtils.smoothstep (tweenFraction now (tween st1)) 0 1 = 0).
  { rewrite Htw. unfold tweenFraction. cbn [camMoveStart camMoveDuration].
    rewrite <- min_one_eq_clamp, Ht. unfold MathUtils.smoothstep.
    destruct (NumFacts.leb_spec ((now - now) / duration) 0); [done|lra]. }
  assert (Hp0 : veq (tweenPosition now (tween st1)) (position cam)).
  { unfold tweenPosition. rewrite He, Htw. apply lerpVectors_start. }
  assert (Hl0 : veq (tweenTarget now (tween st1)) (target ctl)).
  { unfold tweenTarget. rewrite He, Htw. apply lerpVectors_start. }
  pose proof (restrictOffset_veq ctl _ _ (vsub_veq _ _ _ _ Hp0 Hl0)) as Hr.
  fold offset in Hr.
  eexists _, _. split.
  { eapply pose_stepCameraMove; try done. by rewrite Htw. }
  split; [done|]. split; [|split; [|split; [|by rewrite Htw]]].
  - intros Hin. rewrite (within_restrictOffset _ _ Hin) in Hr.
    by destruct (restrictOffset ctl _).
  - intros restricted Hsome. rewrite Hsome in Hr.
    destruct (restrictOffset ctl _); [|done]. by apply vadd_veq.
  - unfold stepCameraMove. rewrite Htw, Hv1, Hcam, Hctl.
    cbn [camMoveActive camMoveStart camMoveDuration]. cbv zeta.
    rewrite Ht.
    destruct (NumFacts.leb_spec 1 ((now - now) / duration)); [lra|].
    state_simpl. by rewrite Htw.
Qed.

Lemma tween_starts_at_current_pose_witness :
  exists p l,
    pose (stepCameraMove 1000
            (moveCameraTo (Vec3 0 0 5) (Vec3 1 0 0) 1500 1000 Sample.loaded))
    = Some (p, l)
    /\ veq p (Vec3 0 (-2) 8) /\ veq l (Vec3 0 0 0).
Proof.
  edestruct (tween_starts_at_current_pose (Vec3 0 0 5) (Vec3 1 0 0) 1500 1000
               Sample.loaded)
    as (p & l & Hp & Hle & Hpe & _);
    [reflexivity | reflexivity | reflexivity | reflexivity |].
  exists p, l. split; [exact Hp|]. split; [apply Hpe; reflexivity | exact Hle].
Defined.

(** ** Pan lock: what every frame guarantees *)

Lemma stepCameraMove_keeps_viewer (now : Q) (st : State) v cam ctl :
  viewer st = Some v -> camera v = Some cam -> controls v = Some ctl ->
  isPanLockActive (stepCameraMove now st) = isPanLockActive st
  /\ exists v' cam' ctl',
       viewer (stepCameraMove now st) = Some v'
       /\ camera v' = Some cam' /\ controls v' = Some ctl'.
Proof.
  intros Hv Hcam Hctl. unfold stepCameraMove. rewrite Hv, Hcam, Hctl.
  destruct (camMoveActive (tween st)); [|by eauto 10].
  cbv zeta.
  match goal with |- context [controls_update ?w] =>
    destruct (controls_update_shape w) as [->|(c & p & _ & ->)] end;
    destruct (Num.leb 1 _); split; try done; by eexists _, _, _.
Qed.

Lemma stepPanLock_grounds (st : State) v cam ctl :
  isPanLockActive st = true ->
  viewer st = Some v -> camera v = Some cam -> controls v = Some ctl ->
  exists p l, pose (stepPanLock st) = Some (p, l) /\ vy l <= 0.
Proof.
  intros Hpan Hv Hcam Hctl. unfold stepPanLock.
  rewrite Hpan, Hv, Hctl, Hcam.
  destruct (NumFacts.ltb_spec 0 (vy (target ctl))) as [Hy|Hy].
  - eexists _, _. split; [reflexivity|]. simpl. lra.
  - exists (position cam), (target ctl). split; [|lra].
    unfold pose. by rewrite Hv; simpl; rewrite Hcam; simpl; rewrite Hctl.
Qed.

Lemma pose_stepAnnotations (st : State) : pose (stepAnnotations st) = pose st.
Proof. unfold stepAnnotations. by repeat case_match. Qed.

(** X3. With the pan lock on, the orbit target is never left below the
    ground plane at the end of a frame: after [animate] its y is at most 0,
    also in the frames in which a camera move has just written a target
    with positive y.  A second pass of the pan lock changes nothing. *)
Theorem pan_lock_holds_after_frame (now : Q) (st : State)
    (v : Viewer) (cam : Camera) (ctl : OrbitControls) :
  isPanLockActive st = true ->
  viewer st = Some v -> camera v = Some cam -> controls v = Some ctl ->
  (exists p l, pose (animate now st) = Some (p, l) /\ vy l <= 0)
  /\ stepPanLock (stepPanLock st) = stepPanLock st.
Proof.
  intros Hpan Hv Hcam Hctl. split.
  - unfold animate. rewrite pose_stepAnnotations.
    destruct (stepCameraMove_keeps_viewer now st v cam ctl Hv Hcam Hctl)
      as (Hp & v' & cam' & ctl' & Hv' & Hcam' & Hctl').
    eapply stepPanLock_grounds; [by rewrite Hp | done..].
  - unfold stepPanLock at 2 3. rewrite Hpan, Hv, Hctl, Hcam.
    destruct (NumFacts.ltb_spec 0 (vy (target ctl))) as [Hy|Hy].
    + unfold stepPanLock. state_simpl. rewrite Hpan. simpl.
      destruct (NumFacts.ltb_spec 0 (vy (target ctl) - vy (target ctl)));
        [lra | done].
    + unfold stepPanLock. rewrite Hpan, Hv, Hctl, Hcam.
      destruct (NumFacts.ltb_spec 0 (vy (target ctl))); [lra | done].
Qed.

Lemma pan_lock_holds_after_frame_witness :
  let st := moveCameraTo (Vec3 0 4 5) (Vec3 1 2 0) 1500 1000 Sample.loaded in
  exists p l, pose (animate 2500 st) = Some (p, l) /\ vy l <= 0.
Proof.
  intros st.
  edestruct (pan_lock_holds_after_frame 2500 st) as (Hg & _);
    [reflexivity | reflexivity | reflexivity | reflexivity |].
  exact Hg.
Defined.

(** ** Smoothing: the frames converge *)

Lemma abs_nonneg (x : Q) : 0 <= Num.abs x.
Proof. unfold Num.abs. destruct (NumFacts.ltb_spec x 0); lra. Qed.

Lemma abs_shrinks (x y : Q) : y == 0.9 * x -> Num.abs y == 0.9 * Num.abs x.
Proof.
  intros E. unfold Num.abs.
  destruct (NumFacts.ltb_spec x 0), (NumFacts.ltb_spec y 0); lra.
Qed.

Lemma decay_range (n : nat) : 0 <= decay n /\ decay n <= 1.
Proof. induction n as [|n [IH0 IH1]]; simpl; lra. Qed.

(** Bernoulli's bound on the powers of 0.9. *)
Lemma decay_bound (n : nat) : decay n * (9 + inject_Z (Z.of_nat n)) <= 9.
Proof.
  induction n as [|n IH].
  - vm_compute. discriminate.
  - destruct (decay_range n) as [D0 _].
    assert (Hq : 0 <= inject_Z (Z.of_nat n)).
    { change 0 with (inject_Z 0). rewrite <- Zle_Qle. lia. }
    assert (Es : inject_Z (Z.of_nat (S n)) == inject_Z (Z.of_nat n) + 1).
    { rewrite Nat2Z.inj_succ, <- Z.add_1_r, inject_Z_plus. reflexivity. }
    assert (Hm : 0 <= decay n * inject_Z (Z.of_nat n))
      by (by apply Qmult_le_0_compat).
    cbn [decay]. rewrite Es.
    assert (E : 0.9 * decay n * (9 + (inject_Z (Z.of_nat n) + 1))
                == decay n * (9 + inject_Z (Z.of_nat n))
                   - 0.1 * (decay n * inject_Z (Z.of_nat n))) by ring.
    lra.
Qed.

Lemma decay_small (r : Q) : 0 <= r -> exists n, r * decay n <= 0.001.
Proof.
  intros Hr. exists (Z.to_nat (Qceiling (9000 * r))).
  set (n := Z.to_nat (Qceiling (9000 * r))).
  pose proof (Qle_ceiling (9000 * r)) as Hc.
  assert (Hz : (0 <= Qceiling (9000 * r))%Z).
  { rewrite Zle_Qle. change (inject_Z 0) with 0. lra. }
  assert (Hn : inject_Z (Z.of_nat n) = inject_Z (Qceiling (9000 * r)))
    by (subst n; by rewrite Z2Nat.id).
  pose proof (decay_bound n) as Hb. rewrite Hn in Hb.
  destruct (decay_range n) as [D0 D1].
  assert (H1 : 9000 * r * decay n <= inject_Z (Qceiling (9000 * r)) * decay n)
    by (by apply Qmult_le_compat_r).
  assert (E : decay n * (9 + inject_Z (Qceiling (9000 * r)))
              == 9 * decay n + inject_Z (Qceiling (9000 * r)) * decay n) by ring.
  assert (E2 : 9000 * r * decay n == 9000 * (r * decay n)) by ring.
  lra.
Qed.

Lemma tier_defaults (a : AnnotationGroup) :
  isTier (targets a) ->
  orDefault (targetScale a) 1.0 = targetScale a
  /\ orDefault (targetOpacity a) 0.01 = targetOpacity a.
Proof.
  intros Htier. unfold targets, idleTier, hoveredTier, selectedTier in Htier.
  split; apply orDefault_tier;
    destruct Htier as [H|[H|H]]; injection H as E1 E2;
    rewrite ?E1, ?E2; auto 6.
Qed.

Lemma frame_fixed (a : AnnotationGroup) :
  isTier (targets a) ->
  scaleResidual a <= 0.001 -> opacityResidual a <= 0.001 ->
  animateAnnotation a = a.
Proof.
  intros Htier Hs Ho. destruct (tier_defaults a Htier) as [Es Eo].
  unfold scaleResidual, opacityResidual in *.
  unfold animateAnnotation. rewrite Es.
  destruct (NumFacts.ltb_spec 0.001 (Num.abs (vx (scale a) - targetScale a)));
    [lra|].
  rewrite Eo.
  destruct (NumFacts.ltb_spec 0.001 (Num.abs (fillOpacity a - targetOpacity a)));
    [lra | done].
Qed.

(** One frame multiplies a residual above 0.001 by 0.9 and leaves a residual
    of at most 0.001 as it is. *)
Lemma frame_residuals (a : AnnotationGroup) :
  isTier (targets a) ->
  (0.001 < scaleResidual a ->
     scaleResidual (animateAnnotation a) == 0.9 * scaleResidual a)
  /\ (scaleResidual a <= 0.001 ->
        scaleResidual (animateAnnotation a) == scaleResidual a)
  /\ (0.001 < opacityResidual a ->
        opacityResidual (animateAnnotation a) == 0.9 * opacityResidual a)
  /\ (opacityResidual a <= 0.001 ->
        opacityResidual (animateAnnotation a) == opacityResidual a).
Proof.
  intros Htier.
  destruct (frame_smooths a Htier) as (Ht & Hs1 & Hs2 & Ho1 & Ho2 & _).
  assert (Ets : targetScale (animateAnnotation a) = targetScale a)
    by exact (f_equal fst Ht).
  assert (Eto : targetOpacity (animateAnnotation a) = targetOpacity a)
    by exact (f_equal snd Ht).
  unfold scaleResidual, opacityResidual. rewrite Ets, Eto.
  split; [|split; [|split]].
  - intros H. destruct (Hs1 H) as (E & _). apply abs_shrinks. lra.
  - intros H. by rewrite Hs2.
  - intros H. apply abs_shrinks. specialize (Ho1 H). lra.
  - intros H. by rewrite Ho2.
Qed.

Lemma frames_shift (n : nat) (a : AnnotationGroup) :
  frames (S n) a = frames n (animateAnnotation a).
Proof. unfold frames. by rewrite Nat.iter_succ_r. Qed.

Lemma frames_reach (n : nat) (a : AnnotationGroup) :
  isTier (targets a) ->
  scaleResidual a * decay n <= 0.001 ->
  opacityResidual a * decay n <= 0.001 ->
  scaleResidual (frames n a) <= 0.001 /\ opacityResidual (frames n a) <= 0.001.
Proof.
  revert a. induction n as [|n IH]; intros a Htier Hs Ho.
  - simpl in *. unfold frames. simpl. lra.
  - rewrite frames_shift.
    destruct (frame_residuals a Htier) as (S1 & S2 & O1 & O2).
    destruct (decay_range n) as [D0 D1].
    pose proof (abs_nonneg (vx (scale a) - targetScale a)) as Rs.
    pose proof (abs_nonneg (fillOpacity a - targetOpacity a)) as Ro.
    fold (scaleResidual a) in Rs. fold (opacityResidual a) in Ro.
    cbn [decay] in Hs, Ho.
    apply IH.
    + by rewrite targets_animateAnnotation.
    + destruct (Qlt_le_dec 0.001 (scaleResidual a)) as [Hfar|Hnear].
      * rewrite (S1 Hfar).
        assert (0.9 * scaleResidual a * decay n
                == scaleResidual a * (0.9 * decay n)) by ring.
        lra.
      * rewrite (S2 Hnear).
        assert (scaleResidual a * decay n <= 0.001 * 1)
          by (apply Qmult_le_compat_nonneg; lra).
        lra.
    + destruct (Qlt_le_dec 0.001 (opacityResidual a)) as [Hfar|Hnear].
      * rewrite (O1 Hfar).
        assert (0.9 * opacityResidual a * decay n
                == opacityResidual a * (0.9 * decay n)) by ring.
        lra.
      * rewrite (O2 Hnear).
        assert (opacityResidual a * decay n <= 0.001 * 1)
          by (apply Qmult_le_compat_nonneg; lra).
        lra.
Qed.

Lemma targets_frames (n : nat) (a : AnnotationGroup) :
  targets (frames n a) = targets a.
Proof.
  induction n as [|n IH]; [done|].
  unfold frames in *. simpl. by rewrite targets_animateAnnotation.
Qed.

(** X4. The per-frame smoothing settles: for an annotation whose targets are
    a tier there is a number of frames after which its shown scale and
    opacity no longer change at all, and from then on both are within 0.001
    of their targets (the targets themselves are never touched by a
    frame). *)
Theorem frames_settle (a : AnnotationGroup) :
  isTier (targets a) ->
  exists n, forall m, (n <= m)%nat ->
    frames m a = frames n a
    /\ scaleResidual (frames m a) <= 0.001
    /\ opacityResidual (frames m a) <= 0.001
    /\ targets (frames m a) = targets a.
Proof.
  intros Htier.
  pose proof (abs_nonneg (vx (scale a) - targetScale a)) as Rs.
  pose proof (abs_nonneg (fillOpacity a - targetOpacity a)) as Ro.
  fold (scaleResidual a) in Rs. fold (opacityResidual a) in Ro.
  destruct (decay_small (scaleResidual a + opacityResidual a)) as [n Hn];
    [lra|].
  destruct (decay_range n) as [D0 D1].
  assert (Hs : scaleResidual a * decay n <= 0.001).
  { assert (0 <= opacityResidual a * decay n) by (by apply Qmult_le_0_compat).
    assert ((scaleResidual a + opacityResidual a) * decay n
            == scaleResidual a * decay n + opacityResidual a * decay n) by ring.
    lra. }
  assert (Ho : opacityResidual a * decay n <= 0.001).
  { assert (0 <= scaleResidual a * decay n) by (by apply Qmult_le_0_compat).
    assert ((scaleResidual a + opacityResidual a) * decay n
            == scaleResidual a * decay n + opacityResidual a * decay n) by ring.
    lra. }
  destruct (frames_reach n a Htier Hs Ho) as [Fs Fo].
  assert (Hfix : forall k, frames (k + n) a = frames n a).
  { induction k as [|k IHk]; [done|].
    change (frames (S k + n) a) with (animateAnnotation (frames (k + n) a)).
    rewrite IHk. apply frame_fixed; [by rewrite targets_frames | done..]. }
  exists n. intros m Hm.
  replace m with ((m - n) + n)%nat by lia. rewrite Hfix.
  split; [done|]. split; [done|]. split; [done|]. apply targets_frames.
Qed.

Lemma frames_settle_witness :
  exists a, currentAnnotations Sample.hovering0 !! 0%nat = Some a
  /\ exists n, forall m, (n <= m)%nat ->
       frames m a = frames n a
       /\ scaleResidual (frames m a) <= 0.001
       /\ targets (frames m a) = (1.5, 0.8).
Proof.
  eexists. split; [reflexivity|].
  edestruct frames_settle as [n Hn]; [|exists n; intros m Hm].
  2: { destruct (Hn m Hm) as (E & S & _ & T).
       split; [exact E|]. split; [exact S|exact T]. }
  right; left. reflexivity.
Defined.

(** ** Stage loading: the whole load *)

(** The state when the scene of an accepted load has been added. *)
Lemma loadStage_scene_in (st : State) (index : nat) (stage : Stage) :
  isLoading st = false ->
  constructionStages st !! index = Some stage ->
  let st2 := loadStage_splatSettled true (loadStage index st) in
  currentAnnotations st2 = []
  /\ annotationsList st2 = annotationsList st
  /\ annotationsMenu st2 = annotationsMenu st
  /\ currentAnnotationsData st2 = currentAnnotationsData st
  /\ selectedAnnotationIndex st2 = selectedAnnotationIndex st
  /\ tween st2 = tween st
  /\ constructionStages st2 = constructionStages st
  /\ devOverlayVisible st2 = devOverlayVisible st
  /\ isPanLockActive st2 = panLock stage
  /\ (forall i, hoveredAnnotation st2 <> HoverGroup i)
  /\ isLoading st2 = hasAnnotationsUrl stage
  /\ pending st2
     = (if hasAnnotationsUrl stage then Some (AwaitAnnotations index) else None)
  /\ (hasAnnotationsUrl stage = false ->
      movableDot st2 = Some {| dotPosition := zero3;
                               dotVisible := devOverlayVisible st |}).
Proof.
  intros Hload Hstage. cbv zeta.
  rewrite (loadStage_accepted st index stage) by done.
  unfold loadStage_splatSettled. state_simpl. rewrite Hstage.
  cbn [newViewer startViewer controls camera].
  unfold clearAnnotations, loadStage_finish, createMovableDot. state_simpl.
  destruct (hasAnnotationsUrl stage), (hoveredAnnotation st) eqn:Hh;
    state_simpl; rewrite ?Hh; repeat split; done.
Qed.

(** X5. The loading flag cannot stay set: a [loadStage] call that is
    accepted clears [isLoading] again whichever way the load ends, with no
    stage at the index, with the scene failing to load, with a stage that
    has no annotation file, and with the annotation file arriving or
    failing; the flag is set exactly while one of the two awaits is
    outstanding. *)
Theorem load_always_clears_flag (st : State) (index : nat) :
  isLoading st = false ->
  (constructionStages st !! index = None ->
     isLoading (loadStage index st) = false)
  /\ (forall stage,
        constructionStages st !! index = Some stage ->
        isLoading (loadStage index st) = true
        /\ isLoading (loadStage_splatSettled false (loadStage index st)) = false
        /\ (hasAnnotationsUrl stage = false ->
            isLoading (loadStage_splatSettled true (loadStage index st)) = false)
        /\ (hasAnnotationsUrl stage = true ->
            isLoading (loadStage_splatSettled true (loadStage index st)) = true
            /\ forall result,
                 isLoading (loadStage_annotationsSettled result
                              (loadStage_splatSettled true (loadStage index st)))
                 = false)).
Proof.
  intros Hload. split.
  - intros Hnone. unfold loadStage. rewrite Hload.
    destruct (viewer st) eqn:Hv; state_simpl; rewrite ?Hv; state_simpl;
      by rewrite Hnone.
  - intros stage Hstage.
    destruct (loadStage_scene_in st index stage Hload Hstage)
      as (_ & _ & _ & _ & _ & _ & _ & _ & _ & _ & Hl & Hp & _).
    split; [by rewrite (loadStage_accepted st index stage)|].
    split; [by rewrite (loadStage_accepted st index stage)|].
    split; [intros Hu; by rewrite Hl|].
    intros Hu. split; [by rewrite Hl|].
    intros result. unfold loadStage_annotationsSettled.
    rewrite Hp, Hu. by destruct result.
Qed.

Lemma load_always_clears_flag_witness :
  isLoading (loadStage 5 Sample.loaded) = false
  /\ isLoading (loadStage_splatSettled true (loadStage 1 Sample.loaded)) = false
  /\ isLoading (loadStage_annotationsSettled None
                  (loadStage_splatSettled true (loadStage 0 Sample.loaded)))
     = false.
Proof.
  destruct (load_always_clears_flag Sample.loaded 5) as [H5 _]; [reflexivity|].
  destruct (load_always_clears_flag Sample.loaded 1) as [_ H1]; [reflexivity|].
  destruct (load_always_clears_flag Sample.loaded 0) as [_ H0]; [reflexivity|].
  split; [apply H5; reflexivity|]. split.
  - destruct (H1 Sample.stage1 eq_refl) as (_ & _ & Hno & _).
    apply Hno. reflexivity.
  - destruct (H0 Sample.stage0 eq_refl) as (_ & _ & _ & Hyes).
    destruct (Hyes eq_refl) as [_ Hres]. apply Hres.
Defined.

(** The state at the end of a load that brought no annotations: the stage
    has no annotation file, or the file could not be fetched. *)
Lemma load_without_annotations (st : State) (index : nat) (stage : Stage) :
  isLoading st = false ->
  constructionStages st !! index = Some stage ->
  let st' :=
    if hasAnnotationsUrl stage
    then loadStage_annotationsSettled None
           (loadStage_splatSettled true (loadStage index st))
    else loadStage_splatSettled true (loadStage index st) in
  currentAnnotations st' = []
  /\ annotationsList st' = annotationsList st
  /\ currentAnnotationsData st' = currentAnnotationsData st
  /\ isLoading st' = false
  /\ viewer st'
     = Some {| camera := Some {| position := initialCameraPosition stage |};
               controls := Some (loadedControls stage st);
               viewerStage := index; sceneAdded := true; running := true;
               disposed := false; canvasAttached := true |}.
Proof.
  intros Hload Hstage. cbv zeta.
  destruct (loadStage_scene_in st index stage Hload Hstage)
    as (Hc & Hl & _ & Hd & _ & _ & _ & _ & _ & _ & Hi & Hp & _).
  pose proof (loadStage_then_scene st index stage Hload Hstage) as Hv.
  destruct (hasAnnotationsUrl stage) eqn:Hu; [|done].
  unfold loadStage_annotationsSettled. rewrite Hp.
  unfold loadStage_finish, createMovableDot. state_simpl. done.
Qed.

(** X6. A load that brings no annotations (the stage has no annotation file,
    or its fetch fails) empties the annotation array but leaves the rows of
    the annotations menu, and the stored annotation data, as the previous
    stage built them.  A click on such a stale row then records its index,
    highlights nothing (there is no annotation to highlight), and still
    starts a camera move from the new stage's initial pose to the camera
    pose of the old entry. *)
Theorem stale_rows_after_load (st : State) (index : nat) (stage : Stage)
    (rows : list AnnotationData) :
  isLoading st = false ->
  constructionStages st !! index = Some stage ->
  annotationsList st = Some rows ->
  let st' :=
    if hasAnnotationsUrl stage
    then loadStage_annotationsSettled None
           (loadStage_splatSettled true (loadStage index st))
    else loadStage_splatSettled true (loadStage index st) in
  currentAnnotations st' = []
  /\ annotationsList st' = Some rows
  /\ currentAnnotationsData st' = currentAnnotationsData st
  /\ forall i d p l now,
       rows !! i = Some d -> cameraPos d = Some p -> cameraLookAt d = Some l ->
       exists st'',
         onRowClick rows i now st' = Returned st''
         /\ currentAnnotations st'' = []
         /\ selectedAnnotationIndex st'' = Z.of_nat i
         /\ tween st''
            = {| camMoveActive := true; camMoveStart := now;
                 camMoveDuration := 1500;
                 camStartPos := initialCameraPosition stage;
                 camStartTarget := initialCameraLookAt stage;
                 camTargetPos := p; camTargetTarget := l |}.
Proof.
  intros Hload Hstage Hrows st'.
  destruct (load_without_annotations st index stage Hload Hstage)
    as (Hc & Hl & Hd & _ & Hv).
  fold st' in Hc, Hl, Hd, Hv. rewrite Hrows in Hl.
  split; [done|]. split; [done|]. split; [done|].
  intros i d p l now Hi Hp Hlk.
  unfold onRowClick, highlightAnnotation, resetAllTargets. state_simpl.
  rewrite Hl, Hc. simpl. rewrite at_index_nat. simpl.
  rewrite Hi, Hp, Hlk. eexists. split; [reflexivity|].
  unfold moveCameraTo. state_simpl. rewrite Hv. simpl.
  repeat split.
  unfold loadedControls, applyStageZoom.
  by destruct (minZoom stage), (maxZoom stage), (zoomLockEnabled st).
Qed.

Lemma stale_rows_after_load_witness :
  let st' := loadStage_splatSettled true (loadStage 1 Sample.loaded) in
  currentAnnotations st' = []
  /\ annotationsList st' = Some [Sample.anno0; Sample.anno1]
  /\ exists st'',
       onRowClick [Sample.anno0; Sample.anno1] 0 9000 st' = Returned st''
       /\ currentAnnotations st'' = []
       /\ selectedAnnotationIndex st'' = 0%Z
       /\ camTargetPos (tween st'') = Vec3 0 0 5.
Proof.
  intros st'.
  destruct (stale_rows_after_load Sample.loaded 1 Sample.stage1
              [Sample.anno0; Sample.anno1])
    as (Hc & Hl & _ & Hclick); [reflexivity | reflexivity | reflexivity |].
  split; [exact Hc|]. split; [exact Hl|].
  destruct (Hclick 0%nat Sample.anno0 (Vec3 0 0 5) (Vec3 1 0 0) 9000)
    as (st'' & E & Hc' & Hs & Ht); [reflexivity | reflexivity | reflexivity |].
  exists st''. split; [exact E|]. split; [exact Hc'|]. split; [exact Hs|].
  rewrite Ht. reflexivity.
Defined.

(** X7. A load that brings annotation data replaces the annotation array by
    one fresh group per entry, in the order of the file: each has the
    entry's title and position and starts idle (targets 1.0 / 0.01, scale 1,
    opacity 0.01), so nothing of the previous stage's hover or selection
    look carries over, and no group is tracked as hovered.  The menu rows
    (when the list element exists) and the stored data are rebuilt from the
    same entries, and the marker is back at the origin.  The selected index
    itself is not reset by a load. *)
Theorem load_replaces_annotations (st : State) (index : nat) (stage : Stage)
    (data : list AnnotationData) :
  isLoading st = false ->
  constructionStages st !! index = Some stage ->
  hasAnnotationsUrl stage = true ->
  let st' := loadStage_annotationsSettled (Some data)
               (loadStage_splatSettled true (loadStage index st)) in
  length (currentAnnotations st') = length data
  /\ (forall i d, data !! i = Some d ->
        exists a, currentAnnotations st' !! i = Some a
          /\ title a = dataTitle d /\ groupPosition a = pos d
          /\ targets a = (1.0, 0.01)
          /\ scale a = Vec3 1 1 1 /\ fillOpacity a = 0.01)
  /\ currentAnnotationsData st' = data
  /\ annotationsList st' = (fun _ => data) <$> annotationsList st
  /\ (forall i, hoveredAnnotation st' <> HoverGroup i)
  /\ movableDot st' = Some {| dotPosition := zero3;
                              dotVisible := devOverlayVisible st |}
  /\ selectedAnnotationIndex st' = selectedAnnotationIndex st
  /\ isLoading st' = false.
Proof.
  intros Hload Hstage Hurl st'.
  destruct (loadStage_scene_in st index stage Hload Hstage)
    as (Hc & Hl & _ & Hd & Hs & _ & _ & Hdev & _ & Hh & _ & Hp & _).
  rewrite Hurl in Hp.
  assert (E : st' = loadStage_finish
                      (populateAnnotationsMenu data
                         (set_currentAnnotations (newGroup <$> data)
                            (loadStage_splatSettled true (loadStage index st))))).
  { subst st'. unfold loadStage_annotationsSettled. by rewrite Hp. }
  rewrite E. unfold loadStage_finish, createMovableDot, populateAnnotationsMenu.
  state_simpl. rewrite Hl.
  destruct (annotationsList st) as [rows|] eqn:Hrows; state_simpl;
    rewrite ?Hdev, ?Hs.
  all: split; [by rewrite length_fmap|].
  all: split; [|repeat split; done].
  all: intros i d Hi; exists (newGroup d);
    by rewrite list_lookup_fmap, Hi.
Qed.

Lemma load_replaces_annotations_witness :
  let st' := loadStage_annotationsSettled (Some [Sample.anno1])
               (loadStage_splatSettled true
                  (loadStage 0 Sample.selected0)) in
  length (currentAnnotations st') = 1%nat
  /\ targetsAt 0 st' = Some (1.0, 0.01)
  /\ selectedAnnotationIndex st' = 0%Z.
Proof.
  intros st'.
  destruct (load_replaces_annotations Sample.selected0 0 Sample.stage0
              [Sample.anno1])
    as (Hlen & Hall & _ & _ & _ & _ & Hsel & _);
    [reflexivity | reflexivity | reflexivity |].
  split; [exact Hlen|]. split; [|exact Hsel].
  destruct (Hall 0%nat Sample.anno1 eq_refl) as (a & Ha & _ & _ & Ht & _).
  subst st'. unfold targetsAt. rewrite Ha. simpl. by rewrite Ht.
Defined.

(** ** Pointer-down: the two ways it can go *)

(** The annotation listener either leaves the state alone and lets the event
    through, or disables the orbit controls, opens the menu and selects the
    annotation under the pointer. *)
Lemma onAnnotationPointerDown_shape (ev : PointerEvent) (now : Q) (st : State) :
  onAnnotationPointerDown ev now st = pass st
  \/ exists i,
       intersectedGroup ev st = Some i
       /\ after (onAnnotationPointerDown ev now st)
          = final (toggleAnnotationsMenu true (setControlsEnabled false st)
                   >>> highlightAnnotation (Z.of_nat i) false now).
Proof.
  unfold onAnnotationPointerDown.
  repeat case_match; try (by left); right; eexists; (split; [done|]);
    simpl; by match goal with E : _ >>> _ = _ |- _ => rewrite E end.
Qed.

(** ** The marker *)

Section MarkerFrame.

(** Handlers that leave the marker and the dev overlay flag alone. *)
Let keepsDot (st st' : State) : Prop :=
  movableDot st' = movableDot st /\ devOverlayVisible st' = devOverlayVisible st.

Ltac dot_crush :=
  repeat first [ progress state_simpl | case_match ]; try done;
  try (simplify_eq/=; congruence).

Lemma dot_moveCameraTo p l d now st : keepsDot st (moveCameraTo p l d now st).
Proof. unfold keepsDot, moveCameraTo. dot_crush. Qed.

Lemma dot_setControlsEnabled b st : keepsDot st (setControlsEnabled b st).
Proof. unfold keepsDot, setControlsEnabled. dot_crush. Qed.

Lemma dot_animate now st : keepsDot st (animate now st).
Proof.
  unfold keepsDot, animate, stepAnnotations, stepPanLock, stepCameraMove,
    controls_update.
  dot_crush.
Qed.

Lemma dot_onAnnotationHover ev st : keepsDot st (onAnnotationHover ev st).
Proof.
  unfold keepsDot, onAnnotationHover, write_hovered, write_targets. dot_crush.
Qed.

Lemma dot_toggleAnnotationsMenu show st :
  keepsDot st (final (toggleAnnotationsMenu show st)).
Proof.
  unfold keepsDot, toggleAnnotationsMenu, resetAllTargets,
    populateAnnotationsMenu.
  dot_crush.
Qed.

Lemma dot_highlightAnnotation index showModal now st :
  keepsDot st (final (highlightAnnotation index showModal now st)).
Proof.
  unfold keepsDot, highlightAnnotation, resetAllTargets, write_targets,
    moveCameraTo.
  dot_crush.
Qed.

Lemma dot_onRowClick rows i now st :
  keepsDot st (final (onRowClick rows i now st)).
Proof.
  unfold onRowClick.
  pose proof (dot_highlightAnnotation (Z.of_nat i) false now st) as [H1 H2].
  destruct (highlightAnnotation _ _ _ _) as [s|s]; simpl in *; [|done].
  unfold keepsDot in *. rewrite <- H1, <- H2.
  unfold moveCameraTo. dot_crush.
Qed.

Lemma keepsDot_trans st1 st2 st3 :
  keepsDot st1 st2 -> keepsDot st2 st3 -> keepsDot st1 st3.
Proof. intros [A1 A2] [B1 B2]. split; congruence. Qed.

Lemma dot_onAnnotationPointerDown ev now st :
  keepsDot st (after (onAnnotationPointerDown ev now st)).
Proof.
  destruct (onAnnotationPointerDown_shape ev now st) as [->|(i & _ & ->)];
    [by split|].
  eapply keepsDot_trans; [apply (dot_setControlsEnabled false)|].
  pose proof (dot_toggleAnnotationsMenu true (setControlsEnabled false st)) as Ht.
  destruct (toggleAnnotationsMenu true (setControlsEnabled false st)) as [s1|s1];
    simpl in *; [|done].
  eapply keepsDot_trans; [exact Ht|]. apply dot_highlightAnnotation.
Qed.

Lemma dotSynced_keeps st st' : keepsDot st st' -> dotSynced st -> dotSynced st'.
Proof. intros [H1 H2]. unfold dotSynced. by rewrite H1, H2. Qed.

Lemma dotSynced_step i st : dotSynced st -> dotSynced (step i st).
Proof.
  intros H. destruct i; simpl.
  - eapply dotSynced_keeps; [apply dot_animate | done].
  - unfold pointerMove.
    assert (Hm : dotSynced (onDotPointerMove ev st)).
    { unfold onDotPointerMove, dotSynced in *.
      dot_crush; simplify_eq/=; congruence. }
    case_match; [|done].
    eapply dotSynced_keeps; [apply dot_onAnnotationHover | done].
  - unfold pointerDown.
    pose proof (dot_onAnnotationPointerDown ev now st) as Ha.
    apply (dotSynced_keeps st) in Ha; [|done].
    case_match; [done|].
    unfold onDotPointerDown.
    repeat case_match; try done; simpl.
    eapply dotSynced_keeps; [apply dot_setControlsEnabled|].
    unfold dotSynced in *. by state_simpl.
  - unfold pointerUp.
    unfold dotSynced. state_simpl.
    destruct (dot_setControlsEnabled true st) as [-> ->]. exact H.
  - case_match; [|done].
    eapply dotSynced_keeps; [apply dot_toggleAnnotationsMenu | done].
  - case_match; [|done].
    eapply dotSynced_keeps; [apply dot_toggleAnnotationsMenu | done].
  - unfold onRowMouseEnter, write_targets, dotSynced in *. dot_crush.
  - unfold onRowMouseLeave, write_targets, dotSynced in *. dot_crush.
  - case_match; [|done]. eapply dotSynced_keeps; [apply dot_onRowClick | done].
  - unfold setZoomLock, dotSynced in *. dot_crush.
  - unfold clearZoomLock, dotSynced in *. dot_crush.
  - unfold onDevButtonClick, dotSynced in *. dot_crush.
  - unfold updateDotPosition, dotSynced in *.
    dot_crush; simplify_eq/=; congruence.
  - unfold initializeAnnotationsMenu, dotSynced in *. dot_crush.
  - unfold loadStage, loadStage_fail, dotSynced in *. dot_crush.
  - unfold loadStage_splatSettled, loadStage_fail, loadStage_finish,
      clearAnnotations, createMovableDot, dotSynced in *.
    dot_crush.
  - unfold loadStage_annotationsSettled, loadStage_finish, createMovableDot,
      populateAnnotationsMenu, dotSynced in *.
    dot_crush.
Qed.

Lemma dotSynced_reachable st : reachable st -> dotSynced st.
Proof.
  induction 1 as [|stages menuEl listEl st _ IH _|i st _ IH].
  - done.
  - unfold init, loadStage, loadStage_fail, initializeAnnotationsMenu,
      dotSynced in *.
    dot_crush.
  - by apply dotSynced_step.
Qed.

End MarkerFrame.

(** X8. The marker is shown exactly when the dev overlay is: in every state
    the page can reach, an existing marker's [visible] equals
    [devOverlayVisible] (stage loads recreate the marker with the current
    flag, drags and coordinate edits keep it).  Hence two clicks on the dev
    button bring the page back to the state it was in. *)
Theorem marker_follows_dev_overlay (st : State) :
  reachable st ->
  dotSynced st /\ onDevButtonClick (onDevButtonClick st) = st.
Proof.
  intros Hr. pose proof (dotSynced_reachable st Hr) as Hs.
  split; [done|].
  unfold onDevButtonClick, dotSynced in *. destruct st as [].
  state_simpl.
  destruct movableDot0 as [[dp dv]|]; state_simpl; simpl in *;
    rewrite ?negb_involutive; by subst.
Qed.

Lemma marker_follows_dev_overlay_witness :
  dotSynced (onDevButtonClick Sample.loaded)
  /\ onDevButtonClick (onDevButtonClick (onDevButtonClick Sample.loaded))
     = onDevButtonClick Sample.loaded.
Proof.
  apply (marker_follows_dev_overlay (onDevButtonClick Sample.loaded)).
  apply (reach_step DevButtonClick).
  exact (reachable_run
           [SplatSettled true;
            AnnotationsSettled (Some [Sample.anno0; Sample.anno1])] _
           (reach_init Sample.stages true true initialState
              reach_start eq_refl)).
Defined.

Lemma movableDot_onAnnotationHover ev st :
  movableDot (onAnnotationHover ev st) = movableDot st.
Proof.
  unfold onAnnotationHover, write_hovered, write_targets.
  repeat first [ progress state_simpl | case_match ]; done.
Qed.

Lemma movableDot_setControlsEnabled b st :
  movableDot (setControlsEnabled b st) = movableDot st.
Proof. unfold setControlsEnabled. by repeat case_match. Qed.

(** X9. The marker moves only during a drag.  While no drag is in progress,
    and in particular after any pointer-up, a pointer-move leaves the marker
    where it is.  During a drag a pointer-move whose ray meets the drag
    plane puts the marker exactly on the intersection point (keeping its
    visibility), and one whose ray misses the plane leaves it in place. *)
Theorem marker_moves_only_while_dragging (ev : PointerEvent)
    (hoverRuns : bool) (st : State) :
  (isDraggingDot st = false ->
     movableDot (pointerMove ev hoverRuns st) = movableDot st)
  /\ movableDot (pointerMove ev hoverRuns (pointerUp st)) = movableDot st
  /\ (forall v cam d,
        isDraggingDot st = true ->
        viewer st = Some v -> camera v = Some cam -> movableDot st = Some d ->
        (forall dragPoint,
           rayOnDragPlane ev = Some dragPoint ->
           movableDot (pointerMove ev hoverRuns st)
           = Some {| dotPosition := dragPoint; dotVisible := dotVisible d |})
        /\ (rayOnDragPlane ev = None ->
            movableDot (pointerMove ev hoverRuns st) = Some d)).
Proof.
  assert (Hm : forall s, movableDot (pointerMove ev hoverRuns s)
                         = movableDot (onDotPointerMove ev s)).
  { intros s. unfold pointerMove.
    destruct hoverRuns; [apply movableDot_onAnnotationHover | done]. }
  split; [|split].
  - intros Hd. rewrite Hm. unfold onDotPointerMove. by rewrite Hd.
  - rewrite Hm. unfold onDotPointerMove, pointerUp. state_simpl.
    apply movableDot_setControlsEnabled.
  - intros v cam d Hd Hv Hcam Hdot. split.
    + intros dragPoint Hray. rewrite Hm. unfold onDotPointerMove.
      by rewrite Hd, Hv, Hcam, Hdot, Hray.
    + intros Hray. rewrite Hm. unfold onDotPointerMove.
      by rewrite Hd, Hv, Hcam, Hdot, Hray.
Qed.

Lemma marker_moves_only_while_dragging_witness :
  let grab := Sample.pointerAt 400 300 true None in
  let move := {| clientX := 410; clientY := 300; rect := Sample.box;
                 targetInMobileMenu := false; rayHitsDot := false;
                 rayAnnotation := None;
                 rayOnDragPlane := Some (Vec3 1 2 3) |} in
  let dragging := pointerDown grab 1000 Sample.loaded in
  (dotPosition <$> movableDot (pointerMove move true dragging))
    = Some (Vec3 1 2 3)
  /\ movableDot (pointerMove move true Sample.loaded)
     = movableDot Sample.loaded.
Proof.
  intros grab move dragging. split.
  - destruct (marker_moves_only_while_dragging move true dragging)
      as (_ & _ & Hdrag).
    edestruct Hdrag as [Hhit _];
      [reflexivity | reflexivity | reflexivity | reflexivity |].
    rewrite (Hhit (Vec3 1 2 3)); reflexivity.
  - destruct (marker_moves_only_while_dragging move true Sample.loaded)
      as (Hidle & _).
    apply Hidle. reflexivity.
Defined.

(** ** Pointer-down: when nothing is selected, and when something is *)

Lemma pass_when_nothing_to_select (ev : PointerEvent) (now : Q) (st : State) :
  (viewer st = None
   \/ (exists v, viewer st = Some v /\ camera v = None)
   \/ targetInMobileMenu ev = true
   \/ inButtonArea ev = true
   \/ (dotVisibleNow st = true /\ rayHitsDot ev = true)
   \/ intersectedGroup ev st = None
   \/ (exists i g, intersectedGroup ev st = Some i
                   /\ currentAnnotations st !! i = Some g
                   /\ truthy (title g) = false)) ->
  onAnnotationPointerDown ev now st = pass st.
Proof.
  intros H. unfold onAnnotationPointerDown.
  destruct (viewer st) as [v|] eqn:Hv; [|done].
  destruct (camera v) as [cam|] eqn:Hcam; [|done].
  destruct (targetInMobileMenu ev) eqn:Hm; [done|].
  destruct (inButtonArea ev) eqn:Hb; [done|].
  destruct (dotVisibleNow st && rayHitsDot ev) eqn:Hd; [done|].
  destruct (intersectedGroup ev st) as [i|] eqn:Hi; [|done].
  destruct (currentAnnotations st !! i) as [g|] eqn:Hg; [|done].
  destruct (truthy (title g)) eqn:Ht; [|done].
  destruct H as [H|[(v' & H1 & H2)|[H|[H|[[H1 H2]|[H|(i' & g' & H1 & H2 & H3)]]]]]];
    simplify_eq/=; try done.
  - by rewrite H1, H2 in Hd.
  - congruence.
Qed.

(** X10. A pointer-down selects nothing whenever one of these holds: there is
    no viewer or no camera yet, the event target is inside the stages menu,
    the pointer is in the reserved top-right zone (less than 150 px from the
    right edge and less than 80 px from the top), the visible marker is
    under the pointer, no annotation is under the pointer, or the annotation
    under the pointer has an empty title.  The annotation listener then
    changes nothing and lets the event through to the marker listener, so
    the annotations, the selected index, the menu and the camera tween are
    as they were. *)
Theorem pointer_down_without_selection (ev : PointerEvent) (now : Q)
    (st : State) :
  (viewer st = None
   \/ (exists v, viewer st = Some v /\ camera v = None)
   \/ targetInMobileMenu ev = true
   \/ inButtonArea ev = true
   \/ (dotVisibleNow st = true /\ rayHitsDot ev = true)
   \/ intersectedGroup ev st = None
   \/ (exists i g, intersectedGroup ev st = Some i
                   /\ currentAnnotations st !! i = Some g
                   /\ truthy (title g) = false)) ->
  let st' := pointerDown ev now st in
  stopped (onAnnotationPointerDown ev now st) = false
  /\ st' = after (onDotPointerDown ev st)
  /\ currentAnnotations st' = currentAnnotations st
  /\ selectedAnnotationIndex st' = selectedAnnotationIndex st
  /\ annotationsMenu st' = annotationsMenu st
  /\ annotationsList st' = annotationsList st
  /\ hoveredAnnotation st' = hoveredAnnotation st
  /\ tween st' = tween st.
Proof.
  intros H st'. subst st'. unfold pointerDown.
  rewrite (pass_when_nothing_to_select ev now st H). simpl.
  split; [done|]. split; [done|].
  unfold onDotPointerDown, setControlsEnabled.
  repeat first [ progress state_simpl | case_match ]; done.
Qed.

Lemma pointer_down_without_selection_witness :
  let corner := Sample.pointerAt 700 40 false (Some 0%nat) in
  inButtonArea corner = true
  /\ selectedAnnotationIndex (pointerDown corner 1000 Sample.loaded) = (-1)%Z
  /\ currentAnnotations (pointerDown corner 1000 Sample.loaded)
     = currentAnnotations Sample.loaded.
Proof.
  intros corner.
  destruct (pointer_down_without_selection corner 1000 Sample.loaded)
    as (_ & _ & Hc & Hs & _).
  - right; right; right; left. reflexivity.
  - split; [reflexivity|]. split; [exact Hs | exact Hc].
Defined.

Lemma toggle_show_effect (st : State) (m : bool) :
  annotationsMenu st = Some m ->
  exists st1,
    toggleAnnotationsMenu true st = Returned st1
    /\ annotationsMenu st1 = Some true
    /\ viewer st1 = viewer st
    /\ currentAnnotations st1 = currentAnnotations st
    /\ currentAnnotationsData st1 = currentAnnotationsData st
    /\ isDraggingDot st1 = isDraggingDot st
    /\ tween st1 = tween st
    /\ (is_Some (annotationsList st) -> is_Some (annotationsList st1)).
Proof.
  intros Hm. unfold toggleAnnotationsMenu, populateAnnotationsMenu.
  rewrite Hm. state_simpl.
  destruct (annotationsList st) as [[|r rows]|] eqn:Hl; state_simpl;
    [case_decide|..]; state_simpl; rewrite ?Hl;
    eexists; (split; [reflexivity|]); state_simpl; repeat split;
    try done; by eexists.
Qed.

Lemma tween_moveCameraTo_viewer p l d now s s' :
  viewer s' = viewer s -> tween s' = tween s ->
  tween (moveCameraTo p l d now s') = tween (moveCameraTo p l d now s).
Proof.
  intros Hv Ht. unfold moveCameraTo. rewrite Hv.
  repeat case_match; state_simpl; done.
Qed.

Lemma highlight_effect (i : nat) (now : Q) (st : State)
    (rows : list AnnotationData) (a : AnnotationGroup) :
  annotationsList st = Some rows ->
  currentAnnotations st !! i = Some a ->
  exists st',
    highlightAnnotation (Z.of_nat i) false now st = Returned st'
    /\ currentAnnotations st'
       = alter (set_targets 2.0 1.0) i
           (set_targets 1.0 0.01 <$> currentAnnotations st)
    /\ selectedAnnotationIndex st' = Z.of_nat i
    /\ viewer st' = viewer st
    /\ annotationsMenu st' = annotationsMenu st
    /\ isDraggingDot st' = isDraggingDot st
    /\ tween st'
       = match currentAnnotationsData st !! i with
         | Some d =>
             match cameraPos d, cameraLookAt d with
             | Some p, Some l => tween (moveCameraTo p l defaultDuration now st)
             | _, _ => tween st
             end
         | None => tween st
         end.
Proof.
  intros Hrows Ha.
  unfold highlightAnnotation, resetAllTargets, write_targets. state_simpl.
  rewrite Hrows, !at_index_nat, Nat2Z.id, list_lookup_fmap, Ha. simpl.
  eexists. split; [reflexivity|].
  destruct (currentAnnotationsData st !! i) as [d|]; [|by repeat split].
  destruct (cameraPos d) as [p|], (cameraLookAt d) as [l|];
    try (by repeat split).
  unfold moveCameraTo. state_simpl.
  repeat case_match; state_simpl; by repeat split.
Qed.

(** X11. A pointer-down over a titled annotation (outside the reserved
    zones, with no visible marker under the pointer, and with the menu
    elements present) selects it: the listener stops the event, so the
    marker listener does not run and no drag starts; the orbit controls are
    disabled until the next pointer-up; the annotations menu is open; the
    selected index is the index of the annotation; the annotation is at the
    selected tier and every other one at the idle tier; and a camera move
    from the current pose to the annotation's camera pose starts exactly when
    its data entry has both [cameraPos] and [cameraLookAt]. *)
Theorem annotation_click_selects (ev : PointerEvent) (now : Q) (st : State)
    (v : Viewer) (cam : Camera) (ctl : OrbitControls) (m : bool)
    (rows : list AnnotationData) (i : nat) (g : AnnotationGroup) :
  viewer st = Some v -> camera v = Some cam -> controls v = Some ctl ->
  annotationsMenu st = Some m -> annotationsList st = Some rows ->
  targetInMobileMenu ev = false -> inButtonArea ev = false ->
  dotVisibleNow st && rayHitsDot ev = false ->
  intersectedGroup ev st = Some i ->
  currentAnnotations st !! i = Some g -> truthy (title g) = true ->
  let st' := pointerDown ev now st in
  stopped (onAnnotationPointerDown ev now st) = true
  /\ selectedAnnotationIndex st' = Z.of_nat i
  /\ (forall j, (j < length (currentAnnotations st))%nat ->
        targetsAt j st'
        = Some (if decide (j = i) then (2.0, 1.0) else (1.0, 0.01)))
  /\ annotationsMenu st' = Some true
  /\ viewer st' = Some (set_controls (Some (set_enabled false ctl)) v)
  /\ isDraggingDot st' = isDraggingDot st
  /\ tween st'
     = match currentAnnotationsData st !! i with
       | Some {| cameraPos := Some p; cameraLookAt := Some l |} =>
           {| camMoveActive := true; camMoveStart := now;
              camMoveDuration := 1500;
              camStartPos := position cam; camStartTarget := target ctl;
              camTargetPos := p; camTargetTarget := l |}
       | _ => tween st
       end.
Proof.
  intros Hv Hcam Hctl Hm Hrows Hmob Hbtn Hdot Hi Hg Ht st'.
  set (s0 := setControlsEnabled false st).
  assert (Hs0 : s0 = set_viewer (Some (set_controls (Some (set_enabled false ctl)) v)) st).
  { subst s0. unfold setControlsEnabled. by rewrite Hv, Hctl. }
  destruct (toggle_show_effect s0 m) as (s1 & E1 & M1 & V1 & C1 & D1 & G1 & T1 & L1);
    [by rewrite Hs0|].
  destruct L1 as [rows1 Hrows1]; [rewrite Hs0; by eexists|].
  destruct (highlight_effect i now s1 rows1 g Hrows1) as
    (s2 & E2 & C2 & S2 & V2 & M2 & G2 & T2);
    [rewrite C1, Hs0; exact Hg|].
  assert (Ha : onAnnotationPointerDown ev now st = claim s2).
  { unfold onAnnotationPointerDown.
    rewrite Hv, Hcam, Hmob, Hbtn, Hdot, Hi, Hg, Ht.
    fold s0. rewrite E1. simpl. by rewrite E2. }
  assert (Hst' : st' = s2) by (subst st'; unfold pointerDown; by rewrite Ha).
  rewrite Ha, Hst'. split; [done|]. split; [done|].
  split; [|split; [congruence|split; [|split]]].
  - intros j Hj. unfold targetsAt. rewrite C2, C1, Hs0. state_simpl.
    destruct (lookup_lt_is_Some_2 (alter (set_targets 2.0 1.0) i
                (set_targets 1.0 0.01 <$> currentAnnotations st)) j) as [a Ha'];
      [by rewrite length_alter, length_fmap|].
    rewrite Ha'. simpl. f_equal.
    apply lookup_selected in Ha'. unfold selectedTier, idleTier in Ha'.
    by repeat case_decide.
  - by rewrite V2, V1, Hs0.
  - by rewrite G2, G1, Hs0.
  - rewrite T2, D1, Hs0. state_simpl.
    destruct (currentAnnotationsData st !! i) as [[dp dt dd [p|] [l|]]|];
      simpl; try (by rewrite T1, Hs0).
    rewrite (tween_moveCameraTo_viewer p l defaultDuration now s0 s1 V1 T1).
    rewrite Hs0. unfold moveCameraTo. state_simpl.
    cbn [camera controls set_controls set_enabled target]. by rewrite Hcam.
Qed.

Lemma annotation_click_selects_witness :
  let ev := Sample.pointerAt 400 300 true (Some 0%nat) in
  let st' := pointerDown ev 1000 Sample.loaded in
  selectedAnnotationIndex st' = 0%Z
  /\ targetsAt 0 st' = Some (2.0, 1.0) /\ targetsAt 1 st' = Some (1.0, 0.01)
  /\ isDraggingDot st' = false
  /\ camTargetPos (tween st') = Vec3 0 0 5.
Proof.
  intros ev st'.
  edestruct (annotation_click_selects ev 1000 Sample.loaded)
    as (_ & Hs & Ht & _ & _ & Hd & Htw);
    [reflexivity | reflexivity | reflexivity | reflexivity | reflexivity
    | reflexivity | reflexivity | reflexivity | reflexivity | reflexivity
    | reflexivity |].
  split; [exact Hs|].
  split; [apply (Ht 0%nat); vm_compute; lia|].
  split; [apply (Ht 1%nat); vm_compute; lia|].
  split; [exact Hd|].
  subst st'. rewrite Htw. reflexivity.
Defined.

(** ** Hover tracking *)

(** X12. After a pointer-move inside the viewport has been processed (with a
    viewer and camera present), the tracked hovered annotation is exactly
    the annotation under the pointer, or none when the pointer is over no
    annotation.  An annotation that was tracked and is no longer under the
    pointer gets the idle targets, and the targets of every annotation that
    is neither the old nor the new hovered one are untouched. *)
Theorem hover_tracks_pointer (ev : PointerEvent) (st : State)
    (v : Viewer) (cam : Camera) :
  viewer st = Some v -> camera v = Some cam ->
  outsideRect ev = false ->
  let st' := onAnnotationHover ev st in
  hoveredAnnotation st'
  = match intersectedGroup ev st with
    | Some i => HoverGroup i
    | None => HoverNone
    end
  /\ (forall j,
        hoveredAnnotation st = HoverGroup j ->
        intersectedGroup ev st <> Some j ->
        (j < length (currentAnnotations st))%nat ->
        targetsAt j st' = Some (1.0, 0.01))
  /\ (forall k,
        hoveredAnnotation st <> HoverGroup k ->
        intersectedGroup ev st <> Some k ->
        targetsAt k st' = targetsAt k st)
  /\ length (currentAnnotations st') = length (currentAnnotations st).
Proof.
  intros Hv Hcam Hout st'. subst st'. unfold onAnnotationHover.
  rewrite Hout, Hv, Hcam.
  unfold write_hovered, write_targets, targetsAt.
  destruct (hoveredAnnotation st) as [|h|] eqn:Hh,
           (intersectedGroup ev st) as [i|] eqn:Hi;
    simpl; state_simpl; rewrite ?Hh; simpl; state_simpl;
    try (destruct (decide (h = i)) as [->|Hne];
         [rewrite bool_decide_true by done | rewrite bool_decide_false by done]);
    simpl; state_simpl; rewrite ?Hh; simpl; state_simpl;
    rewrite ?bool_decide_true by done; simpl; state_simpl.
  all: split; [done|].
  all: split; [|split; [|by rewrite ?length_alter]].
  all: try (intros j Hj; by simplify_eq).
  all: try (intros j Hj Hn Hlen; simplify_eq;
            destruct (lookup_lt_is_Some_2 _ _ Hlen) as [a Ha];
            rewrite ?list_lookup_alter_ne by congruence;
            rewrite list_lookup_alter_eq, Ha; done).
  all: intros k Hk Hn;
    rewrite ?list_lookup_alter_ne by congruence; done.
Qed.

Lemma hover_tracks_pointer_witness :
  let to1 := Sample.pointerAt 200 300 false (Some 1%nat) in
  let st' := onAnnotationHover to1 Sample.hovering0 in
  hoveredAnnotation st' = HoverGroup 1
  /\ targetsAt 0 st' = Some (1.0, 0.01).
Proof.
  intros to1 st'.
  edestruct (hover_tracks_pointer to1 Sample.hovering0) as (Hh & Hold & _);
    [reflexivity | reflexivity | reflexivity |].
  split; [exact Hh|].
  apply (Hold 0%nat); [reflexivity | discriminate | vm_compute; lia].
Defined.

(** ** The annotations menu *)

(** X13. Annotation data that arrives while the list element of the menu is
    still missing is not lost: it is stored, and once the element has been
    found the first opening of the menu builds the rows from it, one row
    per entry. *)
Theorem menu_rows_built_on_first_open (data : list AnnotationData)
    (st : State) :
  annotationsList st = None ->
  data <> [] ->
  let st1 := populateAnnotationsMenu data st in
  let st2 := initializeAnnotationsMenu true true st1 in
  annotationsList st1 = None
  /\ currentAnnotationsData st1 = data
  /\ annotationsList st2 = Some []
  /\ exists st3,
       toggleAnnotationsMenu true st2 = Returned st3
       /\ annotationsList st3 = Some data
       /\ annotationsMenu st3 = Some true
       /\ forall i, rowExists i st3 = bool_decide (i < length data)%nat.
Proof.
  intros Hnone Hdata st1 st2.
  assert (H1 : annotationsList st1 = None)
    by (subst st1; unfold populateAnnotationsMenu; state_simpl; by rewrite Hnone).
  assert (H2 : currentAnnotationsData st1 = data)
    by (subst st1; unfold populateAnnotationsMenu; state_simpl; by rewrite Hnone).
  split; [done|]. split; [done|].
  assert (H3 : annotationsList st2 = Some [])
    by (subst st2; unfold initializeAnnotationsMenu; state_simpl; by rewrite H1).
  split; [done|].
  unfold toggleAnnotationsMenu.
  assert (Hm : annotationsMenu st2 = Some (default false (annotationsMenu st1)))
    by done.
  rewrite Hm. state_simpl. rewrite H3.
  assert (Hd : currentAnnotationsData st2 = data) by done.
  rewrite Hd. destruct data as [|d data]; [done|].
  rewrite decide_True by (simpl; lia).
  eexists. split; [reflexivity|].
  unfold populateAnnotationsMenu, rowExists. state_simpl. rewrite H3.
  state_simpl. done.
Qed.

Lemma menu_rows_built_on_first_open_witness :
  exists st3,
    toggleAnnotationsMenu true
      (initializeAnnotationsMenu true true
         (populateAnnotationsMenu [Sample.anno0; Sample.anno1] initialState))
    = Returned st3
    /\ annotationsList st3 = Some [Sample.anno0; Sample.anno1].
Proof.
  destruct (menu_rows_built_on_first_open [Sample.anno0; Sample.anno1]
              initialState)
    as (_ & _ & _ & st3 & E & Hl & _); [reflexivity | discriminate |].
  exists st3. split; [exact E | exact Hl].
Defined.

(** X14. [highlightAnnotation] raises in exactly two situations: the list
    element of the menu is missing, or it is called with [showModal] true for
    an index that has both an annotation and a data entry (inside the
    function the parameter hides the function [showModal], so the modal is
    never shown).  Whether it raises or not, the index has been recorded as
    the selected index by then and no annotation other than the one at the
    index is left above the idle tier. *)
Theorem highlight_raises_iff (index : Z) (showModal : bool) (now : Q)
    (st : State) :
  let o := highlightAnnotation index showModal now st in
  ((exists s, o = Threw s)
   <-> annotationsList st = None
       \/ (showModal = true
           /\ is_Some (at_index (currentAnnotations st) index)
           /\ is_Some (at_index (currentAnnotationsData st) index)))
  /\ selectedAnnotationIndex (final o) = index
  /\ (forall j a,
        Z.of_nat j <> index ->
        currentAnnotations (final o) !! j = Some a ->
        targets a = (1.0, 0.01)).
Proof.
  cbv zeta.
  assert (Hat : forall l : list AnnotationGroup,
            is_Some (at_index (set_targets 1.0 0.01 <$> l) index)
            <-> is_Some (at_index l index)).
  { intros l. unfold at_index. case_match; [done|].
    rewrite list_lookup_fmap. by rewrite fmap_is_Some. }
  assert (Hidle : forall j a,
            (set_targets 1.0 0.01 <$> currentAnnotations st) !! j = Some a ->
            targets a = (1.0, 0.01)).
  { intros j a Hj. rewrite list_lookup_fmap in Hj.
    destruct (currentAnnotations st !! j); by simplify_eq/=. }
  assert (Hother : forall j a,
            Z.of_nat j <> index ->
            alter (set_targets 2.0 1.0) (Z.to_nat index)
              (set_targets 1.0 0.01 <$> currentAnnotations st) !! j = Some a ->
            (0 <= index)%Z ->
            targets a = (1.0, 0.01)).
  { intros j a Hne Hj Hpos. rewrite list_lookup_alter_ne in Hj by lia.
    by eapply Hidle. }
  unfold highlightAnnotation, resetAllTargets, write_targets. state_simpl.
  destruct (annotationsList st) as [rows|] eqn:Hrows.
  2: { split; [|split; [done|]].
       - split; [by left | by eexists].
       - intros j a _. apply Hidle. }
  destruct (at_index (set_targets 1.0 0.01 <$> currentAnnotations st) index)
    as [a0|] eqn:Ha0.
  2: { split; [|split; [done|]].
       - split; [by intros [s Hs]|].
         intros [H|(_ & Hs & _)]; [done|].
         apply Hat in Hs. rewrite Ha0 in Hs. by destruct Hs.
       - intros j a _. apply Hidle. }
  assert (Hpos : (0 <= index)%Z).
  { unfold at_index in Ha0. destruct (Z.ltb_spec index 0); [done|lia]. }
  assert (Hin : is_Some (at_index (currentAnnotations st) index))
    by (apply Hat; by rewrite Ha0).
  assert (Hmove : forall p l s, currentAnnotations (moveCameraTo p l defaultDuration now s)
                                = currentAnnotations s
                                /\ selectedAnnotationIndex (moveCameraTo p l defaultDuration now s)
                                   = selectedAnnotationIndex s).
  { intros p l s. unfold moveCameraTo. by repeat case_match. }
  destruct (at_index (currentAnnotationsData st) index) as [d|] eqn:Hd.
  - destruct (cameraPos d) as [p|], (cameraLookAt d) as [l|];
      destruct showModal; simpl;
      rewrite ?(proj1 (Hmove _ _ _)), ?(proj2 (Hmove _ _ _)); state_simpl.
    all: split; [|split; [done|]]; [|intros j a Hne Hj; by eapply Hother].
    all: split;
      [intros [s Hs]; try discriminate; right; repeat split; by eauto
      |intros [H|(H & _)]; try done; by eexists].
  - rewrite andb_false_r. state_simpl.
    split; [|split; [done|]]; [|intros j a Hne Hj; by eapply Hother].
    split; [by intros [s Hs]|].
    intros [H|(_ & _ & Hs)]; [done | by destruct Hs].
Qed.

Lemma highlight_raises_iff_witness :
  (exists s, highlightAnnotation 0 true 1000 Sample.loaded = Threw s)
  /\ selectedAnnotationIndex
       (final (highlightAnnotation 0 true 1000 Sample.loaded)) = 0%Z
  /\ targetsAt 1 (final (highlightAnnotation 0 true 1000 Sample.loaded))
     = Some (1.0, 0.01).
Proof.
  destruct (highlight_raises_iff 0 true 1000 Sample.loaded)
    as (Hiff & Hsel & Hidle).
  split; [|split; [exact Hsel|]].
  - apply Hiff. right. split; [reflexivity|]. split; eexists; reflexivity.
  - unfold targetsAt.
    destruct (currentAnnotations
                (final (highlightAnnotation 0 true 1000 Sample.loaded)) !! 1%nat)
      as [a|] eqn:Ha; [|discriminate Ha].
    simpl. f_equal. apply (Hidle 1%nat a); [discriminate | exact Ha].
Defined.

(** ** The throttle wrapper *)

Section ThrottleFacts.

Context {A T : Type}.
Variable func : A -> T -> T.

Lemma throttled_dropped (t : Throttled) (calls : list A) :
  inThrottle t = true ->
  throttledRun func (Call <$> calls) t = t.
Proof.
  intros Hin. induction calls as [|a calls IH]; [done|].
  simpl. by rewrite Hin.
Qed.

Lemma throttled_invariant (evs : list (@ThrottleEvent A)) (t : Throttled) :
  (pendingTimeouts t <= 1)%nat ->
  (inThrottle t = true <-> pendingTimeouts t = 1%nat) ->
  (pendingTimeouts (throttledRun func evs t) <= 1)%nat
  /\ (inThrottle (throttledRun func evs t) = true
      <-> pendingTimeouts (throttledRun func evs t) = 1%nat).
Proof.
  revert t. induction evs as [|ev evs IH]; intros t Hle Hiff; [done|].
  simpl.
  assert (Hstep :
    (pendingTimeouts (throttled func ev t) <= 1)%nat
    /\ (inThrottle (throttled func ev t) = true
        <-> pendingTimeouts (throttled func ev t) = 1%nat)).
  { destruct t as [flag n s]. simpl in *.
    destruct ev as [a|]; simpl.
    - destruct flag; simpl; [done|].
      destruct n as [|[|n]]; [split; [lia | done] | | lia].
      destruct Hiff as [_ Hiff]. by specialize (Hiff eq_refl).
    - destruct n as [|[|n]]; simpl; [done | | lia].
      split; [lia|]. split; [done | lia]. }
  destruct Hstep as [H1 H2]. by apply IH.
Qed.

(** X15. [throttle] lets the first call of a burst through and drops the
    rest: of any number of calls made before the timeout fires only the
    first runs the wrapped function, with its own arguments, and the
    arguments of the later calls are never used (there is no trailing
    call); the call that follows the timeout runs again.  Starting from a
    fresh wrapper there is never more than one timeout pending, and the
    flag is set exactly while one is. *)
Theorem throttle_runs_first_call_only :
  (forall (t : Throttled) (first : A) (rest : list A) (next : A),
     inThrottle t = false ->
     let t' := throttledRun func (Call first :: (Call <$> rest)) t in
     inner t' = func first (inner t)
     /\ inThrottle t' = true
     /\ inner (throttledRun func [TimeoutFires; Call next] t')
        = func next (func first (inner t)))
  /\ (forall (evs : list (@ThrottleEvent A)) (s : T),
        let t := throttledRun func evs (freshThrottle s) in
        (pendingTimeouts t <= 1)%nat
        /\ (inThrottle t = true <-> pendingTimeouts t = 1%nat)).
Proof.
  split.
  - intros t first rest next Hin. cbv zeta.
    assert (E : throttledRun func (Call first :: (Call <$> rest)) t
                = {| inThrottle := true;
                     pendingTimeouts := S (pendingTimeouts t);
                     inner := func first (inner t) |}).
    { simpl. rewrite Hin. by apply throttled_dropped. }
    rewrite E. by repeat split.
  - intros evs s. apply throttled_invariant; simpl; [lia | done].
Qed.

End ThrottleFacts.

Lemma throttle_runs_first_call_only_witness :
  let over0 := Sample.pointerAt 400 300 false (Some 0%nat) in
  let over1 := Sample.pointerAt 200 300 false (Some 1%nat) in
  hoveredAnnotation
    (inner (throttledRun onAnnotationHover [Call over0; Call over1]
              (freshThrottle Sample.loaded)))
  = HoverGroup 0.
Proof.
  intros over0 over1.
  destruct (throttle_runs_first_call_only onAnnotationHover) as [Hburst _].
  destruct (Hburst (freshThrottle Sample.loaded) over0 [over1] over0)
    as (Hinner & _); [reflexivity|].
  change (throttledRun onAnnotationHover [Call over0; Call over1]
            (freshThrottle Sample.loaded))
    with (throttledRun onAnnotationHover (Call over0 :: (Call <$> [over1]))
            (freshThrottle Sample.loaded)).
  rewrite Hinner. reflexivity.
Defined.

(** ** The theme switch *)

Lemma theme_invariant (evs : list ThemeEvent) (t : Theme) :
  darkModeClass t
  = (if String.eqb (currentMode t) "auto" then prefersDarkMatches t
     else String.eqb (currentMode t) "dark") ->
  (truthy (currentMode t) = true ->
   loadedMode (storedThemeMode t) = currentMode t) ->
  let t' := themeRun evs t in
  darkModeClass t'
  = (if String.eqb (currentMode t') "auto" then prefersDarkMatches t'
     else String.eqb (currentMode t') "dark")
  /\ (truthy (currentMode t') = true ->
      loadedMode (storedThemeMode t') = currentMode t').
Proof.
  revert t. induction evs as [|ev evs IH]; intros t Hd Hs; [done|].
  simpl. apply IH.
  - destruct ev as [| |mode|matches]; simpl; try done.
    + by destruct (String.eqb mode "auto"), (String.eqb mode "dark").
    + destruct (String.eqb (currentMode t) "auto") eqn:Ha; simpl;
        rewrite Ha; [done|]. by rewrite Hd.
  - destruct ev as [| |mode|matches]; simpl; try done.
    + intros ->. done.
    + by destruct (String.eqb (currentMode t) "auto").
Qed.

(** X16. The theme switch keeps the page consistent with the chosen mode:
    after initialisation and any sequence of menu clicks, option clicks and
    system theme changes, the body has the dark class exactly when the mode
    is "dark", or the mode is "auto" and the system prefers dark (any other
    mode is light).  The choice survives a reload: initialising again from
    what the local storage then holds gives the same mode and the same
    class, provided the mode is not the empty string, which a reload turns
    into "auto". *)
Theorem theme_consistent_and_persistent (page : Theme)
    (evs : list ThemeEvent) :
  let t := themeRun evs (initializeThemeSwitch page) in
  darkModeClass t
  = (if String.eqb (currentMode t) "auto" then prefersDarkMatches t
     else String.eqb (currentMode t) "dark")
  /\ (truthy (currentMode t) = true ->
      currentMode (initializeThemeSwitch t) = currentMode t
      /\ darkModeClass (initializeThemeSwitch t) = darkModeClass t)
  /\ currentMode
       (initializeThemeSwitch (themeStep (ThemeOptionClick EmptyString) t))
     = "auto"%string.
Proof.
  cbv zeta.
  destruct (theme_invariant evs (initializeThemeSwitch page)) as [Hd Hs].
  - unfold initializeThemeSwitch, applyTheme. simpl.
    by destruct (String.eqb (loadedMode (storedThemeMode page)) "auto"),
                (String.eqb (loadedMode (storedThemeMode page)) "dark").
  - intros _. unfold initializeThemeSwitch, applyTheme, loadedMode. simpl.
    destruct (storedThemeMode page) as [m|]; [|done].
    by destruct (truthy m) eqn:Hm.
  - set (t := themeRun evs (initializeThemeSwitch page)) in *.
    split; [exact Hd|]. split; [|done].
    intros Ht. specialize (Hs Ht).
    unfold initializeThemeSwitch, applyTheme. simpl. rewrite Hs.
    split; [done|]. rewrite Hd.
    repeat case_match; done.
Qed.

Lemma theme_consistent_and_persistent_witness :
  let page := {| currentMode := EmptyString; darkModeClass := false;
                 prefersDarkMatches := true; storedThemeMode := None;
                 themeMenuHidden := true |} in
  let t := themeRun [ThemeOptionClick "dark"; SystemThemeChange false]
             (initializeThemeSwitch page) in
  darkModeClass (initializeThemeSwitch page) = true
  /\ currentMode (initializeThemeSwitch t) = "dark"%string
  /\ darkModeClass (initializeThemeSwitch t) = true.
Proof.
  intros page t.
  destruct (theme_consistent_and_persistent page
              [ThemeOptionClick "dark"; SystemThemeChange false])
    as (_ & Hreload & _).
  destruct Hreload as [Hm Hc]; [reflexivity|].
  split; [reflexivity|]. split; [exact Hm|].
  subst t. rewrite Hc. reflexivity.
Defined.

(** ** Closing the menu *)

(** X17. Closing the annotations menu (with both menu elements present)
    deselects everything: the call returns, the menu is hidden, the selected
    index is -1 and every annotation has the idle targets, the hovered one
    included.  The hover tracking is not reset, so as long as the pointer
    stays on the annotation it was on, further pointer-moves change nothing
    and that annotation stays idle. *)
Theorem menu_close_deselects (st : State) (m : bool)
    (rows : list AnnotationData) :
  annotationsMenu st = Some m -> annotationsList st = Some rows ->
  exists st',
    toggleAnnotationsMenu false st = Returned st'
    /\ annotationsMenu st' = Some false
    /\ selectedAnnotationIndex st' = (-1)%Z
    /\ hoveredAnnotation st' = hoveredAnnotation st
    /\ (forall i, (i < length (currentAnnotations st))%nat ->
          targetsAt i st' = Some (1.0, 0.01))
    /\ (forall ev i v cam,
          viewer st = Some v -> camera v = Some cam ->
          outsideRect ev = false ->
          hoveredAnnotation st = HoverGroup i ->
          intersectedGroup ev st = Some i ->
          onAnnotationHover ev st' = st').
Proof.
  intros Hm Hrows. unfold toggleAnnotationsMenu, resetAllTargets.
  rewrite Hm. state_simpl. rewrite Hrows.
  eexists. split; [reflexivity|]. state_simpl.
  split; [done|]. split; [done|]. split; [done|]. split.
  - intros i Hi. unfold targetsAt. state_simpl. rewrite list_lookup_fmap.
    destruct (lookup_lt_is_Some_2 _ _ Hi) as [a Ha]. by rewrite Ha.
  - intros ev i v cam Hv Hcam Hout Hh Hi.
    unfold onAnnotationHover, intersectedGroup in *. state_simpl.
    rewrite Hout, Hv, Hcam, Hh. rewrite length_fmap.
    destruct (rayAnnotation ev) as [k|]; [|done].
    case_decide; [|done]. simplify_eq. simpl.
    rewrite bool_decide_true by done. simpl. state_simpl. rewrite Hh.
    simpl. by rewrite bool_decide_true.
Qed.

Lemma menu_close_deselects_witness :
  exists st',
    toggleAnnotationsMenu false Sample.selected0 = Returned st'
    /\ selectedAnnotationIndex st' = (-1)%Z
    /\ targetsAt 0 st' = Some (1.0, 0.01).
Proof.
  edestruct (menu_close_deselects Sample.selected0)
    as (st' & E & _ & Hs & _ & Hidle & _); [reflexivity | reflexivity |].
  exists st'. split; [exact E|]. split; [exact Hs|].
  apply Hidle. vm_compute. lia.
Defined.

(** ** Orbit controls *)

Section OrbitFrame.

Ltac orbit_crush :=
  repeat first [ progress state_simpl | case_match ];
  try simplify_eq/=;
  repeat (match goal with H : ?x = _ |- context [?x] => rewrite H end; simpl);
  simpl in *; try done; try congruence.

Lemma orbit_moveCameraTo p l d now st :
  orbitEnabled (moveCameraTo p l d now st) = orbitEnabled st.
Proof. unfold orbitEnabled, moveCameraTo. orbit_crush. Qed.

Lemma orbit_animate now st : orbitEnabled (animate now st) = orbitEnabled st.
Proof.
  unfold orbitEnabled, animate, stepAnnotations, stepPanLock, stepCameraMove,
    controls_update.
  orbit_crush.
Qed.

Lemma orbit_onAnnotationHover ev st :
  orbitEnabled (onAnnotationHover ev st) = orbitEnabled st.
Proof.
  unfold orbitEnabled, onAnnotationHover, write_hovered, write_targets.
  orbit_crush.
Qed.

Lemma orbit_toggleAnnotationsMenu show st :
  orbitEnabled (final (toggleAnnotationsMenu show st)) = orbitEnabled st.
Proof.
  unfold orbitEnabled, toggleAnnotationsMenu, resetAllTargets,
    populateAnnotationsMenu.
  orbit_crush.
Qed.

Lemma orbit_highlightAnnotation index showModal now st :
  orbitEnabled (final (highlightAnnotation index showModal now st))
  = orbitEnabled st.
Proof.
  unfold highlightAnnotation.
  repeat case_match; simpl; rewrite ?orbit_moveCameraTo;
    unfold orbitEnabled, resetAllTargets, write_targets; by state_simpl.
Qed.

Lemma orbit_onRowClick rows i now st :
  orbitEnabled (final (onRowClick rows i now st)) = orbitEnabled st.
Proof.
  unfold onRowClick.
  pose proof (orbit_highlightAnnotation (Z.of_nat i) false now st) as H.
  destruct (highlightAnnotation _ _ _ _) as [s|s]; simpl in *; [|done].
  repeat case_match; simpl; by rewrite ?orbit_moveCameraTo.
Qed.

Lemma orbit_loads i st :
  (exists index, i = LoadStage index) \/ (exists ok, i = SplatSettled ok)
  \/ (exists r, i = AnnotationsSettled r) ->
  orbitEnabled (step i st) = orbitEnabled st
  \/ orbitEnabled (step i st) = Some true.
Proof.
  intros [[index ->]|[[ok ->]|[r ->]]]; simpl.
  - unfold loadStage, loadStage_fail, orbitEnabled. orbit_crush; auto.
  - unfold loadStage_splatSettled, loadStage_fail, loadStage_finish,
      clearAnnotations, createMovableDot, applyStageZoom, orbitEnabled.
    orbit_crush; auto.
  - unfold loadStage_annotationsSettled, loadStage_finish, createMovableDot,
      populateAnnotationsMenu, orbitEnabled.
    orbit_crush; auto.
Qed.

Lemma orbit_step i st :
  (forall ev now, i <> PointerDown ev now) ->
  orbitEnabled (step i st) = orbitEnabled st
  \/ orbitEnabled (step i st) = Some true.
Proof.
  intros Hnot. destruct i; simpl.
  - left. apply orbit_animate.
  - left. unfold pointerMove.
    transitivity (orbitEnabled (onDotPointerMove ev st)).
    + case_match; [apply orbit_onAnnotationHover | done].
    + unfold onDotPointerMove, orbitEnabled. orbit_crush.
  - by destruct (Hnot ev now).
  - unfold pointerUp, setControlsEnabled, orbitEnabled.
    orbit_crush; auto.
  - left. case_match; [apply orbit_toggleAnnotationsMenu | done].
  - left. case_match; [apply orbit_toggleAnnotationsMenu | done].
  - left. unfold onRowMouseEnter, write_targets, orbitEnabled. orbit_crush.
  - left. unfold onRowMouseLeave, write_targets, orbitEnabled. orbit_crush.
  - left. case_match; [apply orbit_onRowClick | done].
  - left. unfold setZoomLock, orbitEnabled. orbit_crush.
  - left. unfold clearZoomLock, orbitEnabled. orbit_crush.
  - left. unfold onDevButtonClick, orbitEnabled. orbit_crush.
  - left. unfold updateDotPosition, orbitEnabled. orbit_crush.
  - left. unfold initializeAnnotationsMenu, orbitEnabled. orbit_crush.
  - apply (orbit_loads (LoadStage index) st). left. by eexists.
  - apply (orbit_loads (SplatSettled ok) st). right; left. by eexists.
  - apply (orbit_loads (AnnotationsSettled result) st). right; right.
    by eexists.
Qed.

Lemma orbit_pointerUp st : orbitEnabled (pointerUp st) <> Some false.
Proof. unfold pointerUp, setControlsEnabled, orbitEnabled. orbit_crush. Qed.

End OrbitFrame.

(** X18. Only a pointer-down ever disables the orbit controls, and the next
    pointer-up enables them again: if the controls are disabled after an
    input, then either they were disabled before it or the input is a
    pointer-down; and after a pointer-up they are never disabled.  Frames,
    pointer moves, menu actions, zoom calls and stage loads leave the
    controls enabled when they were. *)
Theorem only_pointer_down_disables_orbit (i : Input) (st : State) :
  (orbitEnabled (step i st) = Some false ->
     orbitEnabled st = Some false \/ exists ev now, i = PointerDown ev now)
  /\ orbitEnabled (pointerUp st) <> Some false
  /\ (orbitEnabled st = Some true ->
      (forall ev now, i <> PointerDown ev now) ->
      orbitEnabled (step i st) = Some true).
Proof.
  split; [|split].
  - intros Hoff.
    assert ((exists ev now, i = PointerDown ev now)
            \/ (forall ev now, i <> PointerDown ev now)) as [Hd|Hnot].
    { destruct i; try (right; discriminate). left. by eexists _, _. }
    + by right.
    + left. destruct (orbit_step i st Hnot) as [E|E]; congruence.
  - apply orbit_pointerUp.
  - intros Hon Hnot.
    destruct (orbit_step i st Hnot) as [E|E]; [by rewrite E | done].
Qed.

Lemma only_pointer_down_disables_orbit_witness :
  let ev := Sample.pointerAt 400 300 false (Some 0%nat) in
  orbitEnabled (step (PointerDown ev 1000) Sample.loaded) = Some false
  /\ orbitEnabled (step (Frame 1016) Sample.loaded) = Some true
  /\ orbitEnabled (pointerUp (step (PointerDown ev 1000) Sample.loaded))
     <> Some false.
Proof.
  intros ev. split; [reflexivity|]. split.
  - apply (only_pointer_down_disables_orbit (Frame 1016) Sample.loaded);
      [reflexivity | discriminate].
  - apply (only_pointer_down_disables_orbit (Frame 0)
             (step (PointerDown ev 1000) Sample.loaded)).
Defined.
